(** * html-to-image: the render-request lifecycle of [server.js]

    A shallow embedding of the Express/Puppeteer server of [src/server.js]:
    the cache key ([generateCacheKey]: MD5 over the html followed by
    [JSON.stringify(options)]), the in-memory image cache, the
    [activeRequests] counter with its throttling middleware, the lazily
    created browser, the routes and the shutdown handlers.

    Asynchronous functions are written as trees of operations ([Task]): a
    synchronous operation on the globals of the module ([Do]) or a
    suspension on a Puppeteer promise ([Await]).  The event loop ([step])
    runs one segment of one task at a time, from an input (a request, the
    settlement of a promise, a timer, a signal) to the next suspension,
    which is how Node interleaves the handlers.  Awaiting one of the
    server's own [async] functions that has already returned continues in
    the same segment: the continuation is a microtask, and no input is
    handled before it runs.

    Conventions of the model:
    - a JavaScript string is the [string] of the bytes of its UTF-8
      encoding, which is what MD5 hashes; its [length] counts UTF-16 code
      units ([Str.length]); a string with a lone surrogate has no such
      encoding and is left out;
    - a JSON number is an integer [Z];
    - an object is the list of its own properties in enumeration order;
    - a request ([Incoming]) has passed the body parsers of lines 25-26:
      [html] is a string or absent, [options] an object or absent (a body
      with an [html] that is not a string, or with [options] that are not
      an object, is left out); a request whose body they reject is the
      input [BadBody], answered by the error handler of Express before any
      middleware of the server has run;
    - a route matches as in Express: the path without regard to case and
      with an optional trailing slash, [HEAD] through the [GET] handlers
      (the response keeps the body the handler sent, which Node does not
      transmit for [HEAD]), [OPTIONS] answered with the methods of the
      route;
    - a response holds the headers the code of the server sets; what Express
      adds of its own ([Content-Type] of [res.json], the page of a 404) is
      left out;
    - [Date.now()] is read once per segment of the event loop;
    - the globals [requestQueue] and [processing], which nothing reads, and
      the lines written to the console are left out. *)

From Stdlib Require Import ZArith List String Ascii Lia.
From Stdlib.Strings Require Byte.
From stdpp Require Import base option list strings pretty gmap fin_maps.
Import ListNotations.

Set Warnings "-register-all".

Local Open Scope Z_scope.
Local Open Scope string_scope.

(** ** Strings *)

Module Str.

(** The UTF-16 code units a byte of UTF-8 stands for: none for a
    continuation byte (10xxxxxx), two for the first byte of a four-byte
    sequence (11110xxx, a character outside the basic plane), one for any
    other byte. *)
Definition units (c : ascii) : Z :=
  let n := Z.of_N (N_of_ascii c) in
  if Z.leb 128 n && Z.ltb n 192 then 0
  else if Z.leb 240 n then 2
  else 1.

(** [s.length] *)
Fixpoint length_acc (s : string) (acc : Z) : Z :=
  match s with
  | EmptyString => acc
  | String c s' => length_acc s' (acc + units c)
  end.

Definition length (s : string) : Z := length_acc s 0.

(** [Buffer.byteLength(s)]: the bytes of the UTF-8 encoding *)
Definition byteLength (s : string) : Z := Z.of_nat (String.length s).

(** [c.repeat(n)] for a one-character string *)
Definition repeat (c : ascii) (n : N) : string :=
  N.iter n (String c) EmptyString.

Fixpoint join (sep : string) (l : list string) : string :=
  match l with
  | [] => EmptyString
  | [x] => x
  | x :: rest => x ++ sep ++ join sep rest
  end.

Definition bytes (s : string) : list Z :=
  map (fun c => Z.of_N (N_of_ascii c)) (list_ascii_of_string s).

Definition hex_digit (n : Z) : ascii :=
  match n with
  | 0 => "0" | 1 => "1" | 2 => "2" | 3 => "3" | 4 => "4" | 5 => "5"
  | 6 => "6" | 7 => "7" | 8 => "8" | 9 => "9" | 10 => "a" | 11 => "b"
  | 12 => "c" | 13 => "d" | 14 => "e" | _ => "f"
  end%char.

(** two lower-case hexadecimal digits of a byte *)
Definition hex_byte (b : Z) : string :=
  String (hex_digit (Z.shiftr b 4)) (String (hex_digit (Z.land b 15)) EmptyString).

End Str.

(** ** JSON values and [JSON.stringify] *)

Inductive json : Type :=
| JNull
| JBool (b : bool)
| JNum (n : Z)
| JStr (s : string)
| JArr (items : list json)
| JObj (fields : list (string * json)).

(** A JavaScript object: its own enumerable properties, in enumeration
    order. *)
Abbreviation object := (list (string * json)).

Module JSON.

(** The double quote, character 34. *)
Definition dquote : ascii :=
  Ascii false true false false false true false false.

(** Escaping of one character inside a JSON string literal. *)
Definition escape_char (c : ascii) : string :=
  let n := Z.of_N (N_of_ascii c) in
  if Z.eqb n 34 then String "\" (String dquote EmptyString) else
  if Z.eqb n 92 then "\\" else
  if Z.eqb n 8 then "\b" else
  if Z.eqb n 12 then "\f" else
  if Z.eqb n 10 then "\n" else
  if Z.eqb n 13 then "\r" else
  if Z.eqb n 9 then "\t" else
  if Z.ltb n 32 then "\u00" ++ Str.hex_byte n
  else String c EmptyString.

Fixpoint escape (s : string) : string :=
  match s with
  | EmptyString => EmptyString
  | String c s' => escape_char c ++ escape s'
  end.

Definition quote (s : string) : string :=
  String dquote (escape s ++ String dquote EmptyString).

Fixpoint stringify (v : json) : string :=
  match v with
  | JNull => "null"
  | JBool true => "true"
  | JBool false => "false"
  | JNum n => pretty n
  | JStr s => quote s
  | JArr items => "[" ++ Str.join "," (map stringify items) ++ "]"
  | JObj fields =>
      "{" ++ Str.join ","
               (map (fun kv => quote (fst kv) ++ ":" ++ stringify (snd kv)) fields)
          ++ "}"
  end.

End JSON.

(** Property access [o.k] and the property write used by object spread. *)
Fixpoint obj_get (k : string) (o : object) : option json :=
  match o with
  | [] => None
  | (k', v) :: rest => if String.eqb k k' then Some v else obj_get k rest
  end.

Fixpoint obj_set (k : string) (v : json) (o : object) : object :=
  match o with
  | [] => [(k, v)]
  | (k', v') :: rest =>
      if String.eqb k k' then (k', v) :: rest else (k', v') :: obj_set k v rest
  end.

(** [{ ...a, ...b }] *)
Definition obj_spread (a b : object) : object :=
  fold_left (fun acc kv => obj_set (fst kv) (snd kv) acc) b a.

(** Truthiness of a JSON value. *)
Definition truthy (v : json) : bool :=
  match v with
  | JNull => false
  | JBool b => b
  | JNum n => negb (Z.eqb n 0)
  | JStr s => negb (String.eqb s EmptyString)
  | JArr _ | JObj _ => true
  end.

(** ** MD5 ([crypto.createHash("md5")], RFC 1321) *)

Module MD5.

Definition mask32 : Z := 0xffffffff.
Definition add32 (a b : Z) : Z := Z.land (a + b) mask32.
Definition not32 (a : Z) : Z := Z.lxor a mask32.
Definition rotl32 (x c : Z) : Z :=
  Z.land (Z.lor (Z.shiftl x c) (Z.shiftr x (32 - c))) mask32.

Definition K : list Z :=
  [ 0xd76aa478; 0xe8c7b756; 0x242070db; 0xc1bdceee;
    0xf57c0faf; 0x4787c62a; 0xa8304613; 0xfd469501;
    0x698098d8; 0x8b44f7af; 0xffff5bb1; 0x895cd7be;
    0x6b901122; 0xfd987193; 0xa679438e; 0x49b40821;
    0xf61e2562; 0xc040b340; 0x265e5a51; 0xe9b6c7aa;
    0xd62f105d; 0x02441453; 0xd8a1e681; 0xe7d3fbc8;
    0x21e1cde6; 0xc33707d6; 0xf4d50d87; 0x455a14ed;
    0xa9e3e905; 0xfcefa3f8; 0x676f02d9; 0x8d2a4c8a;
    0xfffa3942; 0x8771f681; 0x6d9d6122; 0xfde5380c;
    0xa4beea44; 0x4bdecfa9; 0xf6bb4b60; 0xbebfbc70;
    0x289b7ec6; 0xeaa127fa; 0xd4ef3085; 0x04881d05;
    0xd9d4d039; 0xe6db99e5; 0x1fa27cf8; 0xc4ac5665;
    0xf4292244; 0x432aff97; 0xab9423a7; 0xfc93a039;
    0x655b59c3; 0x8f0ccc92; 0xffeff47d; 0x85845dd1;
    0x6fa87e4f; 0xfe2ce6e0; 0xa3014314; 0x4e0811a1;
    0xf7537e82; 0xbd3af235; 0x2ad7d2bb; 0xeb86d391 ].

Definition shifts : list Z :=
  [ 7; 12; 17; 22; 7; 12; 17; 22; 7; 12; 17; 22; 7; 12; 17; 22;
    5; 9; 14; 20; 5; 9; 14; 20; 5; 9; 14; 20; 5; 9; 14; 20;
    4; 11; 16; 23; 4; 11; 16; 23; 4; 11; 16; 23; 4; 11; 16; 23;
    6; 10; 15; 21; 6; 10; 15; 21; 6; 10; 15; 21; 6; 10; 15; 21 ].

Definition nthZ (l : list Z) (i : Z) : Z := nth (Z.to_nat i) l 0.

(** little-endian bytes of an integer, [n] of them *)
Fixpoint le_bytes (n : nat) (x : Z) : list Z :=
  match n with
  | O => []
  | S n' => Z.land x 255 :: le_bytes n' (Z.shiftr x 8)
  end.

Fixpoint le_word (bs : list Z) : Z :=
  match bs with
  | [] => 0
  | b :: rest => b + 256 * le_word rest
  end.

(** the message followed by 0x80, zeros up to 56 modulo 64, and the bit
    length on 64 bits *)
Definition pad (msg : list Z) : list Z :=
  let len := Z.of_nat (List.length msg) in
  let zeros := Z.to_nat ((55 - len) mod 64) in
  msg ++ [128] ++ List.repeat 0 zeros ++ le_bytes 8 (Z.land (8 * len) (2 ^ 64 - 1)).

Fixpoint words (n : nat) (bs : list Z) : list Z :=
  match n with
  | O => []
  | S n' => le_word (firstn 4 bs) :: words n' (skipn 4 bs)
  end.

Record regs := Regs { rA : Z; rB : Z; rC : Z; rD : Z }.

Definition init : regs :=
  Regs 0x67452301 0xefcdab89 0x98badcfe 0x10325476.

Definition round (M : list Z) (r : regs) (i : Z) : regs :=
  let '(Regs a b c d) := r in
  let '(f, g) :=
    if Z.ltb i 16 then (Z.lor (Z.land b c) (Z.land (not32 b) d), i)
    else if Z.ltb i 32 then (Z.lor (Z.land d b) (Z.land (not32 d) c), (5 * i + 1) mod 16)
    else if Z.ltb i 48 then (Z.lxor (Z.lxor b c) d, (3 * i + 5) mod 16)
    else (Z.lxor c (Z.lor b (not32 d)), (7 * i) mod 16) in
  let f' := add32 (add32 (add32 f a) (nthZ K i)) (nthZ M g) in
  Regs d (add32 b (rotl32 f' (nthZ shifts i))) b c.

Definition block (h : regs) (chunk : list Z) : regs :=
  let M := words 16 chunk in
  let r := fold_left (round M) (map Z.of_nat (seq 0 64)) h in
  Regs (add32 (rA h) (rA r)) (add32 (rB h) (rB r))
       (add32 (rC h) (rC r)) (add32 (rD h) (rD r)).

Fixpoint blocks (n : nat) (h : regs) (bs : list Z) : regs :=
  match n with
  | O => h
  | S n' => blocks n' (block h (firstn 64 bs)) (skipn 64 bs)
  end.

Definition digest (msg : list Z) : list Z :=
  let p := pad msg in
  let h := blocks (Nat.div (List.length p) 64) init p in
  le_bytes 4 (rA h) ++ le_bytes 4 (rB h) ++ le_bytes 4 (rC h) ++ le_bytes 4 (rD h).

(** [crypto.createHash("md5").update(s).digest("hex")] *)
Definition hex (s : string) : string :=
  fold_right (fun b acc => Str.hex_byte b ++ acc) EmptyString (digest (Str.bytes s)).

End MD5.

(** ** The cache key *)

(** [function generateCacheKey(html, options)] *)
Definition generateCacheKey (html : string) (options : json) : string :=
  let content := html ++ JSON.stringify options in
  MD5.hex content.

(** ** Dates and numbers printed into responses *)

Module DateFmt.

Definition pad_left (width : nat) (s : string) : string :=
  Str.repeat "0" (N.of_nat (width - String.length s)) ++ s.

Definition digits (width : nat) (n : Z) : string := pad_left width (pretty n).

(** the civil date of a day number counted from 1970-01-01 *)
Definition civil (days : Z) : Z * Z * Z :=
  let z := days + 719468 in
  let era := z / 146097 in
  let doe := z - era * 146097 in
  let yoe := (doe - doe / 1460 + doe / 36524 - doe / 146096) / 365 in
  let doy := doe - (365 * yoe + yoe / 4 - yoe / 100) in
  let mp := (5 * doy + 2) / 153 in
  let d := doy - (153 * mp + 2) / 5 + 1 in
  let m := if Z.ltb mp 10 then mp + 3 else mp - 9 in
  let y := yoe + era * 400 + (if Z.leb m 2 then 1 else 0) in
  (y, m, d).

(** [new Date(ms).toISOString()], for years 0000 to 9999 *)
Definition toISOString (ms : Z) : string :=
  let '(y, m, d) := civil (ms / 86400000) in
  let t := ms mod 86400000 in
  digits 4 y ++ "-" ++ digits 2 m ++ "-" ++ digits 2 d ++ "T"
    ++ digits 2 (t / 3600000) ++ ":" ++ digits 2 (t / 60000 mod 60) ++ ":"
    ++ digits 2 (t / 1000 mod 60) ++ "." ++ digits 3 (t mod 1000) ++ "Z".

(** [Math.round((len / 1024 / 1024) * 100) / 100] printed: the number of
    hundredths is exact in double precision for every string length. *)
Definition megabytes (len : Z) : string :=
  let r := (len * 200 + 1048576) / 2097152 in
  let q := r / 100 in
  let c := r mod 100 in
  if Z.eqb c 0 then pretty q
  else if Z.eqb (c mod 10) 0 then pretty q ++ "." ++ pretty (c / 10)
  else pretty q ++ "." ++ digits 2 c.

End DateFmt.

(** ** Puppeteer, as the server sees it *)

(** A browser or a page is known by its identity; an image is its bytes; an
    error is its [message]. *)
Abbreviation Browser := nat.
Abbreviation Page := nat.
Abbreviation Buffer := (list Byte.byte).
Abbreviation Error := string.

Record launchOptions := LaunchOptions {
  headless : string;
  args : list string;
  executablePath : option string
}.

Record viewport := Viewport {
  vp_width : option json;
  vp_height : option json;
  vp_deviceScaleFactor : option json
}.

Record screenshotOptions := ScreenshotOptions {
  so_fullPage : option json;
  so_type : option json;
  so_quality : option json
}.

(** The promises the server awaits, indexed by what they resolve to. *)
Inductive call : Type -> Type :=
| Launch (o : launchOptions) : call Browser
| NewPage (b : Browser) : call Page
| SetViewport (p : Page) (v : viewport) : call unit
| SetContent (p : Page) (html : string) (waitUntil : string)
    (timeout : option json) : call unit
| Screenshot (p : Page) (o : screenshotOptions) : call Buffer
| PageClose (p : Page) : call unit
| BrowserClose (b : Browser) : call unit.

(** How a promise settles. *)
Inductive settled :=
| SBrowser (b : Browser)
| SPage (p : Page)
| SBuffer (b : Buffer)
| SUnit
| SReject (e : Error).

(** The settlement read at the type of the call; [None] when the call cannot
    settle that way. *)
Definition coerce {X} (c : call X) (o : settled) : option (X + Error) :=
  match c in call X return option (X + Error) with
  | Launch _ =>
      match o with SBrowser b => Some (inl b) | SReject e => Some (inr e) | _ => None end
  | NewPage _ =>
      match o with SPage p => Some (inl p) | SReject e => Some (inr e) | _ => None end
  | Screenshot _ _ =>
      match o with SBuffer b => Some (inl b) | SReject e => Some (inr e) | _ => None end
  | SetViewport _ _ | SetContent _ _ _ _ | PageClose _ | BrowserClose _ =>
      match o with SUnit => Some (inl tt) | SReject e => Some (inr e) | _ => None end
  end.

(** ** Responses *)

Inductive payload :=
| Json (j : json)
| Image (b : Buffer)
| Text (s : string).

Record response := Response {
  statusCode : Z;
  headers : list (string * string);
  body : payload
}.

(** [res.setHeader(name, value)] *)
Definition setHeader (name value : string) (res : response) : response :=
  Response (statusCode res) (headers res ++ [(name, value)]) (body res).

(** [res.status(code).json(j)] *)
Definition status_json (code : Z) (j : json) (res : response) : response :=
  Response code (headers res) (Json j).

(** [res.send(buffer)] *)
Definition send_buffer (b : Buffer) (res : response) : response :=
  Response (statusCode res) (headers res) (Image b).

Definition getHeader (name : string) (res : response) : option string :=
  snd <$> List.find (fun h => String.eqb (fst h) name) (rev (headers res)).

(** ** The globals of the module and the process *)

Record CacheEntry := Entry { buffer : Buffer; timestamp : Z }.

(** [Starting] until the callback of [app.listen] has run, [Draining] once
    [server.close] was called, [Closed] once the server has closed and the
    callbacks given to [server.close] are called. *)
Inductive phase := Starting | Ready | Draining | Closed.

(** What a task does that can be seen from outside the segment: the writes
    to the globals, the calls to Puppeteer, the responses, [server.close]
    and [process.exit].  [id] names the task. *)
Inductive event :=
| EActiveRequests (n : Z)
| ECacheSet (key : string) (e : CacheEntry)
| ECacheDelete (key : string)
| ECacheClear
| EBrowser (b : Browser)
| ECall (id : nat) {X : Type} (c : call X)
| ESend (id : nat) (r : response)
| EServerClose
| EExit (code : Z).

Record state := State {
  activeRequests : Z;
  imageCache : gmap string CacheEntry;
  browser : option Browser;
  lifecycle : phase;
  close_callbacks : nat;
  exit_code : option Z
}.

Definition initial : state :=
  State 0 ∅ None Starting 0 None.

Definition with_activeRequests (n : Z) (s : state) : state :=
  State n (imageCache s) (browser s) (lifecycle s)
        (close_callbacks s) (exit_code s).

Definition with_imageCache (c : gmap string CacheEntry) (s : state) : state :=
  State (activeRequests s) c (browser s) (lifecycle s)
        (close_callbacks s) (exit_code s).

Definition with_browser (b : option Browser) (s : state) : state :=
  State (activeRequests s) (imageCache s) b (lifecycle s)
        (close_callbacks s) (exit_code s).

Definition with_lifecycle (p : phase) (s : state) : state :=
  State (activeRequests s) (imageCache s) (browser s) p
        (close_callbacks s) (exit_code s).

Definition with_close_callbacks (n : nat) (s : state) : state :=
  State (activeRequests s) (imageCache s) (browser s) (lifecycle s)
        n (exit_code s).

Definition with_exit_code (c : option Z) (s : state) : state :=
  State (activeRequests s) (imageCache s) (browser s) (lifecycle s)
        (close_callbacks s) c.

(** ** Synchronous operations and tasks *)

Inductive op : Type -> Type :=
| GetActiveRequests : op Z
| SetActiveRequests (n : Z) : op unit
| ImageCacheHas (key : string) : op bool
| ImageCacheGet (key : string) : op (option CacheEntry)
| ImageCacheSet (key : string) (e : CacheEntry) : op unit
| ImageCacheDelete (key : string) : op unit
| ImageCacheClear : op unit
| ImageCacheSize : op Z
| ImageCacheEntries : op (list (string * CacheEntry))
| GetBrowser : op (option Browser)
| SetBrowser (b : Browser) : op unit
| DateNow : op Z
| ServerClose : op unit
| Send (r : response) : op unit.

(** An asynchronous function: it returns, throws, ends the process, performs
    an operation, or waits for a promise. *)
Inductive Task (R : Type) : Type :=
| Ret (r : R)
| Throw (e : Error)
| Exit (code : Z)
| Do {X : Type} (o : op X) (k : X -> Task R)
| Await {X : Type} (c : call X) (k : X + Error -> Task R).

Arguments Ret {R} r.
Arguments Throw {R} e.
Arguments Exit {R} code.
Arguments Do {R X} o k.
Arguments Await {R X} c k.

Fixpoint bind {A B} (t : Task A) (f : A -> Task B) : Task B :=
  match t with
  | Ret r => f r
  | Throw e => Throw e
  | Exit code => Exit code
  | Do o k => Do o (fun x => bind (k x) f)
  | Await c k => Await c (fun r => bind (k r) f)
  end.

Notation "x <- t ;; k" := (bind t (fun x => k))
  (at level 100, t at next level, right associativity).
Notation "t ;; k" := (bind t (fun _ => k))
  (at level 100, right associativity).

Definition perform {X} (o : op X) : Task X := Do o Ret.

(** [await c]: the value of the promise, or its rejection thrown. *)
Definition await {X} (c : call X) : Task X :=
  Await c (fun r => match r with inl x => Ret x | inr e => Throw e end).

(** [try { t } catch (error) { h error }] *)
Fixpoint try_catch {A} (t : Task A) (h : Error -> Task A) : Task A :=
  match t with
  | Ret r => Ret r
  | Throw e => h e
  | Exit code => Exit code
  | Do o k => Do o (fun x => try_catch (k x) h)
  | Await c k => Await c (fun r => try_catch (k r) h)
  end.

(** [try { t } finally { f }]: [f] runs on return and on throw, and an
    exception of [f] replaces the outcome of [t]. *)
Fixpoint try_finally {A} (t : Task A) (f : Task unit) : Task A :=
  match t with
  | Ret r => f ;; Ret r
  | Throw e => f ;; Throw e
  | Exit code => Exit code
  | Do o k => Do o (fun x => try_finally (k x) f)
  | Await c k => Await c (fun r => try_finally (k r) f)
  end.

Fixpoint for_each {A} (l : list A) (f : A -> Task unit) : Task unit :=
  match l with
  | [] => Ret tt
  | x :: rest => f x ;; for_each rest f
  end.

(** The effect of one operation on the globals; [now] is the clock. *)
Definition exec_op (now : Z) {X} (o : op X) (s : state) : state * X :=
  match o in op X return state * X with
  | GetActiveRequests => (s, activeRequests s)
  | SetActiveRequests n => (with_activeRequests n s, tt)
  | ImageCacheHas key =>
      (s, match imageCache s !! key with Some _ => true | None => false end)
  | ImageCacheGet key => (s, imageCache s !! key)
  | ImageCacheSet key e => (with_imageCache (<[key := e]> (imageCache s)) s, tt)
  | ImageCacheDelete key => (with_imageCache (delete key (imageCache s)) s, tt)
  | ImageCacheClear => (with_imageCache ∅ s, tt)
  | ImageCacheSize => (s, Z.of_nat (size (imageCache s)))
  | ImageCacheEntries => (s, map_to_list (imageCache s))
  | GetBrowser => (s, browser s)
  | SetBrowser b => (with_browser (Some b) s, tt)
  | DateNow => (s, now)
  | ServerClose =>
      (with_close_callbacks (S (close_callbacks s))
         (with_lifecycle (match lifecycle s with Closed => Closed | _ => Draining end) s),
       tt)
  | Send r => (s, tt)
  end.

(** The events of one operation of task [id]. *)
Definition emit (id : nat) {X} (o : op X) : list event :=
  match o with
  | SetActiveRequests n => [EActiveRequests n]
  | ImageCacheSet key e => [ECacheSet key e]
  | ImageCacheDelete key => [ECacheDelete key]
  | ImageCacheClear => [ECacheClear]
  | SetBrowser b => [EBrowser b]
  | ServerClose => [EServerClose]
  | Send r => [ESend id r]
  | _ => []
  end.

(** Where a segment of a task stops. *)
Inductive result (R : Type) : Type :=
| Finished (r : R)
| Failed (e : Error)
| Exited
| Blocked {X : Type} (c : call X) (k : X + Error -> Task R).

Arguments Finished {R} r.
Arguments Failed {R} e.
Arguments Exited {R}.
Arguments Blocked {R X} c k.

(** One segment of task [id] at time [now]: the task runs until it ends or
    awaits; the result is the new globals, the events in order after [evs],
    and where the task stopped. *)
Fixpoint exec {R} (id : nat) (now : Z) (t : Task R) (s : state) (evs : list event)
    : state * list event * result R :=
  match t with
  | Ret r => (s, evs, Finished r)
  | Throw e => (s, evs, Failed e)
  | Exit code => (with_exit_code (Some code) s, (evs ++ [EExit code])%list, Exited)
  | Do o k =>
      exec id now (k (snd (exec_op now o s))) (fst (exec_op now o s))
           (evs ++ emit id o)%list
  | Await c k => (s, (evs ++ [ECall id c])%list, Blocked c k)
  end.

Definition run {R} (id : nat) (now : Z) (t : Task R) (s : state)
    : state * list event * result R :=
  exec id now t s [].

(** ** The server *)

(** [process.env], with [parseInt] already applied to the numeric variables
    ([None]: unset or not a number). *)
Record environment := Env {
  env_MAX_CONCURRENT : option Z;
  env_CACHE_TTL : option Z;
  env_PUPPETEER_EXECUTABLE_PATH : option string
}.

(** [parseInt(v) || d] *)
Definition or_default (v : option Z) (d : Z) : Z :=
  match v with
  | Some n => if Z.eqb n 0 then d else n
  | None => d
  end.

Record request := Request {
  method : string;
  path : string;
  html : option string;
  options : option object
}.

(** [const imageOptions] *)
Definition imageOptions : object :=
  [ ("width", JNum 1920); ("height", JNum 1080); ("deviceScaleFactor", JNum 1);
    ("fullPage", JBool true); ("type", JStr "png"); ("quality", JNum 90);
    ("timeout", JNum 25000) ].

Definition full_args : list string :=
  [ "--no-sandbox"; "--disable-setuid-sandbox"; "--disable-dev-shm-usage";
    "--disable-gpu"; "--no-first-run"; "--no-zygote"; "--single-process";
    "--disable-extensions"; "--disable-default-apps"; "--disable-web-security";
    "--disable-features=VizDisplayCompositor";
    "--disable-background-timer-throttling"; "--disable-renderer-backgrounding";
    "--disable-backgrounding-occluded-windows"; "--disable-ipc-flooding-protection";
    "--enable-features=NetworkService,NetworkServiceInProcess";
    "--force-color-profile=srgb"; "--metrics-recording-only"; "--use-mock-keychain" ].

Definition minimal_args : list string :=
  [ "--no-sandbox"; "--disable-setuid-sandbox"; "--disable-dev-shm-usage";
    "--disable-gpu"; "--single-process" ].

(** [a || b] on values that may be [undefined] *)
Definition js_or (a b : option json) : option json :=
  match a with
  | Some v => if truthy v then a else b
  | None => b
  end.

(** [v === s] for a string [s] *)
Definition is_string (v : option json) (s : string) : bool :=
  match v with
  | Some (JStr s') => String.eqb s' s
  | _ => false
  end.

(** Conversion to a string inside a template literal. *)
Fixpoint to_String (v : json) : string :=
  match v with
  | JNull => "null"
  | JBool true => "true"
  | JBool false => "false"
  | JNum n => pretty n
  | JStr s => s
  | JArr items =>
      Str.join "," (map (fun x => match x with JNull => EmptyString | _ => to_String x end) items)
  | JObj _ => "[object Object]"
  end.

Definition template (v : option json) : string :=
  match v with
  | Some j => to_String j
  | None => "undefined"
  end.

Definition security_headers : list (string * string) :=
  [ ("Cache-Control", "no-cache"); ("X-Content-Type-Options", "nosniff");
    ("X-Frame-Options", "DENY"); ("X-XSS-Protection", "1; mode=block") ].

(** The page of [/test-image]; [iso] is [new Date().toISOString()]. *)
Definition testHtml (iso : string) : string :=
  let q := String JSON.dquote EmptyString in
  "
    <!DOCTYPE html>
    <html>
    <head>
      <meta charset="
    ++ q ++ "UTF-8"
    ++ q ++ ">
      <style>
        body { 
          font-family: -apple-system, BlinkMacSystemFont, 'Segoe UI', sans-serif; 
          margin: 20px; 
          line-height: 1.6;
          background: linear-gradient(135deg, #667eea 0%, #764ba2 100%);
          color: white;
          min-height: 100vh;
          display: flex;
          flex-direction: column;
          justify-content: center;
        }
        .container {
          max-width: 800px;
          margin: 0 auto;
          text-align: center;
        }
        h1 { 
          color: #ffffff; 
          margin-bottom: 20px; 
          font-size: 3em;
          text-shadow: 2px 2px 4px rgba(0,0,0,0.3);
        }
        .info { 
          background: rgba(255,255,255,0.1); 
          padding: 30px; 
          border-radius: 15px; 
          margin: 20px 0; 
          backdrop-filter: blur(10px);
          border: 1px solid rgba(255,255,255,0.2);
        }
        .performance { 
          color: #00ff88; 
          font-weight: bold; 
          font-size: 1.2em;
        }
        .timestamp {
          font-size: 0.9em;
          opacity: 0.8;
        }
      </style>
    </head>
    <body>
      <div class="
    ++ q ++ "container"
    ++ q ++ ">
        <h1>📸 High-Performance Image Generator</h1>
        <div class="
    ++ q ++ "info"
    ++ q ++ ">
          <p><strong>Generated at:</strong> <span class="
    ++ q ++ "timestamp"
    ++ q ++ ">"
    ++ iso ++
  "</span></p>
          <p><strong>Engine:</strong> Puppeteer (optimized)</p>
          <p><strong>Features:</strong> Caching, Queue Management, Multiple Formats</p>
          <p class="
    ++ q ++ "performance"
    ++ q ++ ">⚡ Optimized for speed and quality!</p>
        </div>
        <p>This image demonstrates the enhanced performance capabilities of the server.</p>
        <p>Subsequent requests for identical content will be served from cache for instant delivery.</p>
        <p>🚀 Supports PNG, JPEG, and WebP formats</p>
      </div>
    </body>
    </html>
  ".

(** ** Routing

    Express matches the path of a route against [req.path] without regard to
    case and with an optional trailing slash (the regular expression
    [^route\/?$] with flag [i]; [^\/?$] for the route [/]).  A route
    registered with [app.get] also serves [HEAD]. *)

Definition lower (c : ascii) : ascii :=
  let n := N_of_ascii c in
  if N.leb 65 n && N.leb n 90 then ascii_of_N (n + 32) else c.

Fixpoint lowercase (s : string) : string :=
  match s with
  | EmptyString => EmptyString
  | String c s' => String (lower c) (lowercase s')
  end.

Definition route_matches (route path : string) : bool :=
  let base := if String.eqb route "/" then EmptyString else lowercase route in
  String.eqb (lowercase path) base || String.eqb (lowercase path) (base ++ "/").

Definition is_get (method : string) : bool :=
  String.eqb method "GET" || String.eqb method "HEAD".

(** The methods Express lists in the [Allow] header of its answer to an
    [OPTIONS] request, by the route the path matches. *)
Definition allowed_methods (path : string) : option string :=
  if route_matches "/" path || route_matches "/test-image" path then Some "GET,HEAD"
  else if route_matches "/cache-clear" path || route_matches "/html-to-image" path
       then Some "POST"
  else None.

(** What the body parsers ([express.json], [express.urlencoded], lines
    25-26) reject a request with: a body that cannot be parsed, a body over
    the limit of 50mb, a charset or encoding they do not support. *)
Inductive parse_error := BadRequest | PayloadTooLarge | UnsupportedMediaType.

Definition parse_status (e : parse_error) : Z :=
  match e with
  | BadRequest => 400
  | PayloadTooLarge => 413
  | UnsupportedMediaType => 415
  end.

(** The limit of the body parsers, in bytes: ["50mb"]. *)
Definition BODY_LIMIT : Z := 50 * 1024 * 1024.

(** A request the body parsers reject goes to the error handler of Express:
    no middleware of the server has run, the response has none of its
    headers. *)
Definition bad_body_response (e : parse_error) : response :=
  Response (parse_status e) [] (Text EmptyString).

Definition on_bad_body (e : parse_error) : Task unit :=
  perform (Send (bad_body_response e)).

Section Server.

Context (env : environment).

Definition MAX_CONCURRENT : Z := or_default (env_MAX_CONCURRENT env) 5.
Definition CACHE_TTL : Z := or_default (env_CACHE_TTL env) 300000.

(** The ceiling on [html.length]: [10 * 1024 * 1024]. *)
Definition MAX_HTML_LENGTH : Z := 10 * 1024 * 1024.

(** The options of the first launch. *)
Definition first_launchOptions : launchOptions :=
  let launchOptions := LaunchOptions "new" full_args None in
  match env_PUPPETEER_EXECUTABLE_PATH env with
  | Some p =>
      if negb (String.eqb p EmptyString) && negb (String.eqb p "/usr/bin/chromium-browser")
      then LaunchOptions (headless launchOptions) (args launchOptions) (Some p)
      else launchOptions
  | None => launchOptions
  end.

(** The options of the retry: [args] replaced, [executablePath] deleted. *)
Definition retry_launchOptions : launchOptions :=
  LaunchOptions (headless first_launchOptions) minimal_args None.

(** [async function initBrowser()] *)
Definition initBrowser : Task (option Browser) :=
  b <- perform GetBrowser ;;
  (match b with
   | Some _ => Ret tt
   | None =>
       try_catch
         (b1 <- await (Launch first_launchOptions) ;;
          perform (SetBrowser b1))
         (fun error =>
            b2 <- await (Launch retry_launchOptions) ;;
            perform (SetBrowser b2))
   end) ;;
  perform GetBrowser.

(** [function cleanupCache()] *)
Definition cleanupCache : Task unit :=
  now <- perform DateNow ;;
  entries <- perform ImageCacheEntries ;;
  for_each entries (fun kd =>
    if Z.gtb (now - timestamp (snd kd)) CACHE_TTL
    then perform (ImageCacheDelete (fst kd))
    else Ret tt).

(** The part of [generateImageOptimized] after the cache check. *)
Definition render (html : string) (options : object) (cacheKey : string) : Task Buffer :=
  let finalOptions := obj_spread imageOptions options in
  browserInstance <- initBrowser ;;
  page <- (match browserInstance with
           | Some b => await (NewPage b)
           | None => Throw "Cannot read properties of null (reading 'newPage')"
           end) ;;
  try_finally
    (await (SetViewport page
              (Viewport (obj_get "width" finalOptions) (obj_get "height" finalOptions)
                        (obj_get "deviceScaleFactor" finalOptions))) ;;
     await (SetContent page html "networkidle0" (obj_get "timeout" finalOptions)) ;;
     let screenshotOptions :=
       ScreenshotOptions (obj_get "fullPage" finalOptions) (obj_get "type" finalOptions)
         (if is_string (obj_get "type" finalOptions) "jpeg"
          then obj_get "quality" finalOptions else None) in
     imageBuffer <- await (Screenshot page screenshotOptions) ;;
     now <- perform DateNow ;;
     perform (ImageCacheSet cacheKey (Entry imageBuffer now)) ;;
     Ret imageBuffer)
    (await (PageClose page)).

(** [async function generateImageOptimized(html, options = {})] *)
Definition generateImageOptimized (html : string) (options : object) : Task Buffer :=
  let cacheKey := generateCacheKey html (JObj options) in
  has <- perform (ImageCacheHas cacheKey) ;;
  if has then
    cached <- perform (ImageCacheGet cacheKey) ;;
    match cached with
    | Some cached =>
        now <- perform DateNow ;;
        if Z.ltb (now - timestamp cached) CACHE_TTL
        then Ret (buffer cached)
        else (perform (ImageCacheDelete cacheKey) ;; render html options cacheKey)
    | None => Throw "Cannot read properties of undefined (reading 'timestamp')"
    end
  else render html options cacheKey.

(** [activeRequests++] *)
Definition enter : Task unit :=
  n <- perform GetActiveRequests ;;
  perform (SetActiveRequests (n + 1)).

(** [activeRequests = Math.max(0, activeRequests - 1)] *)
Definition leave : Task unit :=
  n <- perform GetActiveRequests ;;
  perform (SetActiveRequests (Z.max 0 (n - 1))).

(** The 400 of the route: [res.status(400).json({ error, usage })]. *)
Definition html_required (res : response) : response :=
  status_json 400
    (JObj [ ("error", JStr "HTML content is required");
            ("usage", JStr "Send JSON with 'html' field containing HTML content") ])
    res.

(** The 413 of the route: [res.status(413).json({ error, maxSize, received })]. *)
Definition html_too_large (html : string) (res : response) : response :=
  status_json 413
    (JObj [ ("error", JStr "HTML content too large");
            ("maxSize", JStr "10MB");
            ("received", JStr (DateFmt.megabytes (Str.length html) ++ "MB")) ])
    res.

(** The image as it is sent: the five [res.setHeader] calls and
    [res.send(imageBuffer)]; [has] is
    [imageCache.has(generateCacheKey(html, options))]. *)
Definition image_response (options : object) (imageBuffer : Buffer) (totalTime : Z)
    (has : bool) (res : response) : response :=
  let format := js_or (obj_get "type" options) (obj_get "type" imageOptions) in
  let contentType :=
    if is_string format "jpeg" then "image/jpeg"
    else if is_string format "webp" then "image/webp"
    else "image/png" in
  let q := String JSON.dquote EmptyString in
  let res := setHeader "Content-Type" contentType res in
  let res := setHeader "Content-Disposition"
               ("attachment; filename=" ++ q ++ "screenshot." ++ template format ++ q)
               res in
  let res := setHeader "Content-Length"
               (pretty (Z.of_nat (List.length imageBuffer))) res in
  let res := setHeader "X-Processing-Time" (pretty totalTime ++ "ms") res in
  let res := setHeader "X-Cache-Status" (if has then "HIT" else "MISS") res in
  send_buffer imageBuffer res.

(** The 500 of the route, sent from its [catch]. *)
Definition generation_failed (error : Error) (totalTime now : Z) (res : response)
    : response :=
  status_json 500
    (JObj [ ("error", JStr "Failed to generate image");
            ("details", JStr error);
            ("processingTime", JStr (pretty totalTime ++ "ms"));
            ("timestamp", JStr (DateFmt.toISOString now)) ])
    res.

(** [app.post("/html-to-image", async (req, res) => ...)] *)
Definition post_html_to_image (req : request) (res : response) : Task unit :=
  requestStart <- perform DateNow ;;
  enter ;;
  try_finally
    (try_catch
       (let options := default [] (options req) in
        match html req with
        | None | Some EmptyString => perform (Send (html_required res))
        | Some html =>
            if Z.gtb (Str.length html) MAX_HTML_LENGTH then
              perform (Send (html_too_large html res))
            else
              imageBuffer <- generateImageOptimized html options ;;
              now <- perform DateNow ;;
              let totalTime := now - requestStart in
              has <- perform (ImageCacheHas (generateCacheKey html (JObj options))) ;;
              perform (Send (image_response options imageBuffer totalTime has res))
        end)
       (fun error =>
          now <- perform DateNow ;;
          let totalTime := now - requestStart in
          perform (Send (generation_failed error totalTime now res))))
    leave.

(** [app.get("/test-image", async (req, res) => ...)] *)
Definition get_test_image (res : response) : Task unit :=
  startTime <- perform DateNow ;;
  enter ;;
  let testHtml := testHtml (DateFmt.toISOString startTime) in
  try_finally
    (try_catch
       (imageBuffer <- generateImageOptimized testHtml [] ;;
        now <- perform DateNow ;;
        let processingTime := now - startTime in
        let q := String JSON.dquote EmptyString in
        let res := setHeader "Content-Type" "image/png" res in
        let res := setHeader "Content-Disposition"
                     ("attachment; filename=" ++ q ++ "performance-test.png" ++ q) res in
        let res := setHeader "Content-Length"
                     (pretty (Z.of_nat (List.length imageBuffer))) res in
        let res := setHeader "X-Processing-Time" (pretty processingTime ++ "ms") res in
        perform (Send (send_buffer imageBuffer res)))
       (fun error =>
          now <- perform DateNow ;;
          let processingTime := now - startTime in
          perform (Send (status_json 500
            (JObj [ ("error", JStr "Test failed");
                    ("details", JStr error);
                    ("processingTime", JStr (pretty processingTime ++ "ms")) ])
            res))))
    leave.

(** [app.get("/", ...)]; the uptime and memory figures of the process are
    left out of the body. *)
Definition get_root (res : response) : Task unit :=
  n <- perform GetActiveRequests ;;
  size <- perform ImageCacheSize ;;
  perform (Send (status_json (statusCode res)
    (JObj [ ("message", JStr "High-Performance HTML to Image Server");
            ("version", JStr "2.1.0");
            ("engine", JStr "puppeteer");
            ("status", JObj [ ("activeRequests", JNum n);
                              ("maxConcurrent", JNum MAX_CONCURRENT);
                              ("cacheSize", JNum size) ]);
            ("endpoints", JObj [
               ("html-to-image", JStr "POST /html-to-image - Convert HTML to Image (cached)");
               ("test", JStr "GET /test-image - Generate test image");
               ("health", JStr "GET / - Health check and status");
               ("cache-clear", JStr "POST /cache-clear - Clear image cache") ]) ])
    res)).

(** [app.post("/cache-clear", ...)] *)
Definition post_cache_clear (res : response) : Task unit :=
  cacheSize <- perform ImageCacheSize ;;
  perform ImageCacheClear ;;
  now <- perform DateNow ;;
  perform (Send (status_json (statusCode res)
    (JObj [ ("message", JStr "Cache cleared successfully");
            ("clearedEntries", JNum cacheSize);
            ("timestamp", JStr (DateFmt.toISOString now)) ])
    res)).

(** The response object after the middleware that sets the security
    headers. *)
Definition fresh_res : response :=
  Response 200 security_headers (Text EmptyString).

(** The 429 of the throttling middleware. *)
Definition server_busy (res : response) : response :=
  status_json 429
    (JObj [ ("error", JStr "Server busy");
            ("message", JStr "Too many concurrent requests. Please retry in a few seconds.");
            ("retryAfter", JNum 3) ])
    res.

(** The answer of Express when no route has answered: [Allow] with the
    methods of the route for an [OPTIONS] request whose path matches one,
    404 otherwise. *)
Definition unrouted (req : request) (res : response) : response :=
  match (if String.eqb (method req) "OPTIONS" then allowed_methods (path req) else None) with
  | Some methods =>
      Response 200 (headers (setHeader "Allow" methods res)) (Text methods)
  | None =>
      Response 404 (headers res) (Text ("Cannot " ++ method req ++ " " ++ path req))
  end.

(** The routes, in the order of their registration. *)
Definition routes (req : request) (res : response) : Task unit :=
  if is_get (method req) && route_matches "/" (path req) then
    get_root res
  else if String.eqb (method req) "POST" && route_matches "/cache-clear" (path req) then
    post_cache_clear res
  else if String.eqb (method req) "POST" && route_matches "/html-to-image" (path req) then
    post_html_to_image req res
  else if is_get (method req) && route_matches "/test-image" (path req) then
    get_test_image res
  else
    perform (Send (unrouted req res)).

(** The middleware chain of [app] for a request that has passed the body
    parsers: the security headers, then the request throttling, which
    compares [req.path] itself with [===], then the routes. *)
Definition app (req : request) : Task unit :=
  let res := fresh_res in
  n <- perform GetActiveRequests ;;
  if Z.geb n MAX_CONCURRENT && String.eqb (path req) "/html-to-image" then
    perform (Send (server_busy res))
  else
    routes req res.

(** The callback of [app.listen]: the browser is started ahead of the first
    request, and a failure is only logged. *)
Definition on_listening : Task unit :=
  try_catch (initBrowser ;; Ret tt) (fun error => Ret tt).

(** [process.on("SIGTERM", ...)] and [process.on("SIGINT", ...)]: the two
    handlers are the same but for their log line. *)
Inductive signal := SIGTERM | SIGINT.

Definition on_signal (sig : signal) : Task unit :=
  perform ServerClose.

(** The callback given to [server.close]. *)
Definition on_server_closed : Task unit :=
  perform ImageCacheClear ;;
  b <- perform GetBrowser ;;
  (match b with
   | Some b => await (BrowserClose b)
   | None => Ret tt
   end) ;;
  Exit 0.

End Server.

(** ** The event loop *)

Inductive input :=
| Listening
| Incoming (req : request)
| Settle (id : nat) (o : settled)
| CleanupTimer
| Signal (sig : signal)
| ServerClosed
| BadBody (e : parse_error).

(** Requests reach the server from the [listening] event until the server
    has closed: [server.close()] stops new connections only, and in Node 18
    the connections that are open keep being served. *)
Definition accepting (p : phase) : bool :=
  match p with
  | Ready | Draining => true
  | Starting | Closed => false
  end.

(** A task suspended on a promise, with the input that started it. *)
Inductive suspended : Type :=
| Suspended (src : input) {X : Type} (c : call X) (k : X + Error -> Task unit).

Record machine := Machine {
  st : state;
  tasks : list (nat * suspended);
  next_id : nat;
  history : list event
}.

Definition boot : machine := Machine initial [] 0 [].

(** The suspended task [id], and the other tasks. *)
Fixpoint take_task (id : nat) (l : list (nat * suspended))
    : option (suspended * list (nat * suspended)) :=
  match l with
  | [] => None
  | (id', t) :: rest =>
      if Nat.eqb id id' then Some (t, rest)
      else match take_task id rest with
           | Some (t', rest') => Some (t', (id', t) :: rest')
           | None => None
           end
  end.

(** What the event loop does with a segment that stopped.  A rejection no
    handler catches ends a Node 18 process with code 1. *)
Definition settle_segment (id : nat) (src : input) (ts : list (nat * suspended))
    (next : nat) (h : list event) (r : state * list event * result unit) : machine :=
  match r with
  | (s, evs, Finished _) => Machine s ts next (h ++ evs)%list
  | (s, evs, Failed e) =>
      Machine (with_exit_code (Some 1) s) ts next (h ++ evs ++ [EExit 1])%list
  | (s, evs, Exited) => Machine s ts next (h ++ evs)%list
  | (s, evs, Blocked c k) =>
      Machine s (ts ++ [(id, Suspended src c k)])%list next (h ++ evs)%list
  end.

(** A new task starts under a fresh identity. *)
Definition spawn (now : Z) (src : input) (t : Task unit) (s : state) (m : machine)
    : machine :=
  settle_segment (next_id m) src (tasks m) (S (next_id m)) (history m)
    (run (next_id m) now t s).

(** One turn of the event loop at time [now]; [None] when the input cannot
    occur in this state. *)
Definition step (env : environment) (now : Z) (i : input) (m : machine) : option machine :=
  match exit_code (st m) with
  | Some _ => None
  | None =>
      match i with
      | Listening =>
          match lifecycle (st m) with
          | Starting =>
              Some (spawn now i (on_listening env) (with_lifecycle Ready (st m)) m)
          | _ => None
          end
      | Incoming req =>
          if accepting (lifecycle (st m))
          then Some (spawn now i (app env req) (st m) m)
          else None
      | BadBody e =>
          if accepting (lifecycle (st m))
          then Some (spawn now i (on_bad_body e) (st m) m)
          else None
      | Settle id o =>
          match take_task id (tasks m) with
          | Some (Suspended src c k, rest) =>
              match coerce c o with
              | Some v =>
                  Some (settle_segment id src rest (next_id m) (history m)
                          (run id now (k v) (st m)))
              | None => None
              end
          | None => None
          end
      | CleanupTimer => Some (spawn now i (cleanupCache env) (st m) m)
      | Signal sig => Some (spawn now i (on_signal sig) (st m) m)
      | ServerClosed =>
          match close_callbacks (st m) with
          | O => None
          | S n =>
              Some (spawn now i on_server_closed
                      (with_close_callbacks n (with_lifecycle Closed (st m))) m)
          end
      end
  end.

(** A run of the event loop over timed inputs. *)
Fixpoint steps (env : environment) (l : list (Z * input)) (m : machine) : option machine :=
  match l with
  | [] => Some m
  | (now, i) :: rest =>
      match step env now i m with
      | Some m' => steps env rest m'
      | None => None
      end
  end.

(** The responses among some events, oldest first, with the task that sent
    each. *)
Definition responses (evs : list event) : list (nat * response) :=
  omap (fun e => match e with ESend id r => Some (id, r) | _ => None end) evs.

(** The requests being rendered: the suspended tasks a request started. *)
Definition is_request (t : nat * suspended) : bool :=
  match t with
  | (_, Suspended (Incoming _) _ _) | (_, Suspended (BadBody _) _ _) => true
  | _ => false
  end.

Definition in_flight (m : machine) : Z :=
  Z.of_nat (List.length (List.filter is_request (tasks m))).

(** A task run among others: each promise it awaits settles as the next
    element of [feed] says, at the time given with it, and the task resumes
    in the state given with it, which is what the tasks that ran in between
    have made of the globals.  The events are those of the task alone. *)
Fixpoint drive_among {R} (id : nat) (feed : list (Z * settled * state))
    (r : state * list event * result R) : option (state * list event * result R) :=
  match feed with
  | [] => Some r
  | (now, o, s') :: rest =>
      match r with
      | (_, evs, Blocked c k) =>
          match coerce c o with
          | Some v => drive_among id rest (exec id now (k v) s' evs)
          | None => None
          end
      | _ => None
      end
  end.

(** The task an input starts. *)
Definition task_of (env : environment) (i : input) : Task unit :=
  match i with
  | Listening => on_listening env
  | Incoming req => app env req
  | CleanupTimer => cleanupCache env
  | Signal sig => on_signal sig
  | ServerClosed => on_server_closed
  | BadBody e => on_bad_body e
  | Settle _ _ => Ret tt
  end.

Definition default_env : environment := Env None None None.

(** ** Sample inputs *)

(** A request for the page [<h1>x</h1>], and a run in which the server
    starts its browser and renders that page once. *)
Definition request_x : request :=
  Request "POST" "/html-to-image" (Some "<h1>x</h1>") None.

Definition warm_up : list (Z * input) :=
  [ (0, Listening); (10, Settle 0 (SBrowser 1));
    (20, Incoming request_x); (30, Settle 1 (SPage 7)); (40, Settle 1 SUnit);
    (50, Settle 1 SUnit); (60, Settle 1 (SBuffer [Byte.x89; Byte.x50]));
    (70, Settle 1 SUnit) ].

(** Five requests for other pages, none of them answered yet. *)
Definition five_in_flight : list (Z * input) :=
  map (fun h => (80, Incoming (Request "POST" "/html-to-image" (Some h) None)))
      ["<p>a</p>"; "<p>b</p>"; "<p>c</p>"; "<p>d</p>"; "<p>e</p>"].

(** A server with browser 1 and nothing else. *)
Definition idle : state := State 0 ∅ (Some 1%nat) Ready 0 None.

(** A cache holding one image of [<h1>x</h1>] rendered at time 0. *)
Definition one_image : state :=
  State 0 {[ generateCacheKey "<h1>x</h1>" (JObj []) := Entry [Byte.x89; Byte.x50] 0 ]}
        (Some 1%nat) Ready 0 None.

(** * Properties *)

(** ** Test vectors *)

Example md5_empty : MD5.hex EmptyString = "d41d8cd98f00b204e9800998ecf8427e".
Proof. vm_compute. reflexivity. Qed.

Example md5_abc : MD5.hex "abc" = "900150983cd24fb0d6963f7d28e17f72".
Proof. vm_compute. reflexivity. Qed.

Example md5_two_blocks :
  MD5.hex (Str.repeat "a" 56) = "3b0c8ac703f828b04c6c197006d17218".
Proof. vm_compute. reflexivity. Qed.

Example toISOString_sample :
  DateFmt.toISOString 1709251199999 = "2024-02-29T23:59:59.999Z".
Proof. vm_compute. reflexivity. Qed.

(** ** Facts of concrete runs, by evaluation *)

#[local] Instance byte_eq_decision : EqDecision Byte.byte :=
  Stdlib.Strings.Byte.byte_eq_dec.

(** A property of the machine a concrete run ends in, by evaluation. *)
Lemma holds_of_some {A} (P : A -> Prop) (o : option A) (x : A) :
  o = Some x -> from_option P False o -> P x.
Proof. intros -> H. exact H. Qed.

Lemma some_of_evaluation {A} (o : option A) :
  match o with Some _ => true | None => false end = true -> exists x, o = Some x.
Proof. destruct o as [x|]; [eauto|discriminate]. Qed.

Ltac by_evaluation H :=
  match type of H with
  | _ = Some ?m => pattern m; apply (holds_of_some _ _ _ H); vm_compute
  end.


Arguments generateCacheKey : simpl never.
Arguments DateFmt.toISOString : simpl never.
Arguments DateFmt.megabytes : simpl never.
Arguments testHtml : simpl never.

(** ** The cache key and the order of the fields *)

(** Two objects have the same fields with the same values. *)
Definition same_fields (o1 o2 : object) : Prop :=
  forall k, obj_get k o1 = obj_get k o2.

(** An object has each of its keys once. *)
Definition well_formed (o : object) : Prop := NoDup (map fst o).

Lemma obj_get_absent k (o : object) : k ∉ map fst o -> obj_get k o = None.
Proof.
  induction o as [|[k' v] o IH]; simpl; intros Hk; [reflexivity|].
  destruct (String.eqb_spec k k') as [->|Hne].
  - exfalso. apply Hk. left.
  - apply IH. intros Hin. apply Hk. right. exact Hin.
Qed.

Lemma same_fields_same_order (o1 o2 : object) :
  well_formed o1 -> same_fields o1 o2 -> map fst o1 = map fst o2 -> o1 = o2.
Proof.
  unfold well_formed, same_fields.
  revert o2. induction o1 as [|[k v] o1 IH]; intros [|[k' v'] o2] Hnd Hsame Hkeys;
    simpl in *; try discriminate; [reflexivity|].
  injection Hkeys as <- Hkeys.
  apply NoDup_cons in Hnd as [Hk Hnd].
  pose proof (Hsame k) as Hv. rewrite String.eqb_refl in Hv. injection Hv as <-.
  f_equal. apply IH; [exact Hnd| |exact Hkeys].
  intros j. pose proof (Hsame j) as Hj.
  destruct (String.eqb_spec j k) as [Heq|Hne]; [|exact Hj].
  rewrite Heq. rewrite !obj_get_absent; [reflexivity| |exact Hk].
  rewrite <- Hkeys. exact Hk.
Qed.

(** C2, as amended: options objects with the same fields, the same values
    and the same enumeration order of the fields get the same cache key for
    the same html. *)
Theorem generateCacheKey_same_order (html : string) (o1 o2 : object) :
  well_formed o1 -> same_fields o1 o2 -> map fst o1 = map fst o2 ->
  generateCacheKey html (JObj o1) = generateCacheKey html (JObj o2).
Proof.
  intros Hwf Hsame Hkeys.
  rewrite (same_fields_same_order o1 o2 Hwf Hsame Hkeys). reflexivity.
Qed.

Definition size_800x600 : object := [("width", JNum 800); ("height", JNum 600)].
Definition size_600x800_swapped : object := [("height", JNum 600); ("width", JNum 800)].

Lemma same_fields_swapped : same_fields size_800x600 size_600x800_swapped.
Proof.
  intros k. unfold size_800x600, size_600x800_swapped. simpl.
  destruct (String.eqb_spec k "width") as [->|]; [reflexivity|].
  destruct (String.eqb_spec k "height"); reflexivity.
Qed.

Lemma well_formed_800x600 : well_formed size_800x600.
Proof. unfold well_formed. apply (bool_decide_unpack _). vm_compute. exact I. Qed.

Lemma well_formed_600x800_swapped : well_formed size_600x800_swapped.
Proof. unfold well_formed. apply (bool_decide_unpack _). vm_compute. exact I. Qed.

Lemma generateCacheKey_same_order_witness :
  generateCacheKey "<h1>x</h1>" (JObj size_800x600)
  = generateCacheKey "<h1>x</h1>" (JObj size_800x600).
Proof.
  apply (generateCacheKey_same_order "<h1>x</h1>" size_800x600 size_800x600).
  - exact well_formed_800x600.
  - intros k. reflexivity.
  - reflexivity.
Defined.

(** C2 as stated fails: two objects with the same fields and values in a
    different order are serialized differently and get different keys. *)
Lemma generateCacheKey_field_order_counterexample :
  well_formed size_800x600 /\ well_formed size_600x800_swapped /\
  same_fields size_800x600 size_600x800_swapped /\
  JSON.stringify (JObj size_800x600) <> JSON.stringify (JObj size_600x800_swapped) /\
  generateCacheKey "<h1>x</h1>" (JObj size_800x600)
  <> generateCacheKey "<h1>x</h1>" (JObj size_600x800_swapped).
Proof.
  split; [exact well_formed_800x600|].
  split; [exact well_formed_600x800_swapped|].
  split; [exact same_fields_swapped|].
  split; vm_compute; discriminate.
Qed.

(** ** Symbolic evaluation of a segment *)

(** Comparisons whose outcome the context decides. *)
Ltac decide_tests :=
  repeat match goal with
  | |- context [Z.ltb ?a ?b] =>
      first [ replace (Z.ltb a b) with true by (symmetry; apply Z.ltb_lt; lia)
            | replace (Z.ltb a b) with false by (symmetry; apply Z.ltb_ge; lia) ]
  | |- context [Z.gtb ?a ?b] =>
      first [ replace (Z.gtb a b) with true by (symmetry; rewrite Z.gtb_ltb; apply Z.ltb_lt; lia)
            | replace (Z.gtb a b) with false by (symmetry; rewrite Z.gtb_ltb; apply Z.ltb_ge; lia) ]
  | |- context [Z.geb ?a ?b] =>
      first [ replace (Z.geb a b) with true by (symmetry; rewrite Z.geb_leb; apply Z.leb_le; lia)
            | replace (Z.geb a b) with false by (symmetry; rewrite Z.geb_leb; apply Z.leb_gt; lia) ]
  end.

(** Unfold the segment as far as the hypotheses [H] determine it. *)
Tactic Notation "segment" "using" constr(H) :=
  repeat (progress (simpl; rewrite ?H; decide_tests)).

Tactic Notation "segment" :=
  repeat (progress (simpl; decide_tests)).

(** ** The cache lookup and the TTL *)

Section Lookup.

Context (env : environment) (id : nat) (now : Z) (html : string) (options : object).

Abbreviation key := (generateCacheKey html (JObj options)).

(** An entry younger than the TTL is returned at once. *)
Lemma lookup_fresh (s : state) (e : CacheEntry) (evs : list event) :
  imageCache s !! key = Some e ->
  now - timestamp e < CACHE_TTL env ->
  exec id now (generateImageOptimized env html options) s evs
  = (s, evs, Finished (buffer e)).
Proof.
  intros He Hage. unfold generateImageOptimized.
  segment using He. rewrite !app_nil_r. reflexivity.
Qed.

(** An entry as old as the TTL or older is deleted and the page is rendered
    anew: the segment stops at the first call to Puppeteer. *)
Lemma lookup_stale (s : state) (e : CacheEntry) :
  imageCache s !! key = Some e ->
  CACHE_TTL env <= now - timestamp e ->
  exists X (c : call X) k,
    run id now (generateImageOptimized env html options) s
    = (with_imageCache (delete key (imageCache s)) s,
       [ECacheDelete key; ECall id c], Blocked c k).
Proof.
  intros He Hage. unfold run, generateImageOptimized, render.
  segment using He.
  destruct (browser s) eqn:Hb; segment using Hb; do 3 eexists; reflexivity.
Qed.

(** C5, as amended: an entry is served from the cache exactly when its age
    at the lookup is strictly below the TTL; at an age of the TTL or more
    the lookup is a miss, the entry is deleted in that lookup and the page
    is rendered. *)
Theorem cache_hit_iff_younger_than_ttl (s : state) (e : CacheEntry) :
  imageCache s !! key = Some e ->
  (now - timestamp e < CACHE_TTL env ->
     run id now (generateImageOptimized env html options) s
     = (s, [], Finished (buffer e)))
  /\ (CACHE_TTL env <= now - timestamp e ->
      exists X (c : call X) k,
        run id now (generateImageOptimized env html options) s
        = (with_imageCache (delete key (imageCache s)) s,
           [ECacheDelete key; ECall id c], Blocked c k)
        /\ imageCache (with_imageCache (delete key (imageCache s)) s) !! key = None).
Proof.
  intros He. split; intros Hage.
  - apply lookup_fresh; assumption.
  - destruct (lookup_stale s e He Hage) as (X & c & k & Hrun).
    exists X, c, k. split; [exact Hrun|]. simpl. apply lookup_delete_eq.
Qed.

End Lookup.

Lemma cache_hit_iff_younger_than_ttl_witness :
  run 7 1000 (generateImageOptimized default_env "<h1>x</h1>" []) one_image
  = (one_image, [], Finished [Byte.x89; Byte.x50]).
Proof.
  apply (cache_hit_iff_younger_than_ttl default_env 7 1000 "<h1>x</h1>" []
           one_image (Entry [Byte.x89; Byte.x50] 0)).
  - vm_compute. reflexivity.
  - vm_compute. reflexivity.
Defined.

(** C5 as stated fails at the boundary: an entry whose age is exactly the
    TTL (300000 ms by default) is not served; it is deleted and the page is
    rendered again. *)
Lemma cache_age_equal_ttl_counterexample :
  300000 - 0 = CACHE_TTL default_env /\
  imageCache one_image !! generateCacheKey "<h1>x</h1>" (JObj [])
    = Some (Entry [Byte.x89; Byte.x50] 0) /\
  exists s' evs X (c : call X) k,
    run 7 300000 (generateImageOptimized default_env "<h1>x</h1>" []) one_image
    = (s', evs, Blocked c k)
    /\ imageCache s' !! generateCacheKey "<h1>x</h1>" (JObj []) = None.
Proof.
  split; [reflexivity|]. split; [vm_compute; reflexivity|].
  destruct (lookup_stale default_env 7 300000 "<h1>x</h1>" [] one_image
              (Entry [Byte.x89; Byte.x50] 0)) as (X & c & k & Hrun).
  - vm_compute. reflexivity.
  - vm_compute. discriminate.
  - eexists _, _, X, c, k. split; [exact Hrun|]. simpl. apply lookup_delete_eq.
Qed.

(** ** The arrival of a request at [/html-to-image] *)

Arguments Str.length : simpl never.
Arguments Str.repeat : simpl never.
Arguments image_response : simpl never.
Arguments html_too_large : simpl never.
Arguments server_busy : simpl never.
Arguments fresh_res : simpl never.

Arguments Str.units : simpl never.

Lemma length_acc_plus (s : string) (acc : Z) :
  Str.length_acc s acc = acc + Str.length s.
Proof.
  unfold Str.length. revert acc.
  induction s as [|c s IH]; intros acc; simpl; [lia|].
  rewrite (IH (acc + Str.units c)), (IH (0 + Str.units c)). lia.
Qed.

Lemma length_String (c : ascii) (s : string) :
  Str.length (String c s) = Str.units c + Str.length s.
Proof. unfold Str.length at 1. simpl. apply length_acc_plus. Qed.

Lemma units_range (c : ascii) : 0 <= Str.units c <= 2.
Proof.
  unfold Str.units. cbv zeta.
  destruct (Z.leb 128 _ && Z.ltb _ 192); [lia|]. destruct (Z.leb 240 _); lia.
Qed.

Lemma length_nonneg (s : string) : 0 <= Str.length s.
Proof.
  induction s as [|c s IH]; [unfold Str.length; simpl; lia|].
  rewrite length_String. pose proof (units_range c). lia.
Qed.

Lemma length_repeat (c : ascii) (n : N) :
  Str.length (Str.repeat c n) = Str.units c * Z.of_N n.
Proof.
  unfold Str.repeat. induction n as [|n IH] using N.peano_ind;
    [unfold Str.length; simpl; lia|].
  rewrite N.iter_succ, length_String, IH. lia.
Qed.

Section Arrival.

Context (env : environment) (id : nat) (now : Z).

(** The throttling middleware answers before any route is looked at. *)
Lemma app_busy (req : request) (s : state) :
  MAX_CONCURRENT env <= activeRequests s ->
  path req = "/html-to-image" ->
  run id now (app env req) s = (s, [ESend id (server_busy fresh_res)], Finished tt).
Proof.
  intros Hn Hpath. unfold run, app, routes. rewrite Hpath. segment. reflexivity.
Qed.

(** Below the ceiling, a request served from the cache is answered within
    the segment of its arrival. *)
Lemma app_cache_hit (h : string) (o : option object) (s : state) (e : CacheEntry) :
  activeRequests s < MAX_CONCURRENT env ->
  h <> EmptyString ->
  Str.length h <= MAX_HTML_LENGTH ->
  imageCache s !! generateCacheKey h (JObj (default [] o)) = Some e ->
  now - timestamp e < CACHE_TTL env ->
  run id now (app env (Request "POST" "/html-to-image" (Some h) o)) s
  = (with_activeRequests (Z.max 0 (activeRequests s + 1 - 1)) s,
     [ EActiveRequests (activeRequests s + 1);
       ESend id (image_response (default [] o) (buffer e) (now - now) true fresh_res);
       EActiveRequests (Z.max 0 (activeRequests s + 1 - 1)) ],
     Finished tt).
Proof.
  intros Hn Hne Hlen He Hage. unfold MAX_HTML_LENGTH in Hlen.
  destruct h as [|c h]; [congruence|].
  unfold run, app, routes, post_html_to_image, generateImageOptimized, MAX_HTML_LENGTH.
  segment using He. reflexivity.
Qed.

(** Below the ceiling, an html above the size limit is answered with the
    413 within the segment of its arrival. *)
Lemma app_too_large (h : string) (o : option object) (s : state) :
  activeRequests s < MAX_CONCURRENT env ->
  MAX_HTML_LENGTH < Str.length h ->
  run id now (app env (Request "POST" "/html-to-image" (Some h) o)) s
  = (with_activeRequests (Z.max 0 (activeRequests s + 1 - 1)) s,
     [ EActiveRequests (activeRequests s + 1);
       ESend id (html_too_large h fresh_res);
       EActiveRequests (Z.max 0 (activeRequests s + 1 - 1)) ],
     Finished tt).
Proof.
  intros Hn Hlen. unfold MAX_HTML_LENGTH in Hlen.
  destruct h as [|c h]; [unfold Str.length in Hlen; simpl in Hlen; lia|].
  unfold run, app, routes, post_html_to_image, MAX_HTML_LENGTH.
  segment. reflexivity.
Qed.

End Arrival.

(** A turn of the event loop for a request, from the segment it runs. *)
Lemma step_incoming_finished env now req (m : machine) s' evs :
  exit_code (st m) = None ->
  accepting (lifecycle (st m)) = true ->
  run (next_id m) now (app env req) (st m) = (s', evs, Finished tt) ->
  step env now (Incoming req) m
  = Some (Machine s' (tasks m) (S (next_id m)) (history m ++ evs)).
Proof.
  intros Hexit Hready Hrun. unfold step, spawn. rewrite Hexit, Hready, Hrun. reflexivity.
Qed.

(** C1, as amended: a request whose key is in the cache and fresh is served
    from the cache within the turn of its arrival, without any call to
    Puppeteer, when it arrives below the ceiling; at or above the ceiling
    the throttling middleware, which runs before the cache is looked at,
    answers 429. *)
Theorem cache_hit_served_below_ceiling env now (m : machine)
    (h : string) (o : option object) (e : CacheEntry) :
  exit_code (st m) = None ->
  lifecycle (st m) = Ready ->
  h <> EmptyString ->
  Str.length h <= MAX_HTML_LENGTH ->
  imageCache (st m) !! generateCacheKey h (JObj (default [] o)) = Some e ->
  now - timestamp e < CACHE_TTL env ->
  let req := Request "POST" "/html-to-image" (Some h) o in
  let n := activeRequests (st m) in
  (n < MAX_CONCURRENT env ->
     step env now (Incoming req) m
     = Some (Machine (with_activeRequests (Z.max 0 (n + 1 - 1)) (st m)) (tasks m)
               (S (next_id m))
               (history m ++
                [ EActiveRequests (n + 1);
                  ESend (next_id m)
                    (image_response (default [] o) (buffer e) (now - now) true fresh_res);
                  EActiveRequests (Z.max 0 (n + 1 - 1)) ])))
  /\ (MAX_CONCURRENT env <= n ->
      step env now (Incoming req) m
      = Some (Machine (st m) (tasks m) (S (next_id m))
                (history m ++ [ESend (next_id m) (server_busy fresh_res)]))).
Proof.
  intros Hexit Hready Hne Hlen He Hage req n.
  assert (accepting (lifecycle (st m)) = true) as Hacc by (rewrite Hready; reflexivity).
  split; intros Hn.
  - apply step_incoming_finished; [assumption..|].
    apply app_cache_hit; assumption.
  - apply step_incoming_finished; [assumption..|].
    apply app_busy; [assumption|reflexivity].
Qed.

(** C1 as stated fails: after the image of [<h1>x</h1>] has been cached,
    five other requests are being rendered; the same request again, whose
    key is in the cache and fresh, is answered 429. *)
Lemma cache_hit_rejected_when_busy_counterexample :
  exists m,
    steps default_env (warm_up ++ five_in_flight) boot = Some m
    /\ imageCache (st m) !! generateCacheKey "<h1>x</h1>" (JObj [])
       = Some (Entry [Byte.x89; Byte.x50] 60)
    /\ 90 - 60 < CACHE_TTL default_env
    /\ activeRequests (st m) = MAX_CONCURRENT default_env
    /\ history <$> step default_env 90 (Incoming request_x) m
       = Some (history m ++ [ESend 7 (server_busy fresh_res)])%list
    /\ statusCode (server_busy fresh_res) = 429.
Proof.
  destruct (some_of_evaluation (steps default_env (warm_up ++ five_in_flight) boot))
    as [m Hm]; [vm_compute; reflexivity|].
  exists m. split; [exact Hm|].
  split; [by_evaluation Hm; reflexivity|].
  split; [vm_compute; reflexivity|].
  split; [by_evaluation Hm; reflexivity|].
  split; [by_evaluation Hm; reflexivity|].
  reflexivity.
Qed.

Lemma cache_hit_served_below_ceiling_witness :
  exists m,
    steps default_env warm_up boot = Some m
    /\ step default_env 90 (Incoming request_x) m
       = Some (Machine (with_activeRequests (Z.max 0 (activeRequests (st m) + 1 - 1)) (st m))
                 (tasks m) (S (next_id m))
                 (history m ++
                  [ EActiveRequests (activeRequests (st m) + 1);
                    ESend (next_id m)
                      (image_response [] [Byte.x89; Byte.x50] (90 - 90) true fresh_res);
                    EActiveRequests (Z.max 0 (activeRequests (st m) + 1 - 1)) ])).
Proof.
  destruct (some_of_evaluation (steps default_env warm_up boot))
    as [m Hm]; [vm_compute; reflexivity|].
  exists m. split; [exact Hm|].
  apply (cache_hit_served_below_ceiling default_env 90 m "<h1>x</h1>" None
           (Entry [Byte.x89; Byte.x50] 60)).
  - by_evaluation Hm. reflexivity.
  - by_evaluation Hm. reflexivity.
  - discriminate.
  - vm_compute. discriminate.
  - by_evaluation Hm. reflexivity.
  - vm_compute. reflexivity.
  - by_evaluation Hm. reflexivity.
Defined.

Lemma byteLength_repeat (c : ascii) (n : N) :
  Str.byteLength (Str.repeat c n) = Z.of_N n.
Proof.
  unfold Str.byteLength, Str.repeat.
  induction n as [|n IH] using N.peano_ind; [reflexivity|].
  rewrite N.iter_succ. cbn [String.length]. lia.
Qed.

(** C3, as amended: a request to [/html-to-image] whose html is longer than
    the limit of 10 MB is never rendered.  If its body is over the limit of
    the body parser, the parser rejects it with 413 before the throttling
    middleware and the counter.  Otherwise, at or above the ceiling the
    throttling middleware answers 429; below the ceiling the route answers
    413 within the turn of the arrival, after the counter was incremented,
    and the counter is decremented again in that turn; neither the cache
    nor Puppeteer is touched. *)
Theorem oversized_html_rejected env now (m : machine) (h : string) (o : option object) :
  exit_code (st m) = None ->
  accepting (lifecycle (st m)) = true ->
  MAX_HTML_LENGTH < Str.length h ->
  Str.byteLength h <= BODY_LIMIT ->
  let req := Request "POST" "/html-to-image" (Some h) o in
  let n := activeRequests (st m) in
  (n < MAX_CONCURRENT env ->
     step env now (Incoming req) m
     = Some (Machine (with_activeRequests (Z.max 0 (n + 1 - 1)) (st m)) (tasks m)
               (S (next_id m))
               (history m ++
                [ EActiveRequests (n + 1);
                  ESend (next_id m) (html_too_large h fresh_res);
                  EActiveRequests (Z.max 0 (n + 1 - 1)) ])))
  /\ (MAX_CONCURRENT env <= n ->
      step env now (Incoming req) m
      = Some (Machine (st m) (tasks m) (S (next_id m))
                (history m ++ [ESend (next_id m) (server_busy fresh_res)])))
  /\ step env now (BadBody PayloadTooLarge) m
     = Some (Machine (st m) (tasks m) (S (next_id m))
               (history m ++ [ESend (next_id m) (bad_body_response PayloadTooLarge)]))
  /\ statusCode (html_too_large h fresh_res) = 413
  /\ statusCode (server_busy fresh_res) = 429
  /\ statusCode (bad_body_response PayloadTooLarge) = 413.
Proof.
  intros Hexit Hready Hlen _ req n. split; [|split; [|split]].
  - intros Hn. apply step_incoming_finished; [assumption..|].
    apply app_too_large; assumption.
  - intros Hn. apply step_incoming_finished; [assumption..|].
    apply app_busy; [assumption|reflexivity].
  - unfold step. rewrite Hexit, Hready. reflexivity.
  - repeat split.
Qed.

(** An html of 10 MB and one character. *)
Definition oversized : string := Str.repeat "a" 10485761.

Lemma oversized_length : MAX_HTML_LENGTH < Str.length oversized.
Proof. unfold oversized. rewrite length_repeat. reflexivity. Qed.

Lemma oversized_bytes : Str.byteLength oversized <= BODY_LIMIT.
Proof. unfold oversized. rewrite byteLength_repeat. vm_compute. discriminate. Qed.

Opaque oversized.

Lemma oversized_html_rejected_witness :
  exists m,
    steps default_env warm_up boot = Some m
    /\ activeRequests (st m) < MAX_CONCURRENT default_env
    /\ step default_env 90 (Incoming (Request "POST" "/html-to-image" (Some oversized) None)) m
       = Some (Machine (with_activeRequests (Z.max 0 (activeRequests (st m) + 1 - 1)) (st m))
                 (tasks m) (S (next_id m))
                 (history m ++
                  [ EActiveRequests (activeRequests (st m) + 1);
                    ESend (next_id m) (html_too_large oversized fresh_res);
                    EActiveRequests (Z.max 0 (activeRequests (st m) + 1 - 1)) ])).
Proof.
  destruct (some_of_evaluation (steps default_env warm_up boot))
    as [m Hm]; [vm_compute; reflexivity|].
  assert (activeRequests (st m) < MAX_CONCURRENT default_env) as Hn
    by (by_evaluation Hm; reflexivity).
  exists m. split; [exact Hm|]. split; [exact Hn|].
  apply (oversized_html_rejected default_env 90 m oversized None).
  - by_evaluation Hm. reflexivity.
  - by_evaluation Hm. reflexivity.
  - exact oversized_length.
  - exact oversized_bytes.
  - exact Hn.
Defined.

(** C3 as stated fails twice over: with five requests being rendered the
    oversized request is answered 429, not 413; and when it is answered 413
    the counter has been incremented (and decremented) for it. *)
Lemma oversized_html_counterexample :
  MAX_HTML_LENGTH < Str.length oversized /\
  (exists m,
     steps default_env (warm_up ++ five_in_flight) boot = Some m
     /\ history <$> step default_env 90
          (Incoming (Request "POST" "/html-to-image" (Some oversized) None)) m
        = Some (history m ++ [ESend 7 (server_busy fresh_res)])%list
     /\ statusCode (server_busy fresh_res) = 429) /\
  (exists m,
     steps default_env warm_up boot = Some m
     /\ history <$> step default_env 90
          (Incoming (Request "POST" "/html-to-image" (Some oversized) None)) m
        = Some (history m ++
                [ EActiveRequests 1;
                  ESend 2 (html_too_large oversized fresh_res);
                  EActiveRequests 0 ])%list).
Proof.
  split; [exact oversized_length|]. split.
  - destruct (some_of_evaluation (steps default_env (warm_up ++ five_in_flight) boot))
      as [m Hm]; [vm_compute; reflexivity|].
    exists m. split; [exact Hm|]. split; [|reflexivity].
    assert (next_id m = 7%nat) as Hid by (by_evaluation Hm; reflexivity).
    rewrite <- Hid.
    rewrite (step_incoming_finished default_env 90 _ m (st m)
               [ESend (next_id m) (server_busy fresh_res)]).
    + reflexivity.
    + by_evaluation Hm. reflexivity.
    + by_evaluation Hm. reflexivity.
    + apply app_busy; [|reflexivity]. by_evaluation Hm. discriminate.
  - destruct (some_of_evaluation (steps default_env warm_up boot))
      as [m Hm]; [vm_compute; reflexivity|].
    exists m. split; [exact Hm|].
    assert (next_id m = 2%nat) as Hid by (by_evaluation Hm; reflexivity).
    assert (activeRequests (st m) = 0) as Hn by (by_evaluation Hm; reflexivity).
    pose proof (app_too_large default_env (next_id m) 90 oversized None (st m)) as Hrun.
    rewrite Hn in Hrun. change (Z.max 0 (0 + 1 - 1)) with 0 in Hrun.
    change (0 + 1) with 1 in Hrun. rewrite Hid in Hrun.
    rewrite (step_incoming_finished default_env 90 _ m _ _
               ltac:(by_evaluation Hm; reflexivity)
               ltac:(by_evaluation Hm; reflexivity)
               ltac:(rewrite Hid; apply Hrun; [vm_compute; reflexivity|exact oversized_length])).
    reflexivity.
Qed.

(** ** The counter of active requests *)

(** [slot h t s c]: task [t], started in state [s], leaves the counter at
    [c] if it ends in this segment; if it suspends, the counter is [c + h],
    and whenever it is resumed with the counter at some [n >= h] it again
    either ends with the counter at [n - h] or suspends with the counter at
    [n].  A task with [h = 1] holds one slot of the counter while it is
    suspended; a task with [h = 0] holds none. *)
Fixpoint slot {R} (h : Z) (t : Task R) (s : state) (c : Z) : Prop :=
  match t with
  | Ret _ | Throw _ | Exit _ => activeRequests s = c
  | Do o k =>
      forall now, slot h (k (snd (exec_op now o s))) (fst (exec_op now o s)) c
  | Await _ k =>
      activeRequests s = c + h /\
      forall v s', h <= activeRequests s' -> slot h (k v) s' (activeRequests s' - h)
  end.

Definition resumable {R X} (h : Z) (k : X + Error -> Task R) : Prop :=
  forall v s, h <= activeRequests s -> slot h (k v) s (activeRequests s - h).

Lemma exec_slot {R} (h : Z) (t : Task R) :
  forall s c id now evs, slot h t s c ->
  match exec id now t s evs with
  | (s', _, Blocked _ k) => activeRequests s' = c + h /\ resumable h k
  | (s', _, _) => activeRequests s' = c
  end.
Proof.
  induction t as [r|e|code|X o k IH|X c0 k IH]; intros s c id now evs Hslot; simpl in *.
  - exact Hslot.
  - exact Hslot.
  - exact Hslot.
  - apply IH. apply Hslot.
  - exact Hslot.
Qed.

Ltac slot_step :=
  match goal with
  | |- forall _, _ => intro
  | |- _ /\ _ => split
  | |- resumable _ _ => unfold resumable
  | |- @eq Z _ _ => simpl in *; lia
  | |- slot _ ?t _ _ =>
      match t with
      | context [match ?x with _ => _ end] => destruct x
      | context [if ?x then _ else _] => destruct x
      end
  | |- slot _ _ _ _ => progress simpl
  end.

Ltac slot_tac := repeat slot_step.

Section Slots.

Context (env : environment).

Lemma slot_on_listening (s : state) :
  slot 0 (on_listening env) s (activeRequests s).
Proof.
  unfold on_listening, initBrowser. simpl. slot_tac.
Qed.

Lemma slot_on_signal sig (s : state) : slot 0 (on_signal sig) s (activeRequests s).
Proof. unfold on_signal. simpl. slot_tac. Qed.

Lemma slot_on_server_closed (s : state) :
  slot 0 on_server_closed s (activeRequests s).
Proof. unfold on_server_closed. simpl. slot_tac. Qed.

Lemma slot_on_bad_body e (s : state) : slot 1 (on_bad_body e) s (activeRequests s).
Proof. unfold on_bad_body. simpl. slot_tac. Qed.

Lemma slot_app (req : request) (s : state) :
  0 <= activeRequests s -> slot 1 (app env req) s (activeRequests s).
Proof.
  intros Hn.
  unfold app, routes, get_root, post_cache_clear, post_html_to_image, get_test_image,
    generateImageOptimized, render, initBrowser, enter, leave.
  simpl. slot_tac.
Qed.

Lemma slot_sweep (now : Z) (l : list (string * CacheEntry)) :
  forall s c, activeRequests s = c ->
  slot 0
    (for_each l (fun kd =>
       if Z.gtb (now - timestamp (snd kd)) (CACHE_TTL env)
       then perform (ImageCacheDelete (fst kd))
       else Ret tt))
    s c.
Proof.
  induction l as [|kd l IH]; intros s c Hc; simpl; [exact Hc|].
  destruct (Z.gtb (now - timestamp (snd kd)) (CACHE_TTL env)); simpl.
  - intros _. apply IH. exact Hc.
  - apply IH. exact Hc.
Qed.

Lemma slot_cleanupCache (s : state) : slot 0 (cleanupCache env) s (activeRequests s).
Proof.
  unfold cleanupCache. simpl. intros now _. apply slot_sweep. reflexivity.
Qed.

End Slots.

(** The slots held by the suspended tasks. *)
Definition holds (src : input) : Z :=
  match src with
  | Incoming _ | BadBody _ => 1
  | _ => 0
  end.

Definition flying (ts : list (nat * suspended)) : Z :=
  Z.of_nat (List.length (List.filter is_request ts)).

Definition task_ok (t : nat * suspended) : Prop :=
  match t with
  | (_, Suspended src _ k) => resumable (holds src) k
  end.

(** The invariant of the event loop: the counter is [base] plus one for
    each request being rendered. *)
Definition counted (base : Z) (m : machine) : Prop :=
  Forall task_ok (tasks m) /\ activeRequests (st m) = base + in_flight m.

Lemma in_flight_flying (m : machine) : in_flight m = flying (tasks m).
Proof. reflexivity. Qed.

Lemma flying_nonneg ts : 0 <= flying ts.
Proof. unfold flying. lia. Qed.

Lemma holds_range src : 0 <= holds src <= 1.
Proof. destruct src; simpl; lia. Qed.

Lemma flying_cons id src X (c : call X) k ts :
  flying ((id, Suspended src c k) :: ts) = holds src + flying ts.
Proof.
  unfold flying. simpl. destruct src; simpl; lia.
Qed.

Lemma flying_snoc id src X (c : call X) k ts :
  flying (ts ++ [(id, Suspended src c k)]) = flying ts + holds src.
Proof.
  induction ts as [|[id' [src' X' c' k']] ts IH].
  - simpl. rewrite flying_cons. unfold flying. simpl. lia.
  - change (((id', Suspended src' c' k') :: ts) ++ [(id, Suspended src c k)])%list
      with ((id', Suspended src' c' k') :: (ts ++ [(id, Suspended src c k)]))%list.
    rewrite !flying_cons, IH. lia.
Qed.

Lemma take_task_flying id ts src X (c : call X) k rest :
  take_task id ts = Some (Suspended src c k, rest) ->
  flying ts = holds src + flying rest
  /\ (Forall task_ok ts -> resumable (holds src) k /\ Forall task_ok rest).
Proof.
  revert rest. induction ts as [|[id' t'] ts IH]; intros rest Htake; simpl in Htake;
    [discriminate|].
  destruct (Nat.eqb id id').
  - injection Htake as -> <-. rewrite flying_cons. split; [reflexivity|].
    intros Hall. apply Forall_cons in Hall as [Hok Hall]. split; assumption.
  - destruct (take_task id ts) as [[t'' rest'']|]; [|discriminate].
    injection Htake as -> <-. destruct (IH rest'' eq_refl) as [Hfly Hok].
    destruct t' as [src' X' c' k']. rewrite !flying_cons. split; [lia|].
    intros Hall. apply Forall_cons in Hall as [Hok' Hall].
    destruct (Hok Hall) as [Hk Hrest]. split; [exact Hk|].
    apply Forall_cons. split; assumption.
Qed.

(** A segment of a task that respects its slot keeps the invariant. *)
Lemma settle_segment_counted base id src ts next h now t s evs :
  Forall task_ok ts ->
  slot (holds src) t s (base + flying ts) ->
  counted base (settle_segment id src ts next h (exec id now t s evs)).
Proof.
  intros Hall Hslot.
  pose proof (exec_slot (holds src) t s _ id now evs Hslot) as Hexec.
  unfold settle_segment, counted.
  destruct (exec id now t s evs) as [[s' evs'] [r|e| |X c k]]; simpl.
  - split; [exact Hall|]. rewrite in_flight_flying. simpl. exact Hexec.
  - split; [exact Hall|]. rewrite in_flight_flying. simpl. exact Hexec.
  - split; [exact Hall|]. rewrite in_flight_flying. simpl. exact Hexec.
  - destruct Hexec as [Hc Hk]. split.
    + apply Forall_app. split; [exact Hall|]. apply Forall_cons. split; [exact Hk|constructor].
    + rewrite in_flight_flying. simpl. rewrite flying_snoc. lia.
Qed.

Lemma spawn_counted base now src t s (m : machine) :
  counted base m ->
  activeRequests s = activeRequests (st m) ->
  slot (holds src) t s (activeRequests s) ->
  counted base (spawn now src t s m).
Proof.
  intros [Hall Hc] Hs Hslot. unfold spawn, run.
  apply settle_segment_counted; [exact Hall|].
  rewrite <- in_flight_flying, <- Hc, <- Hs. exact Hslot.
Qed.

Lemma step_counted env base now i (m m' : machine) :
  0 <= base -> counted base m -> step env now i m = Some m' -> counted base m'.
Proof.
  intros Hbase Hinv Hstep. pose proof Hinv as [Hall Hc].
  assert (0 <= activeRequests (st m)) as Hpos
    by (rewrite Hc, in_flight_flying; pose proof (flying_nonneg (tasks m)); lia).
  unfold step in Hstep.
  destruct (exit_code (st m)); [discriminate|].
  destruct i as [|req|id o| |sig| |e].
  - destruct (lifecycle (st m)); try discriminate. injection Hstep as <-.
    apply spawn_counted; [exact Hinv|reflexivity|apply slot_on_listening].
  - destruct (accepting (lifecycle (st m))); [|discriminate]. injection Hstep as <-.
    apply spawn_counted; [exact Hinv|reflexivity|apply slot_app; exact Hpos].
  - destruct (take_task id (tasks m)) as [[[src X c k] rest]|] eqn:Htake; [|discriminate].
    destruct (coerce c o) as [v|]; [|discriminate]. injection Hstep as <-.
    destruct (take_task_flying _ _ _ _ _ _ _ Htake) as [Hfly Hok].
    destruct (Hok Hall) as [Hk Hrest].
    apply settle_segment_counted; [exact Hrest|].
    pose proof (holds_range src). pose proof (flying_nonneg rest).
    replace (base + flying rest) with (activeRequests (st m) - holds src)
      by (rewrite Hc, in_flight_flying, Hfly; lia).
    apply Hk. rewrite Hc, in_flight_flying, Hfly. lia.
  - injection Hstep as <-.
    apply spawn_counted; [exact Hinv|reflexivity|apply slot_cleanupCache].
  - injection Hstep as <-.
    apply spawn_counted; [exact Hinv|reflexivity|apply slot_on_signal].
  - destruct (close_callbacks (st m)); [discriminate|]. injection Hstep as <-.
    apply spawn_counted; [exact Hinv|reflexivity|apply slot_on_server_closed].
  - destruct (accepting (lifecycle (st m))); [|discriminate]. injection Hstep as <-.
    apply spawn_counted; [exact Hinv|reflexivity|apply slot_on_bad_body].
Qed.

Lemma steps_counted env base l :
  forall m m', 0 <= base -> counted base m -> steps env l m = Some m' -> counted base m'.
Proof.
  induction l as [|[now i] l IH]; intros m m' Hbase Hinv Hsteps; simpl in Hsteps.
  - injection Hsteps as <-. exact Hinv.
  - destruct (step env now i m) as [m1|] eqn:Hstep; [|discriminate].
    apply (IH m1 m' Hbase); [|exact Hsteps].
    apply (step_counted env base now i m m1 Hbase Hinv Hstep).
Qed.

(** C4: from any state without a suspended task and with a counter that is
    not negative, after any inputs to the event loop (requests to any route,
    settlements of any promise as success or failure, timers, signals) the
    counter is its starting value plus the number of requests still being
    rendered: it is never negative, and once every request has been answered
    it is back at its starting value. *)
Theorem activeRequests_balanced env (m0 m : machine) (l : list (Z * input)) :
  tasks m0 = [] ->
  0 <= activeRequests (st m0) ->
  steps env l m0 = Some m ->
  activeRequests (st m) = activeRequests (st m0) + in_flight m
  /\ 0 <= activeRequests (st m)
  /\ (in_flight m = 0 -> activeRequests (st m) = activeRequests (st m0)).
Proof.
  intros Hquiet Hpos Hsteps.
  assert (counted (activeRequests (st m0)) m0) as Hinv.
  { split; [rewrite Hquiet; constructor|].
    rewrite in_flight_flying, Hquiet. unfold flying. simpl. lia. }
  destruct (steps_counted env _ l m0 m Hpos Hinv Hsteps) as [_ Hc].
  pose proof (flying_nonneg (tasks m)) as Hfly. rewrite <- in_flight_flying in Hfly.
  repeat split; lia.
Qed.

(** A run with a rendered request, a request without html, and a request
    whose page cannot be opened. *)
Definition mixed_run : list (Z * input) :=
  (warm_up ++
   [ (80, Incoming (Request "POST" "/html-to-image" None None));
     (90, Incoming (Request "POST" "/html-to-image" (Some "<p>a</p>") None));
     (100, Settle 3 (SReject "Protocol error")) ])%list.

Lemma activeRequests_balanced_witness :
  exists m,
    steps default_env mixed_run boot = Some m
    /\ map (fun r => statusCode (snd r)) (responses (history m)) = [200; 400; 500]
    /\ activeRequests (st m) = activeRequests (st boot) + in_flight m
    /\ 0 <= activeRequests (st m)
    /\ (in_flight m = 0 -> activeRequests (st m) = activeRequests (st boot)).
Proof.
  destruct (some_of_evaluation (steps default_env mixed_run boot)) as [m Hm];
    [vm_compute; reflexivity|].
  exists m. split; [exact Hm|]. split; [by_evaluation Hm; reflexivity|].
  apply (activeRequests_balanced default_env boot m mixed_run).
  - reflexivity.
  - simpl. lia.
  - exact Hm.
Defined.

(** ** The browser *)

Section Browser.

Context (env : environment).

(** With a browser stored, [initBrowser] returns it and launches nothing. *)
Lemma initBrowser_reuses id now (s : state) (b : Browser) :
  browser s = Some b ->
  run id now (initBrowser env) s = (s, [], Finished (Some b)).
Proof.
  intros Hb. unfold run, initBrowser. segment using Hb. reflexivity.
Qed.

(** Without one, it launches with the full options; a failure is followed
    by one launch with the retry options, whose failure is thrown. *)
Lemma initBrowser_launches id now (s : state) :
  browser s = None ->
  exists k1,
    run id now (initBrowser env) s
    = (s, [ECall id (Launch (first_launchOptions env))],
       Blocked (Launch (first_launchOptions env)) k1)
    /\ (forall id1 now1 s1 b,
          exec id1 now1 (k1 (inl b)) s1 []
          = (with_browser (Some b) s1, [EBrowser b], Finished (Some b)))
    /\ (forall e, exists k2,
          (forall id1 now1 s1,
             exec id1 now1 (k1 (inr e)) s1 []
             = (s1, [ECall id1 (Launch (retry_launchOptions env))],
                Blocked (Launch (retry_launchOptions env)) k2))
          /\ (forall id2 now2 s2 b,
                exec id2 now2 (k2 (inl b)) s2 []
                = (with_browser (Some b) s2, [EBrowser b], Finished (Some b)))
          /\ (forall id2 now2 s2 e2,
                exec id2 now2 (k2 (inr e2)) s2 [] = (s2, [], Failed e2))).
Proof.
  intros Hb. unfold run, initBrowser. segment using Hb.
  eexists. split; [reflexivity|]. split.
  - intros. reflexivity.
  - intros e. eexists. split; [intros; reflexivity|]. split; intros; reflexivity.
Qed.

(** C6, as amended: without a stored browser [initBrowser] launches with
    the full flag set; if that launch fails it launches exactly once more,
    with the five minimal flags and no executable path; if the retry fails
    its error is thrown and nothing is stored; a launch that succeeds stores
    its browser and returns it.  While a browser is stored, a call returns
    it without launching. *)
Theorem initBrowser_retry_and_reuse id now (s : state) :
  args (retry_launchOptions env) = minimal_args
  /\ executablePath (retry_launchOptions env) = None
  /\ (browser s = None ->
      exists k1,
        run id now (initBrowser env) s
        = (s, [ECall id (Launch (first_launchOptions env))],
           Blocked (Launch (first_launchOptions env)) k1)
        /\ (forall id1 now1 s1 b,
              exec id1 now1 (k1 (inl b)) s1 []
              = (with_browser (Some b) s1, [EBrowser b], Finished (Some b)))
        /\ (forall e, exists k2,
              (forall id1 now1 s1,
                 exec id1 now1 (k1 (inr e)) s1 []
                 = (s1, [ECall id1 (Launch (retry_launchOptions env))],
                    Blocked (Launch (retry_launchOptions env)) k2))
              /\ (forall id2 now2 s2 b,
                    exec id2 now2 (k2 (inl b)) s2 []
                    = (with_browser (Some b) s2, [EBrowser b], Finished (Some b)))
              /\ (forall id2 now2 s2 e2,
                    exec id2 now2 (k2 (inr e2)) s2 [] = (s2, [], Failed e2))))
  /\ (forall b, browser s = Some b ->
      run id now (initBrowser env) s = (s, [], Finished (Some b))).
Proof.
  split; [reflexivity|]. split; [reflexivity|]. split.
  - apply initBrowser_launches.
  - intros b. apply initBrowser_reuses.
Qed.

End Browser.

(** Two launches in flight: the callback of [app.listen] and the first
    request both find no browser. *)
Definition two_launches : list (Z * input) :=
  [ (0, Listening); (5, Incoming request_x); (10, Settle 0 (SBrowser 1)) ].

(** C6 as stated fails: once browser 1 is stored, a call of [initBrowser]
    returns it; when the launch of the request, begun earlier, completes, it
    stores browser 2, and a later call returns browser 2. *)
Lemma initBrowser_handle_replaced_counterexample :
  exists m1 m2,
    steps default_env two_launches boot = Some m1
    /\ browser (st m1) = Some 1%nat
    /\ run 8 15 (initBrowser default_env) (st m1) = (st m1, [], Finished (Some 1%nat))
    /\ steps default_env (two_launches ++ [(20, Settle 1 (SBrowser 2))]) boot = Some m2
    /\ run 9 30 (initBrowser default_env) (st m2) = (st m2, [], Finished (Some 2%nat)).
Proof.
  destruct (some_of_evaluation (steps default_env two_launches boot)) as [m1 Hm1];
    [vm_compute; reflexivity|].
  destruct (some_of_evaluation
              (steps default_env (two_launches ++ [(20, Settle 1 (SBrowser 2))]) boot))
    as [m2 Hm2]; [vm_compute; reflexivity|].
  exists m1, m2.
  assert (browser (st m1) = Some 1%nat) as Hb1 by (by_evaluation Hm1; reflexivity).
  assert (browser (st m2) = Some 2%nat) as Hb2 by (by_evaluation Hm2; reflexivity).
  split; [exact Hm1|]. split; [exact Hb1|].
  split; [apply initBrowser_reuses; exact Hb1|].
  split; [exact Hm2|]. apply initBrowser_reuses; exact Hb2.
Qed.

(** ** Task identities *)

(** Every suspended task was started before the next identity. *)
Definition fresh_ids (m : machine) : Prop :=
  Forall (fun t => (fst t < next_id m)%nat) (tasks m).

Lemma take_task_sub id ts t rest (n : nat) :
  take_task id ts = Some (t, rest) ->
  Forall (fun t => (fst t < n)%nat) ts ->
  (id < n)%nat /\ Forall (fun t => (fst t < n)%nat) rest.
Proof.
  revert rest. induction ts as [|[id' t'] ts IH]; intros rest Htake Hall;
    simpl in Htake; [discriminate|].
  apply Forall_cons in Hall as [Hid Hall]. simpl in Hid.
  destruct (Nat.eqb_spec id id') as [->|Hne].
  - injection Htake as _ <-. split; assumption.
  - destruct (take_task id ts) as [[t'' rest'']|]; [|discriminate].
    injection Htake as -> <-. destruct (IH rest'' eq_refl Hall) as [Hlt Hrest].
    split; [exact Hlt|]. apply Forall_cons. split; assumption.
Qed.

Lemma take_task_last id t ts :
  Forall (fun t => (fst t < id)%nat) ts ->
  take_task id (ts ++ [(id, t)]) = Some (t, ts).
Proof.
  induction ts as [|[id' t'] ts IH]; intros Hall; simpl.
  - rewrite Nat.eqb_refl. reflexivity.
  - apply Forall_cons in Hall as [Hid Hall]. simpl in Hid.
    destruct (Nat.eqb_spec id id') as [->|Hne]; [lia|].
    rewrite (IH Hall). reflexivity.
Qed.

Lemma settle_segment_fresh id src ts next h r :
  (id < next)%nat ->
  Forall (fun t => (fst t < next)%nat) ts ->
  fresh_ids (settle_segment id src ts next h r).
Proof.
  intros Hid Hall. unfold fresh_ids, settle_segment.
  destruct r as [[s evs] [r|e| |X c k]]; simpl; try exact Hall.
  apply Forall_app. split; [exact Hall|]. apply Forall_cons. split; [exact Hid|constructor].
Qed.

Lemma spawn_fresh now src t s (m : machine) : fresh_ids m -> fresh_ids (spawn now src t s m).
Proof.
  intros Hall. unfold spawn. apply settle_segment_fresh; [lia|].
  eapply Forall_impl; [exact Hall|]. simpl. intros; lia.
Qed.

Lemma step_fresh env now i (m m' : machine) :
  fresh_ids m -> step env now i m = Some m' -> fresh_ids m'.
Proof.
  intros Hall Hstep. unfold step in Hstep.
  destruct (exit_code (st m)); [discriminate|].
  destruct i as [|req|id o| |sig| |e].
  - destruct (lifecycle (st m)); try discriminate. injection Hstep as <-.
    apply spawn_fresh, Hall.
  - destruct (accepting (lifecycle (st m))); [|discriminate]. injection Hstep as <-.
    apply spawn_fresh, Hall.
  - destruct (take_task id (tasks m)) as [[[src X c k] rest]|] eqn:Htake; [|discriminate].
    destruct (coerce c o) as [v|]; [|discriminate]. injection Hstep as <-.
    destruct (take_task_sub _ _ _ _ _ Htake Hall) as [Hid Hrest].
    apply settle_segment_fresh; assumption.
  - injection Hstep as <-. apply spawn_fresh, Hall.
  - injection Hstep as <-. apply spawn_fresh, Hall.
  - destruct (close_callbacks (st m)); [discriminate|]. injection Hstep as <-.
    apply (spawn_fresh now ServerClosed on_server_closed _ m Hall).
  - destruct (accepting (lifecycle (st m))); [|discriminate]. injection Hstep as <-.
    apply spawn_fresh, Hall.
Qed.

Lemma steps_fresh env l :
  forall m m', fresh_ids m -> steps env l m = Some m' -> fresh_ids m'.
Proof.
  induction l as [|[now i] l IH]; intros m m' Hall Hsteps; simpl in Hsteps.
  - injection Hsteps as <-. exact Hall.
  - destruct (step env now i m) as [m1|] eqn:Hstep; [|discriminate].
    apply (IH m1 m'); [|exact Hsteps]. apply (step_fresh env now i m m1 Hall Hstep).
Qed.

Lemma boot_fresh : fresh_ids boot.
Proof. constructor. Qed.

(** ** Shutdown *)









Lemma take_task_Forall (P : nat * suspended -> Prop) id ts t rest :
  take_task id ts = Some (t, rest) ->
  Forall P ts -> P (id, t) /\ Forall P rest.
Proof.
  revert rest. induction ts as [|[id' t'] ts IH]; intros rest Htake Hall;
    simpl in Htake; [discriminate|].
  apply Forall_cons in Hall as [Ht Hall].
  destruct (Nat.eqb_spec id id') as [Heq|Hne].
  - injection Htake as -> <-. rewrite Heq. split; assumption.
  - destruct (take_task id ts) as [[t'' rest'']|]; [|discriminate].
    injection Htake as -> <-. destruct (IH rest'' eq_refl Hall) as [Hk Hrest].
    split; [exact Hk|]. apply Forall_cons. split; assumption.
Qed.







(** A shutdown that ends with code 0: a browser is stored and
    [browser.close()] fulfils. *)
Example shutdown_with_browser :
  (fun m => (imageCache (st m), exit_code (st m), skipn 11 (history m)))
    <$> steps default_env
          (warm_up ++ [ (100, Signal SIGTERM); (110, ServerClosed); (120, Settle 3 SUnit) ])
          boot
  = Some (∅, Some 0, [EServerClose; ECacheClear; ECall 3 (BrowserClose 1); EExit 0]).
Proof. vm_compute. reflexivity. Qed.


(** The shutdown of a server that never had a browser: the launch at
    startup failed twice. *)
Example shutdown_without_browser :
  (fun m => (browser (st m), imageCache (st m), exit_code (st m), history m))
    <$> steps default_env
          [ (0, Listening); (10, Settle 0 (SReject "no chrome"));
            (20, Settle 0 (SReject "no chrome")); (30, Signal SIGINT);
            (40, ServerClosed) ] boot
  = Some (None, ∅, Some 0,
          [ ECall 0 (Launch (first_launchOptions default_env));
            ECall 0 (Launch (retry_launchOptions default_env));
            EServerClose; ECacheClear; EExit 0 ]).
Proof. vm_compute. reflexivity. Qed.

(** ** A task among others *)





Lemma getHeader_setHeader name value res :
  getHeader name (setHeader name value res) = Some value.
Proof.
  unfold getHeader, setHeader. simpl. rewrite rev_app_distr. simpl.
  rewrite String.eqb_refl. reflexivity.
Qed.

Lemma image_response_cache_status o b t has res :
  getHeader "X-Cache-Status" (image_response o b t has res)
  = Some (if has then "HIT" else "MISS").
Proof.
  unfold image_response, send_buffer, getHeader. simpl. rewrite rev_app_distr. reflexivity.
Qed.

Lemma image_response_status o b t has res :
  statusCode (image_response o b t has res) = statusCode res.
Proof. reflexivity. Qed.

Lemma image_response_body o b t has res : body (image_response o b t has res) = Image b.
Proof. reflexivity. Qed.

(** ** The cache, by the events of a run *)

Definition cache_after (c : gmap string CacheEntry) (e : event) : gmap string CacheEntry :=
  match e with
  | ECacheSet k d => <[k := d]> c
  | ECacheDelete k => delete k c
  | ECacheClear => ∅
  | _ => c
  end.

(** The cache after the events of a run from the start. *)
Definition cache_of (evs : list event) : gmap string CacheEntry :=
  fold_left cache_after evs ∅.

(** The event takes the entry of [key] out of the cache: a clear (of
    [/cache-clear] or of the shutdown), or a delete of that key (by the
    sweep, or by a lookup that finds the entry expired). *)
Definition removes (key : string) (e : event) : Prop :=
  e = ECacheClear \/ e = ECacheDelete key.

Lemma exec_acc {R} (id : nat) (t : Task R) :
  forall now s evs,
    exec id now t s evs
    = (fst (fst (exec id now t s [])), (evs ++ snd (fst (exec id now t s [])))%list,
       snd (exec id now t s [])).
Proof.
  induction t as [r|e|code|X o k IH|X c k IH]; intros now s evs; simpl.
  - rewrite app_nil_r. reflexivity.
  - rewrite app_nil_r. reflexivity.
  - reflexivity.
  - rewrite (IH _ now _ (evs ++ emit id o)%list), (IH _ now _ (emit id o)).
    simpl. rewrite app_assoc. reflexivity.
  - reflexivity.
Qed.

Lemma exec_op_cache now id {X} (o : op X) (s : state) :
  imageCache (fst (exec_op now o s)) = fold_left cache_after (emit id o) (imageCache s).
Proof. destruct o; reflexivity. Qed.

Lemma kept_or_removed (key : string) (mid : list event) :
  forall c,
    is_Some (c !! key) ->
    Exists (removes key) mid \/ is_Some (fold_left cache_after mid c !! key).
Proof.
  induction mid as [|e mid IH]; intros c Hc; simpl; [right; exact Hc|].
  assert (removes key e \/ is_Some (cache_after c e !! key)) as [Hrem|Hkept].
  { destruct e; simpl; try (right; exact Hc).
    - right. destruct (decide (key0 = key)) as [->|Hne].
      + rewrite lookup_insert_eq. eauto.
      + rewrite lookup_insert_ne by exact Hne. exact Hc.
    - destruct (decide (key0 = key)) as [->|Hne].
      + left. right. reflexivity.
      + right. rewrite lookup_delete_ne by exact Hne. exact Hc.
    - left. left. reflexivity. }
  - left. apply Exists_cons. left. exact Hrem.
  - destruct (IH _ Hkept) as [Hex|Hsome]; [left; apply Exists_cons; right; exact Hex|].
    right. exact Hsome.
Qed.

(** An entry that was stored and is no longer in the cache was removed after
    it was stored. *)
Lemma stored_then_removed (key : string) (d : CacheEntry) (evs : list event) :
  In (ECacheSet key d) evs ->
  cache_of evs !! key = None ->
  exists pre mid,
    evs = (pre ++ ECacheSet key d :: mid)%list /\ Exists (removes key) mid.
Proof.
  intros Hin Hnone. apply in_split in Hin as (pre & mid & ->).
  exists pre, mid. split; [reflexivity|].
  unfold cache_of in Hnone. rewrite fold_left_app in Hnone. simpl in Hnone.
  destruct (kept_or_removed key mid (<[key := d]> (fold_left cache_after pre ∅)))
    as [Hex|Hsome]; [rewrite lookup_insert_eq; eauto|exact Hex|].
  rewrite Hnone in Hsome. destruct Hsome as [x Hx]. discriminate.
Qed.

(** ** The [X-Cache-Status] header *)

(** What a task is to the cache-status header: the handler of a POST routed
    to [/html-to-image] with html, which renders or serves the entry of
    [key]; the same handler for a body without html, which rejects; or
    anything else. *)
Inductive role : Type :=
| Other
| Rejecting
| Rendering (key : string).

(** The request is routed to the handler of [POST /html-to-image]. *)
Definition renders (req : request) : bool :=
  String.eqb (method req) "POST" && route_matches "/html-to-image" (path req).

Definition role_of (i : input) : role :=
  match i with
  | Incoming req =>
      if renders req then
        match html req with
        | Some h => Rendering (generateCacheKey h (JObj (default [] (options req))))
        | None => Rejecting
        end
      else Other
  | _ => Other
  end.

(** Every input but a settlement starts a task. *)
Definition starts (i : input) : bool :=
  match i with
  | Settle _ _ => false
  | _ => true
  end.

(** The input that started task [id] in a run: the event loop numbers the
    tasks from 0 in the order of their start. *)
Definition source_of (l : list (Z * input)) (id : nat) : option input :=
  List.filter starts (map snd l) !! id.

(** The response carries an image that was stored under [key] among the
    events [before], and the entry of [key] was removed after that store. *)
Definition removed_since_stored (key : string) (before : list event) (r : response)
    : Prop :=
  exists d pre mid,
    before = (pre ++ ECacheSet key d :: mid)%list
    /\ body r = Image (buffer d)
    /\ Exists (removes key) mid.

Definition verdict (ro : role) (before : list event) (r : response) : Prop :=
  match ro with
  | Other => True
  | Rejecting => statusCode r <> 200
  | Rendering key =>
      statusCode r = 200 ->
      getHeader "X-Cache-Status" r = Some "HIT"
      \/ (getHeader "X-Cache-Status" r = Some "MISS" /\ removed_since_stored key before r)
  end.

Definition judged (roles : nat -> role) (bound : nat) (evs : list event) : Prop :=
  forall before id r after,
    evs = (before ++ ESend id r :: after)%list ->
    (id < bound)%nat /\ verdict (roles id) before r.

Lemma judged_snoc roles bound (evs : list event) (e : event) :
  judged roles bound evs ->
  (forall id r, e = ESend id r -> (id < bound)%nat /\ verdict (roles id) evs r) ->
  judged roles bound (evs ++ [e]).
Proof.
  intros Hall He before id r after Heq.
  destruct after as [|a after _] using rev_ind.
  - apply app_inj_tail in Heq as [-> ->]. apply (He id r eq_refl).
  - change (before ++ ESend id r :: after ++ [a])%list
      with (before ++ (ESend id r :: after) ++ [a])%list in Heq.
    rewrite app_assoc in Heq. apply app_inj_tail in Heq as [-> _].
    apply (Hall before id r after eq_refl).
Qed.

(** What a task has stored is kept in [stored]; [candid ro stored t s]: a
    task of role [ro] stores under its key only, and a response it sends
    with status 200 says [HIT], or says [MISS], carries an image the task
    has stored, and is sent when the cache has nothing under the key. *)
Definition stored_after {X} (o : op X) (stored : list CacheEntry) : list CacheEntry :=
  match o with
  | ImageCacheSet _ d => d :: stored
  | _ => stored
  end.

Definition op_candid {X} (ro : role) (o : op X) (stored : list CacheEntry) (s : state)
    : Prop :=
  match o with
  | Send r =>
      match ro with
      | Other => True
      | Rejecting => statusCode r <> 200
      | Rendering key =>
          statusCode r = 200 ->
          getHeader "X-Cache-Status" r = Some "HIT"
          \/ (getHeader "X-Cache-Status" r = Some "MISS"
              /\ exists d,
                   In d stored /\ body r = Image (buffer d)
                   /\ imageCache s !! key = None)
      end
  | ImageCacheSet k _ =>
      match ro with
      | Rendering key => k = key
      | _ => True
      end
  | _ => True
  end.

Arguments op_candid : simpl never.

Fixpoint candid {R} (ro : role) (stored : list CacheEntry) (t : Task R) (s : state) : Prop :=
  match t with
  | Ret _ | Throw _ | Exit _ => True
  | Do o k =>
      op_candid ro o stored s
      /\ forall now,
           candid ro (stored_after o stored) (k (snd (exec_op now o s)))
                  (fst (exec_op now o s))
  | Await _ k => forall v s', candid ro stored (k v) s'
  end.

Definition recorded (ro : role) (stored : list CacheEntry) (evs : list event) : Prop :=
  match ro with
  | Rendering key => forall d, In d stored -> In (ECacheSet key d) evs
  | _ => True
  end.

Lemma recorded_app ro stored evs evs' :
  recorded ro stored evs -> recorded ro stored (evs ++ evs').
Proof.
  destruct ro as [| |key]; simpl; try exact (fun H => H).
  intros Hrec d Hin. apply in_or_app. left. apply Hrec, Hin.
Qed.

Lemma recorded_nil ro evs : recorded ro [] evs.
Proof. destruct ro; simpl; try exact I. intros d []. Qed.

Lemma exec_candid {R} (roles : nat -> role) (bound id : nat) (t : Task R) :
  (id < bound)%nat ->
  forall now s evs stored,
    candid (roles id) stored t s ->
    imageCache s = cache_of evs ->
    recorded (roles id) stored evs ->
    judged roles bound evs ->
    imageCache (fst (fst (exec id now t s evs))) = cache_of (snd (fst (exec id now t s evs)))
    /\ judged roles bound (snd (fst (exec id now t s evs)))
    /\ match snd (exec id now t s evs) with
       | Blocked _ k =>
           exists stored',
             recorded (roles id) stored' (snd (fst (exec id now t s evs)))
             /\ forall v s', candid (roles id) stored' (k v) s'
       | _ => True
       end.
Proof.
  intros Hid.
  induction t as [r|e|code|X o k IH|X c k IH]; intros now s evs stored Hp Hc Hrec Hall;
    simpl in *.
  - split; [exact Hc|]. split; [exact Hall|exact I].
  - split; [exact Hc|]. split; [exact Hall|exact I].
  - split; [|split; [|exact I]].
    + unfold cache_of. rewrite fold_left_app. exact Hc.
    + apply judged_snoc; [exact Hall|]. discriminate.
  - destruct Hp as [Hop Hk].
    apply (IH _ now _ _ (stored_after o stored) (Hk now)).
    + rewrite (exec_op_cache now id), Hc. unfold cache_of. rewrite fold_left_app.
      reflexivity.
    + destruct o; simpl; try (apply recorded_app; exact Hrec).
      unfold op_candid in Hop. destruct (roles id) as [| |key']; simpl in *; try exact I.
      subst key. intros d [<-|Hin]; apply in_or_app; [right; left; reflexivity|].
      left. apply Hrec, Hin.
    + destruct o; simpl; rewrite ?app_nil_r; try exact Hall;
        (apply judged_snoc; [exact Hall|]); try discriminate.
      intros id' r' Heq. injection Heq as <- <-. split; [exact Hid|].
      unfold op_candid in Hop. unfold verdict.
      destruct (roles id) as [| |key]; simpl in *; try assumption.
      intros H200. destruct (Hop H200) as [Hhit|(Hmiss & d & Hin & Hbody & Hnone)];
        [left; exact Hhit|].
      right. split; [exact Hmiss|].
      rewrite Hc in Hnone.
      destruct (stored_then_removed key d evs (Hrec d Hin) Hnone)
        as (pre & mid & Hevs & Hex).
      exists d, pre, mid. repeat split; assumption.
  - split; [|split].
    + unfold cache_of. rewrite fold_left_app. exact Hc.
    + apply judged_snoc; [exact Hall|]. discriminate.
    + exists stored. split; [|exact Hp]. apply recorded_app, Hrec.
Qed.

(** The role of task [id], by the inputs that have started tasks. *)
Definition roles_of (srcs : list input) (id : nat) : role :=
  match srcs !! id with
  | Some i => role_of i
  | None => Other
  end.

Definition candid_task (srcs : list input) (h : list event) (t : nat * suspended) : Prop :=
  match t with
  | (id, Suspended _ _ k) =>
      (id < List.length srcs)%nat
      /\ exists stored,
           recorded (roles_of srcs id) stored h
           /\ forall v s', candid (roles_of srcs id) stored (k v) s'
  end.

(** The invariant of the event loop: the tasks are numbered in the order of
    [srcs], the cache is what the events of the run make it, the responses
    sent are as the role of their task wants them, and the suspended tasks
    are candid. *)
Definition honest (srcs : list input) (m : machine) : Prop :=
  next_id m = List.length srcs
  /\ imageCache (st m) = cache_of (history m)
  /\ judged (roles_of srcs) (List.length srcs) (history m)
  /\ Forall (candid_task srcs (history m)) (tasks m).

Lemma roles_of_app srcs more id :
  (id < List.length srcs)%nat -> roles_of (srcs ++ more) id = roles_of srcs id.
Proof. intros Hid. unfold roles_of. rewrite lookup_app_l by exact Hid. reflexivity. Qed.

Lemma judged_app srcs more h :
  judged (roles_of srcs) (List.length srcs) h ->
  judged (roles_of (srcs ++ more)) (List.length (srcs ++ more)) h.
Proof.
  intros Hj before id r after Heq. destruct (Hj before id r after Heq) as [Hid Hv].
  split; [rewrite length_app; lia|]. rewrite roles_of_app by exact Hid. exact Hv.
Qed.

Lemma candid_task_app srcs more h evs t :
  candid_task srcs h t -> candid_task (srcs ++ more) (h ++ evs) t.
Proof.
  destruct t as [id [src X c k]]. intros (Hid & stored & Hrec & Hk).
  split; [rewrite length_app; lia|]. rewrite roles_of_app by exact Hid.
  exists stored. split; [apply recorded_app, Hrec|exact Hk].
Qed.

Lemma candid_task_mono srcs h evs t : candid_task srcs h t -> candid_task srcs (h ++ evs) t.
Proof.
  intros Ht. pose proof (candid_task_app srcs [] h evs t Ht) as H.
  rewrite app_nil_r in H. exact H.
Qed.

Lemma settle_segment_honest srcs id src ts next h now (t : Task unit) s stored :
  next = List.length srcs ->
  (id < List.length srcs)%nat ->
  imageCache s = cache_of h ->
  judged (roles_of srcs) (List.length srcs) h ->
  Forall (candid_task srcs h) ts ->
  recorded (roles_of srcs id) stored h ->
  candid (roles_of srcs id) stored t s ->
  honest srcs (settle_segment id src ts next h (exec id now t s [])).
Proof.
  intros Hnext Hid Hc Hall Hts Hrec Ht.
  destruct (exec_candid (roles_of srcs) (List.length srcs) id t Hid now s h stored
              Ht Hc Hrec Hall) as (Hc' & Hall' & Hk).
  rewrite exec_acc in Hc', Hall', Hk. simpl in Hc', Hall', Hk.
  unfold honest, settle_segment.
  destruct (exec id now t s []) as [[s' evs] [r|e| |X c k]]; simpl in *.
  - split; [exact Hnext|]. split; [exact Hc'|]. split; [exact Hall'|].
    eapply Forall_impl; [exact Hts|]. intros t'. apply candid_task_mono.
  - split; [exact Hnext|]. split; [|split].
    + rewrite app_assoc. unfold cache_of. rewrite fold_left_app. exact Hc'.
    + rewrite app_assoc. apply judged_snoc; [exact Hall'|]. discriminate.
    + eapply Forall_impl; [exact Hts|]. intros t'. apply candid_task_mono.
  - split; [exact Hnext|]. split; [exact Hc'|]. split; [exact Hall'|].
    eapply Forall_impl; [exact Hts|]. intros t'. apply candid_task_mono.
  - split; [exact Hnext|]. split; [exact Hc'|]. split; [exact Hall'|].
    apply Forall_app. split.
    + eapply Forall_impl; [exact Hts|]. intros t'. apply candid_task_mono.
    + apply Forall_cons. split; [|constructor]. split; [exact Hid|exact Hk].
Qed.

Lemma status_json_status code j res : statusCode (status_json code j res) = code.
Proof. reflexivity. Qed.

(** The leaves of [candid]. *)
Ltac candid_leaf :=
  cbv beta iota delta [op_candid];
  lazymatch goal with
  | |- True => exact I
  | |- _ = _ => reflexivity
  | |- statusCode _ <> 200 =>
      unfold server_busy, html_required, html_too_large, generation_failed;
      rewrite status_json_status; discriminate
  | |- statusCode (image_response _ _ _ true _) = 200 -> _ =>
      intros _; left; apply image_response_cache_status
  | |- statusCode (image_response _ ?b _ false _) = 200 -> _ =>
      intros _; right; split; [apply image_response_cache_status|];
      eexists (Entry b _);
      split; [left; reflexivity|split; [reflexivity|simpl; assumption]]
  | |- statusCode _ = 200 -> _ =>
      unfold server_busy, html_required, html_too_large, generation_failed;
      rewrite status_json_status; discriminate
  end.

Ltac candid_step :=
  match goal with
  | |- forall _, _ => intro
  | |- _ /\ _ => split
  | H : ?m !! ?k = _ |- context [?m !! ?k] => rewrite H
  | |- op_candid _ (Send ?r) _ _ =>
      match r with
      | context [match ?x with _ => _ end] => destruct x eqn:?
      end
  | |- op_candid _ _ _ _ => candid_leaf
  | |- True => exact I
  | |- candid _ _ ?t _ =>
      match t with
      | context [match ?x with _ => _ end] => destruct x eqn:?
      | context [if ?x then _ else _] => destruct x eqn:?
      end
  | |- candid _ _ _ _ => progress simpl
  end.

Ltac candid_tac := repeat candid_step.

Section Candour.

Context (env : environment).

Lemma sweep_candid stored (now : Z) (l : list (string * CacheEntry)) :
  forall s,
    candid Other stored
      (for_each l (fun kd =>
         if Z.gtb (now - timestamp (snd kd)) (CACHE_TTL env)
         then perform (ImageCacheDelete (fst kd))
         else Ret tt))
      s.
Proof.
  induction l as [|kd l IH]; intros s; simpl; [exact I|].
  destruct (Z.gtb (now - timestamp (snd kd)) (CACHE_TTL env)); simpl.
  - split; [exact I|]. intros _. apply IH.
  - apply IH.
Qed.

(** A request the router gives to the handler of [POST /html-to-image] is
    given to no route before it. *)
Lemma routes_render (req : request) (res : response) :
  renders req = true -> routes env req res = post_html_to_image env req res.
Proof.
  intros Hr. unfold renders in Hr. apply andb_prop in Hr as [Hm Hp].
  apply String.eqb_eq in Hm.
  assert (route_matches "/cache-clear" (path req) = false) as Hclear.
  { unfold route_matches in Hp |- *. simpl in Hp |- *.
    apply orb_prop in Hp as [H|H]; apply String.eqb_eq in H; rewrite H; reflexivity. }
  unfold routes. rewrite Hm, Hclear, Hp. reflexivity.
Qed.

Lemma app_candid_other (req : request) (s : state) : candid Other [] (app env req) s.
Proof.
  unfold app, routes, get_root, post_cache_clear, post_html_to_image, get_test_image,
    generateImageOptimized, render, initBrowser, enter, leave.
  candid_tac.
Qed.

Lemma app_candid_rejecting (req : request) (s : state) :
  renders req = true -> html req = None -> candid Rejecting [] (app env req) s.
Proof.
  intros Hr Hhtml. unfold app. rewrite (routes_render req _ Hr).
  unfold post_html_to_image, enter, leave. rewrite Hhtml.
  candid_tac.
Qed.

Lemma app_candid_rendering (req : request) (h : string) (s : state) :
  renders req = true ->
  html req = Some h ->
  candid (Rendering (generateCacheKey h (JObj (default [] (options req))))) []
    (app env req) s.
Proof.
  intros Hr Hhtml. unfold app. rewrite (routes_render req _ Hr).
  unfold post_html_to_image, generateImageOptimized, render, initBrowser, enter, leave.
  rewrite Hhtml.
  candid_tac.
Qed.

Lemma started_candid (i : input) (s : state) : candid (role_of i) [] (task_of env i) s.
Proof.
  destruct i as [|req|id o| |sig| |e]; simpl task_of; simpl role_of.
  - unfold on_listening, initBrowser. candid_tac.
  - destruct (renders req) eqn:Hr; [|apply app_candid_other].
    destruct (html req) as [h|] eqn:Hhtml.
    + apply app_candid_rendering; assumption.
    + apply app_candid_rejecting; assumption.
  - exact I.
  - unfold cleanupCache. simpl. split; [exact I|]. intros now.
    split; [exact I|]. intros _. apply sweep_candid.
  - unfold on_signal. candid_tac.
  - unfold on_server_closed. candid_tac.
  - unfold on_bad_body. candid_tac.
Qed.

Lemma step_honest srcs now i (m m' : machine) :
  honest srcs m ->
  step env now i m = Some m' ->
  honest (srcs ++ (if starts i then [i] else [])) m'.
Proof.
  intros (Hnext & Hc & Hall & Hts) Hstep.
  assert (forall src s,
            imageCache s = imageCache (st m) ->
            honest (srcs ++ [src]) (spawn now src (task_of env src) s m)) as Hspawn.
  { intros src s Hs. unfold spawn, run.
    assert (roles_of (srcs ++ [src]) (next_id m) = role_of src) as Hrole.
    { unfold roles_of. rewrite Hnext, list_lookup_middle by reflexivity. reflexivity. }
    apply (settle_segment_honest _ _ _ _ _ _ _ _ _ []).
    - rewrite length_app, Hnext. simpl. lia.
    - rewrite length_app, Hnext. simpl. lia.
    - rewrite Hs. exact Hc.
    - apply judged_app, Hall.
    - eapply Forall_impl; [exact Hts|]. intros t' Ht'.
      pose proof (candid_task_app srcs [src] (history m) [] t' Ht') as H.
      rewrite app_nil_r in H. exact H.
    - apply recorded_nil.
    - rewrite Hrole. apply started_candid. }
  unfold step in Hstep.
  destruct (exit_code (st m)); [discriminate|].
  destruct i as [|req|id o| |sig| |e]; simpl starts; cbv iota.
  - destruct (lifecycle (st m)); try discriminate. injection Hstep as <-.
    apply (Hspawn Listening). reflexivity.
  - destruct (accepting (lifecycle (st m))); [|discriminate]. injection Hstep as <-.
    apply (Hspawn (Incoming req)). reflexivity.
  - rewrite app_nil_r.
    destruct (take_task id (tasks m)) as [[[src X c k] rest]|] eqn:Htake; [|discriminate].
    destruct (coerce c o) as [v|]; [|discriminate]. injection Hstep as <-.
    destruct (take_task_Forall _ _ _ _ _ Htake Hts) as [(Hid & stored & Hrec & Hk) Hrest].
    unfold run. apply (settle_segment_honest _ _ _ _ _ _ _ _ _ stored); try assumption.
    apply Hk.
  - injection Hstep as <-. apply (Hspawn CleanupTimer). reflexivity.
  - injection Hstep as <-. apply (Hspawn (Signal sig)). reflexivity.
  - destruct (close_callbacks (st m)); [discriminate|]. injection Hstep as <-.
    apply (Hspawn ServerClosed). reflexivity.
  - destruct (accepting (lifecycle (st m))); [|discriminate]. injection Hstep as <-.
    apply (Hspawn (BadBody e)). reflexivity.
Qed.

Lemma steps_honest (l : list (Z * input)) :
  forall srcs m m',
    honest srcs m ->
    steps env l m = Some m' ->
    honest (srcs ++ List.filter starts (map snd l)) m'.
Proof.
  induction l as [|[now i] l IH]; intros srcs m m' Hinv Hsteps; simpl in Hsteps.
  - injection Hsteps as <-. simpl. rewrite app_nil_r. exact Hinv.
  - destruct (step env now i m) as [m1|] eqn:Hstep; [|discriminate].
    pose proof (IH _ m1 m' (step_honest srcs now i m m1 Hinv Hstep) Hsteps) as H.
    rewrite <- app_assoc in H. simpl. destruct (starts i); exact H.
Qed.

Lemma boot_honest : honest [] boot.
Proof.
  split; [reflexivity|]. split; [reflexivity|]. split; [|constructor].
  intros before id r after Heq. destruct before; discriminate.
Qed.

End Candour.

(** C9, as amended: in every run of the server from its start, a response
    with status 200 sent by the handler of a POST routed to
    [/html-to-image] says [X-Cache-Status: HIT], whether the image came from
    the cache or was rendered for this request (the header is computed by
    looking the key up again after the render has stored its entry), unless
    the entry the image was stored in was removed from the cache, by a clear
    or by a delete of its key, between the store and the response: then the
    response says [MISS]. *)
Theorem x_cache_status_hit_unless_removed env (l : list (Z * input)) (m : machine)
    (before : list event) (id : nat) (r : response) (after : list event) (req : request) :
  steps env l boot = Some m ->
  history m = (before ++ ESend id r :: after)%list ->
  source_of l id = Some (Incoming req) ->
  method req = "POST" ->
  route_matches "/html-to-image" (path req) = true ->
  statusCode r = 200 ->
  exists h,
    html req = Some h
    /\ (getHeader "X-Cache-Status" r = Some "HIT"
        \/ (getHeader "X-Cache-Status" r = Some "MISS"
            /\ exists d pre mid,
                 before
                 = (pre ++ ECacheSet (generateCacheKey h (JObj (default [] (options req)))) d
                        :: mid)%list
                 /\ body r = Image (buffer d)
                 /\ Exists (removes (generateCacheKey h (JObj (default [] (options req)))))
                           mid)).
Proof.
  intros Hsteps Hhistory Hsource Hmethod Hroute H200.
  destruct (steps_honest env l [] boot m boot_honest Hsteps) as (_ & _ & Hall & _).
  destruct (Hall before id r after Hhistory) as [_ Hverdict].
  unfold roles_of in Hverdict. simpl in Hverdict. unfold source_of in Hsource.
  rewrite Hsource in Hverdict. unfold role_of, renders in Hverdict.
  rewrite Hmethod, Hroute in Hverdict. simpl in Hverdict.
  destruct (html req) as [h|]; simpl in Hverdict; [|contradiction].
  exists h. split; [reflexivity|]. apply Hverdict, H200.
Qed.

(** The responses of task [id] among some events. *)
Definition sent_by (id : nat) (evs : list event) : list response :=
  omap (fun r => if Nat.eqb (fst r) id then Some (snd r) else None) (responses evs).

(** A POST to [/cache-clear] arrives while the handler is closing the page. *)
Definition clear_during_close : list (Z * input) :=
  [ (0, Listening); (10, Settle 0 (SBrowser 1));
    (20, Incoming request_x); (30, Settle 1 (SPage 7)); (40, Settle 1 SUnit);
    (50, Settle 1 SUnit); (60, Settle 1 (SBuffer [Byte.x89; Byte.x50]));
    (65, Incoming (Request "POST" "/cache-clear" None None));
    (70, Settle 1 SUnit) ].

(** C9 as stated fails: the entry stored by the render is cleared while
    [page.close()] is awaited, and the image, a successful response, is sent
    with [X-Cache-Status: MISS]. *)
Lemma x_cache_status_miss_counterexample :
  (fun m => map (fun r => (statusCode r, body r, getHeader "X-Cache-Status" r))
                (sent_by 1 (history m)))
    <$> steps default_env clear_during_close boot
  = Some [(200, Image [Byte.x89; Byte.x50], Some "MISS")].
Proof. vm_compute. reflexivity. Qed.

Lemma x_cache_status_hit_unless_removed_witness :
  exists m r,
    steps default_env clear_during_close boot = Some m
    /\ history m !! 11%nat = Some (ESend 1 r)
    /\ source_of clear_during_close 1 = Some (Incoming request_x)
    /\ exists h,
         html request_x = Some h
         /\ (getHeader "X-Cache-Status" r = Some "HIT"
             \/ (getHeader "X-Cache-Status" r = Some "MISS"
                 /\ exists d pre mid,
                      take 11 (history m)
                      = (pre ++ ECacheSet
                                  (generateCacheKey h (JObj (default [] (options request_x))))
                                  d :: mid)%list
                      /\ body r = Image (buffer d)
                      /\ Exists
                           (removes
                              (generateCacheKey h (JObj (default [] (options request_x)))))
                           mid)).
Proof.
  destruct (some_of_evaluation (steps default_env clear_during_close boot)) as [m Hm];
    [vm_compute; reflexivity|].
  assert (exists r, history m !! 11%nat = Some (ESend 1 r) /\ statusCode r = 200)
    as (r & Hr & H200).
  { by_evaluation Hm. eexists. split; reflexivity. }
  exists m, r. split; [exact Hm|]. split; [exact Hr|]. split; [reflexivity|].
  apply (x_cache_status_hit_unless_removed default_env clear_during_close m
           (take 11 (history m)) 1 r (drop 12 (history m)) request_x).
  - exact Hm.
  - symmetry. apply take_drop_middle. exact Hr.
  - reflexivity.
  - reflexivity.
  - vm_compute. reflexivity.
  - exact H200.
Defined.

(** A run in which the responses of [POST /html-to-image] say [HIT]: a
    render, then the same request served from the cache. *)
Example x_cache_status_hit_after_render :
  (fun m => map (fun x => (statusCode (snd x), getHeader "X-Cache-Status" (snd x)))
                (responses (history m)))
    <$> steps default_env (warm_up ++ [(90, Incoming request_x)]) boot
  = Some [(200, Some "HIT"); (200, Some "HIT")].
Proof. vm_compute. reflexivity. Qed.

(** ** Rendering the same page twice *)

Section Twice.

Context (env : environment).



End Twice.





(** ** Which responses a task can send *)

(** [sends_only P t]: every response task [t] can send satisfies [P],
    whatever the state and however its promises settle. *)
Fixpoint sends_only {R} (P : response -> Prop) (t : Task R) : Prop :=
  match t with
  | Ret _ | Throw _ | Exit _ => True
  | Do o k =>
      match o in op X return (X -> Task R) -> Prop with
      | Send r => fun k => P r /\ sends_only P (k tt)
      | _ => fun k => forall x, sends_only P (k x)
      end k
  | Await _ k => forall v, sends_only P (k v)
  end.

Definition all_responses (P : response -> Prop) (evs : list event) : Prop :=
  Forall (fun r => P (snd r)) (responses evs).

Lemma responses_app (evs1 evs2 : list event) :
  responses (evs1 ++ evs2) = (responses evs1 ++ responses evs2)%list.
Proof. unfold responses. apply omap_app. Qed.

Lemma all_responses_app P evs1 evs2 :
  all_responses P (evs1 ++ evs2) <-> all_responses P evs1 /\ all_responses P evs2.
Proof. unfold all_responses. rewrite responses_app. apply Forall_app. Qed.

Lemma exec_sends_only {R} (P : response -> Prop) (t : Task R) :
  forall id now s evs,
    sends_only P t ->
    exists evs',
      snd (fst (exec id now t s evs)) = (evs ++ evs')%list
      /\ all_responses P evs'
      /\ match snd (exec id now t s evs) with
         | Blocked _ k => forall v, sends_only P (k v)
         | _ => True
         end.
Proof.
  induction t as [r|e|code|X o k IH|X c k IH]; intros id now s evs Hp; simpl.
  - exists []. rewrite app_nil_r. repeat split; constructor.
  - exists []. rewrite app_nil_r. repeat split; constructor.
  - exists [EExit code]. repeat split; constructor.
  - assert (sends_only P (k (snd (exec_op now o s))) /\ all_responses P (emit id o))
      as [Hk Hemit].
    { unfold all_responses.
      destruct o; simpl in *;
        first [ destruct Hp as [Hr Hk]; split; [exact Hk|repeat constructor; exact Hr]
              | split; [apply Hp|constructor] ]. }
    destruct (IH _ id now (fst (exec_op now o s)) (evs ++ emit id o)%list Hk)
      as (evs' & Hevs & Hall & Hblocked).
    exists (emit id o ++ evs')%list. split; [rewrite Hevs, app_assoc; reflexivity|].
    split; [apply all_responses_app; split; assumption|exact Hblocked].
  - exists [ECall id c]. repeat split; [constructor|exact Hp].
Qed.

Ltac sends_step :=
  match goal with
  | |- forall _, _ => intro
  | |- _ /\ _ => split
  | |- True => exact I
  | |- _ <> _ => simpl; discriminate
  | |- sends_only _ ?t =>
      match t with
      | context [match ?x with _ => _ end] => destruct x
      | context [if ?x then _ else _] => destruct x
      end
  | |- sends_only _ _ => progress simpl
  end.

Ltac sends_tac := repeat sends_step.

Definition not_429 (r : response) : Prop := statusCode r <> 429.

Section Politeness.

Context (env : environment).

Lemma sweep_sends_nothing P (now : Z) (l : list (string * CacheEntry)) :
  sends_only P
    (for_each l (fun kd =>
       if Z.gtb (now - timestamp (snd kd)) (CACHE_TTL env)
       then perform (ImageCacheDelete (fst kd))
       else Ret tt)).
Proof.
  induction l as [|kd l IH]; simpl; [exact I|].
  destruct (Z.gtb (now - timestamp (snd kd)) (CACHE_TTL env)); simpl.
  - intros _. exact IH.
  - exact IH.
Qed.

Lemma cleanupCache_sends_nothing P : sends_only P (cleanupCache env).
Proof. unfold cleanupCache. simpl. intros now l. apply sweep_sends_nothing. Qed.

Lemma on_listening_sends_nothing P : sends_only P (on_listening env).
Proof. unfold on_listening, initBrowser. simpl. sends_tac. Qed.

Lemma on_signal_sends_nothing P sig : sends_only P (on_signal sig).
Proof. unfold on_signal. simpl. sends_tac. Qed.

Lemma on_server_closed_sends_nothing P : sends_only P on_server_closed.
Proof. unfold on_server_closed. simpl. sends_tac. Qed.

Lemma on_bad_body_not_429 e : sends_only not_429 (on_bad_body e).
Proof.
  unfold on_bad_body, bad_body_response, not_429. simpl.
  split; [destruct e; discriminate|exact I].
Qed.

(** Past the throttling middleware no route answers 429. *)
Lemma routes_not_429 (req : request) :
  sends_only not_429 (routes env req fresh_res).
Proof.
  unfold routes, unrouted, get_root, post_cache_clear, post_html_to_image, get_test_image,
    generateImageOptimized, render, initBrowser, enter, leave, not_429.
  sends_tac.
Qed.

End Politeness.

(** ** The throttling middleware *)

Definition polite_task (t : nat * suspended) : Prop :=
  match t with
  | (_, Suspended _ _ k) => forall v, sends_only not_429 (k v)
  end.

(** No suspended task will ever answer 429. *)
Definition polite (m : machine) : Prop := Forall polite_task (tasks m).

Lemma settle_segment_polite id src ts next h now (t : Task unit) s :
  Forall polite_task ts ->
  sends_only not_429 t ->
  polite (settle_segment id src ts next h (exec id now t s []))
  /\ exists evs,
       history (settle_segment id src ts next h (exec id now t s [])) = (h ++ evs)%list
       /\ all_responses not_429 evs.
Proof.
  intros Hall Ht.
  destruct (exec_sends_only not_429 t id now s [] Ht) as (evs & Hevs & Hresp & Hk).
  unfold polite, settle_segment.
  destruct (exec id now t s []) as [[s' evs'] [r|e| |X c k]]; simpl in *; subst evs'.
  - split; [exact Hall|]. exists evs. split; [reflexivity|exact Hresp].
  - split; [exact Hall|]. exists (evs ++ [EExit 1])%list. split; [reflexivity|].
    apply all_responses_app. split; [exact Hresp|constructor].
  - split; [exact Hall|]. exists evs. split; [reflexivity|exact Hresp].
  - split.
    + apply Forall_app. split; [exact Hall|]. apply Forall_cons. split; [exact Hk|constructor].
    + exists evs. split; [reflexivity|exact Hresp].
Qed.

Lemma take_task_polite id ts src X (c : call X) k rest :
  take_task id ts = Some (Suspended src c k, rest) ->
  Forall polite_task ts ->
  (forall v, sends_only not_429 (k v)) /\ Forall polite_task rest.
Proof.
  revert rest. induction ts as [|[id' t'] ts IH]; intros rest Htake Hall;
    simpl in Htake; [discriminate|].
  apply Forall_cons in Hall as [Ht Hall].
  destruct (Nat.eqb id id').
  - injection Htake as -> <-. split; assumption.
  - destruct (take_task id ts) as [[t'' rest'']|]; [|discriminate].
    injection Htake as -> <-. destruct (IH rest'' eq_refl Hall) as [Hk Hrest].
    split; [exact Hk|]. apply Forall_cons. split; assumption.
Qed.

(** The segment a request starts with: the 429 of the middleware, or a route
    that never answers 429. *)
Lemma app_throttles env id now (req : request) (s : state) :
  (path req = "/html-to-image" /\ MAX_CONCURRENT env <= activeRequests s
   /\ run id now (app env req) s = (s, [ESend id (server_busy fresh_res)], Finished tt))
  \/ (~ (path req = "/html-to-image" /\ MAX_CONCURRENT env <= activeRequests s)
      /\ exists t, sends_only not_429 t
                   /\ run id now (app env req) s = exec id now t s []).
Proof.
  destruct (String.eqb_spec (path req) "/html-to-image") as [Hpath|Hpath].
  - destruct (Z.leb_spec (MAX_CONCURRENT env) (activeRequests s)) as [Hn|Hn].
    + left. split; [exact Hpath|]. split; [exact Hn|]. apply app_busy; assumption.
    + right. split; [lia|]. eexists. split; [apply (routes_not_429 env req)|].
      unfold run, app. simpl.
      replace (Z.geb (activeRequests s) (MAX_CONCURRENT env)) with false
        by (symmetry; rewrite Z.geb_leb; apply Z.leb_gt; lia).
      reflexivity.
  - right. split; [tauto|]. eexists. split; [apply (routes_not_429 env req)|].
    unfold run, app. simpl.
    apply String.eqb_neq in Hpath. rewrite Hpath, andb_false_r. reflexivity.
Qed.

Lemma no_429_among P evs :
  all_responses (fun r => statusCode r <> P) evs ->
  ~ exists r, r ∈ responses evs /\ statusCode (snd r) = P.
Proof.
  unfold all_responses. intros Hall (r & Hin & Hstatus).
  rewrite Forall_forall in Hall. apply (Hall r Hin). exact Hstatus.
Qed.

(** One turn of the event loop: its events, whether a 429 is among them,
    and the tasks it leaves. *)
Lemma step_throttle env now i (m m' : machine) :
  polite m ->
  step env now i m = Some m' ->
  polite m'
  /\ exists evs,
       history m' = (history m ++ evs)%list
       /\ ((exists r, r ∈ responses evs /\ statusCode (snd r) = 429)
           <-> (exists req, i = Incoming req /\ path req = "/html-to-image"
                            /\ MAX_CONCURRENT env <= activeRequests (st m))).
Proof.
  intros Hall Hstep.
  assert (forall src t s,
            sends_only not_429 t ->
            (forall req, src = Incoming req -> False) ->
            Some (spawn now src t s m) = Some m' ->
            polite m'
            /\ exists evs,
                 history m' = (history m ++ evs)%list
                 /\ ((exists r, r ∈ responses evs /\ statusCode (snd r) = 429)
                     <-> (exists req, src = Incoming req /\ path req = "/html-to-image"
                                      /\ MAX_CONCURRENT env <= activeRequests (st m))))
    as Hspawn.
  { intros src t s Ht Hsrc Heq. injection Heq as <-. unfold spawn, run.
    destruct (settle_segment_polite (next_id m) src (tasks m) (S (next_id m))
                (history m) now t s Hall Ht) as [Hp (evs & Hh & Hresp)].
    split; [exact Hp|]. exists evs. split; [exact Hh|]. split.
    - intros H. exfalso. exact (no_429_among 429 evs Hresp H).
    - intros (req & Hreq & _). exfalso. exact (Hsrc req Hreq). }
  unfold step in Hstep.
  destruct (exit_code (st m)); [discriminate|].
  destruct i as [|req|id o| |sig| |e].
  - destruct (lifecycle (st m)); try discriminate.
    eapply Hspawn; [| |exact Hstep]; [apply on_listening_sends_nothing|discriminate].
  - destruct (accepting (lifecycle (st m))); [|discriminate]. injection Hstep as <-.
    unfold spawn.
    destruct (app_throttles env (next_id m) now req (st m))
      as [(Hpath & Hn & Hrun)|(Hno & t & Ht & Hrun)]; rewrite Hrun.
    + simpl. split; [exact Hall|]. eexists. split; [reflexivity|]. split.
      * intros _. exists req. auto.
      * intros _. exists (next_id m, server_busy fresh_res). split; [|reflexivity].
        simpl. apply list_elem_of_singleton. reflexivity.
    + destruct (settle_segment_polite (next_id m) (Incoming req) (tasks m)
                  (S (next_id m)) (history m) now t (st m) Hall Ht)
        as [Hp (evs & Hh & Hresp)].
      split; [exact Hp|]. exists evs. split; [exact Hh|]. split.
      * intros H. exfalso. exact (no_429_among 429 evs Hresp H).
      * intros (req' & Hreq & Hpath & Hn). injection Hreq as <-. tauto.
  - destruct (take_task id (tasks m)) as [[[src X c k] rest]|] eqn:Htake; [|discriminate].
    destruct (coerce c o) as [v|]; [|discriminate]. injection Hstep as <-.
    destruct (take_task_polite _ _ _ _ _ _ _ Htake Hall) as [Hk Hrest].
    destruct (settle_segment_polite id src rest (next_id m) (history m) now (k v) (st m)
                Hrest (Hk v)) as [Hp (evs & Hh & Hresp)].
    unfold run. split; [exact Hp|]. exists evs. split; [exact Hh|]. split.
    + intros H. exfalso. exact (no_429_among 429 evs Hresp H).
    + intros (req & Hreq & _). discriminate.
  - eapply Hspawn; [| |exact Hstep]; [apply cleanupCache_sends_nothing|discriminate].
  - eapply Hspawn; [| |exact Hstep]; [apply on_signal_sends_nothing|discriminate].
  - destruct (close_callbacks (st m)); [discriminate|].
    eapply Hspawn; [| |exact Hstep]; [apply on_server_closed_sends_nothing|discriminate].
  - destruct (accepting (lifecycle (st m))); [|discriminate].
    eapply Hspawn; [| |exact Hstep]; [apply on_bad_body_not_429|discriminate].
Qed.

Lemma steps_polite env l :
  forall m m', polite m -> steps env l m = Some m' -> polite m'.
Proof.
  induction l as [|[now i] l IH]; intros m m' Hall Hsteps; simpl in Hsteps.
  - injection Hsteps as <-. exact Hall.
  - destruct (step env now i m) as [m1|] eqn:Hstep; [|discriminate].
    apply (IH m1 m'); [|exact Hsteps].
    apply (step_throttle env now i m m1 Hall Hstep).
Qed.

Definition test_image_request : request := Request "GET" "/test-image" None None.

(** Six requests for the test image, none of them answered yet. *)
Definition six_test_images : list (Z * input) :=
  map (fun t => (t, Incoming test_image_request)) [100; 101; 102; 103; 104; 105].

(** C10: a turn of the event loop answers 429 exactly when its input is a
    request whose path is [/html-to-image] and that arrives with the counter
    at or above the ceiling.  A [GET /test-image] is never answered 429 and
    holds one slot of the same counter while it renders; six of them bring
    the counter to 6 with the ceiling at 5, and the next request to
    [/html-to-image] is answered 429. *)
Theorem throttle_only_on_html_to_image :
  (forall env l (m : machine) now i (m' : machine),
     steps env l boot = Some m ->
     step env now i m = Some m' ->
     exists evs,
       history m' = (history m ++ evs)%list
       /\ ((exists r, r ∈ responses evs /\ statusCode (snd r) = 429)
           <-> (exists req, i = Incoming req /\ path req = "/html-to-image"
                            /\ MAX_CONCURRENT env <= activeRequests (st m))))
  /\ (forall env id now h o (s s' : state) evs r,
        0 <= activeRequests s ->
        run id now (app env (Request "GET" "/test-image" h o)) s = (s', evs, r) ->
        all_responses not_429 evs
        /\ match r with
           | Blocked _ _ => activeRequests s' = activeRequests s + 1
           | _ => activeRequests s' = activeRequests s
           end)
  /\ (exists m,
        steps default_env (warm_up ++ six_test_images) boot = Some m
        /\ map (fun r => statusCode (snd r)) (responses (history m)) = [200]
        /\ activeRequests (st m) = 6
        /\ MAX_CONCURRENT default_env = 5
        /\ history <$> step default_env 110 (Incoming request_x) m
           = Some (history m ++ [ESend 8 (server_busy fresh_res)])%list).
Proof.
  split; [|split].
  - intros env l m now i m' Hsteps Hstep.
    assert (polite m) as Hall by (apply (steps_polite env l boot m); [constructor|exact Hsteps]).
    apply (step_throttle env now i m m' Hall Hstep).
  - intros env id now h o s s' evs r Hn Hrun. split.
    + destruct (app_throttles env id now (Request "GET" "/test-image" h o) s)
        as [(Hpath & _)|(_ & t & Ht & Ht')]; [discriminate|].
      rewrite Ht' in Hrun.
      destruct (exec_sends_only not_429 t id now s [] Ht) as (evs' & Hevs & Hresp & _).
      rewrite Hrun in Hevs. simpl in Hevs. subst evs. exact Hresp.
    + pose proof (exec_slot 1 _ s _ id now []
                    (slot_app env (Request "GET" "/test-image" h o) s Hn)) as Hslot.
      unfold run in Hrun. rewrite Hrun in Hslot.
      destruct r; [exact Hslot..|]. apply Hslot.
  - destruct (some_of_evaluation (steps default_env (warm_up ++ six_test_images) boot))
      as [m Hm]; [vm_compute; reflexivity|].
    exists m. split; [exact Hm|].
    split; [by_evaluation Hm; reflexivity|].
    split; [by_evaluation Hm; reflexivity|].
    split; [reflexivity|].
    by_evaluation Hm. reflexivity.
Qed.

(** * Further properties of the server *)

(** ** The periodic sweep *)

Section Sweep.

Context (env : environment).

(** What the loop of [cleanupCache] does to the cache, entry by entry. *)
Definition sweep_entry (now : Z) (c : gmap string CacheEntry) (kd : string * CacheEntry)
    : gmap string CacheEntry :=
  if Z.gtb (now - timestamp (snd kd)) (CACHE_TTL env) then delete (fst kd) c else c.

Definition swept_events (now : Z) (l : list (string * CacheEntry)) : list event :=
  map (fun kd => ECacheDelete (fst kd))
      (List.filter (fun kd => Z.gtb (now - timestamp (snd kd)) (CACHE_TTL env)) l).

Lemma exec_sweep id now (l : list (string * CacheEntry)) :
  forall s evs,
    exec id now
      (for_each l (fun kd =>
         if Z.gtb (now - timestamp (snd kd)) (CACHE_TTL env)
         then perform (ImageCacheDelete (fst kd))
         else Ret tt))
      s evs
    = (with_imageCache (fold_left (sweep_entry now) l (imageCache s)) s,
       (evs ++ swept_events now l)%list, Finished tt).
Proof.
  induction l as [|kd l IH]; intros s evs.
  - simpl. rewrite app_nil_r. destruct s; reflexivity.
  - simpl. unfold swept_events, sweep_entry at 2. simpl.
    destruct (Z.gtb (now - timestamp (snd kd)) (CACHE_TTL env)); simpl.
    + rewrite IH. simpl. rewrite <- app_assoc. reflexivity.
    + apply IH.
Qed.

Lemma sweep_fold_lookup now (l : list (string * CacheEntry)) :
  forall (c : gmap string CacheEntry) k e,
    fold_left (sweep_entry now) l c !! k = Some e <->
    c !! k = Some e /\
    ~ exists e', (k, e') ∈ l /\ CACHE_TTL env < now - timestamp e'.
Proof.
  induction l as [|kd l IH]; intros c k e; simpl.
  - split; [intros H; split; [exact H|]|tauto].
    intros (e' & Hin & _). apply elem_of_nil in Hin. exact Hin.
  - rewrite IH. unfold sweep_entry.
    destruct (Z.gtb_spec (now - timestamp (snd kd)) (CACHE_TTL env)) as [Hold|Hyoung].
    + split.
      * intros [Hk Hno]. apply lookup_delete_Some in Hk as [Hne Hk].
        split; [exact Hk|]. intros (e' & Hin & He').
        apply elem_of_cons in Hin as [Heq|Hin]; [subst kd; apply Hne; reflexivity|].
        apply Hno. eauto.
      * intros [Hk Hno]. split.
        -- apply lookup_delete_Some. split; [|exact Hk].
           intros <-. apply Hno. exists (snd kd). split; [|lia].
           destruct kd. left.
        -- intros (e' & Hin & He'). apply Hno. exists e'. split; [right; exact Hin|exact He'].
    + split.
      * intros [Hk Hno]. split; [exact Hk|]. intros (e' & Hin & He').
        apply elem_of_cons in Hin as [Heq|Hin]; [subst kd; simpl in Hyoung; lia|].
        apply Hno. eauto.
      * intros [Hk Hno]. split; [exact Hk|].
        intros (e' & Hin & He'). apply Hno. exists e'. split; [right; exact Hin|exact He'].
Qed.

Lemma run_cleanupCache id now (s : state) :
  run id now (cleanupCache env) s
  = (with_imageCache
       (filter (fun kd => now - timestamp (snd kd) <= CACHE_TTL env) (imageCache s)) s,
     swept_events now (map_to_list (imageCache s)), Finished tt).
Proof.
  unfold run, cleanupCache. simpl. rewrite exec_sweep. simpl.
  f_equal. f_equal. f_equal. apply map_eq. intros k. apply option_eq. intros e.
  rewrite sweep_fold_lookup, map_lookup_filter_Some. simpl. split.
  - intros [Hk Hno]. split; [exact Hk|].
    destruct (Z.le_gt_cases (now - timestamp e) (CACHE_TTL env)) as [H|H]; [exact H|].
    exfalso. apply Hno. exists e. split; [apply elem_of_map_to_list; exact Hk|lia].
  - intros [Hk Hyoung]. split; [exact Hk|]. intros (e' & Hin & He').
    apply elem_of_map_to_list in Hin. rewrite Hk in Hin. injection Hin as <-. lia.
Qed.

(** X1: [cleanupCache] run at time [now] leaves in the cache exactly the
    entries whose age is at most the TTL, each unchanged; it deletes only
    entries older than the TTL, touches nothing else of the state and ends
    in its own segment. *)
Theorem cleanupCache_keeps_exactly_the_young id now (s : state) :
  exists evs,
    run id now (cleanupCache env) s
    = (with_imageCache
         (filter (fun kd => now - timestamp (snd kd) <= CACHE_TTL env) (imageCache s)) s,
       evs, Finished tt)
    /\ Forall (fun e => exists k, e = ECacheDelete k
                                  /\ exists d, imageCache s !! k = Some d
                                               /\ CACHE_TTL env < now - timestamp d) evs.
Proof.
  exists (swept_events now (map_to_list (imageCache s))). split; [apply run_cleanupCache|].
  unfold swept_events. apply Forall_forall. intros ev Hev.
  apply list_elem_of_fmap in Hev as ([k d] & -> & Hin).
  apply list_elem_of_In, filter_In in Hin as [Hin Hold]. apply list_elem_of_In in Hin.
  exists k. split; [reflexivity|]. exists d. split; [apply elem_of_map_to_list; exact Hin|].
  simpl in Hold. apply Z.gtb_lt in Hold. lia.
Qed.

(** X2: the sweep never removes an entry the lookup would serve: an entry
    younger than the TTL at time [now] is still served, with the same bytes,
    by a lookup made after a sweep at [now]; an entry whose age is exactly
    the TTL survives the sweep although the lookup does not serve it. *)
Theorem sweep_keeps_what_lookup_serves id1 id2 now (html : string) (options : object)
    (s : state) (e : CacheEntry) :
  imageCache s !! generateCacheKey html (JObj options) = Some e ->
  now - timestamp e <= CACHE_TTL env ->
  exists s' evs,
    run id1 now (cleanupCache env) s = (s', evs, Finished tt)
    /\ imageCache s' !! generateCacheKey html (JObj options) = Some e
    /\ (now - timestamp e < CACHE_TTL env ->
        run id2 now (generateImageOptimized env html options) s'
        = (s', [], Finished (buffer e))).
Proof.
  intros He Hage. eexists. eexists. split; [apply run_cleanupCache|].
  assert (filter (fun kd => now - timestamp (snd kd) <= CACHE_TTL env) (imageCache s)
            !! generateCacheKey html (JObj options) = Some e) as Hkept
    by (apply map_lookup_filter_Some; split; assumption).
  split; [exact Hkept|]. intros Hfresh.
  apply lookup_fresh; [exact Hkept|exact Hfresh].
Qed.

End Sweep.

Lemma sweep_keeps_what_lookup_serves_witness :
  exists s' evs,
    run 3 1000 (cleanupCache default_env) one_image = (s', evs, Finished tt)
    /\ imageCache s' !! generateCacheKey "<h1>x</h1>" (JObj [])
       = Some (Entry [Byte.x89; Byte.x50] 0)
    /\ (1000 - timestamp (Entry [Byte.x89; Byte.x50] 0) < CACHE_TTL default_env ->
        run 4 1000 (generateImageOptimized default_env "<h1>x</h1>" []) s'
        = (s', [], Finished (buffer (Entry [Byte.x89; Byte.x50] 0)))).
Proof.
  apply (sweep_keeps_what_lookup_serves default_env 3 4 1000 "<h1>x</h1>" [] one_image
           (Entry [Byte.x89; Byte.x50] 0)).
  - vm_compute. reflexivity.
  - vm_compute. discriminate.
Defined.

(** ** The routes that do not render *)

Arguments html_required : simpl never.
Arguments generation_failed : simpl never.

Section PlainRoutes.

Context (env : environment) (id : nat) (now : Z).

(** X3: [POST /cache-clear] is answered in the turn of its arrival at any
    value of the counter, the ceiling included: it empties the cache and
    reports the number of entries the cache held; the counter and the
    browser are left as they were. *)
Theorem cache_clear_reports_and_empties (h : option string) (o : option object) (s : state) :
  run id now (app env (Request "POST" "/cache-clear" h o)) s
  = (with_imageCache ∅ s,
     [ ECacheClear;
       ESend id (status_json 200
         (JObj [ ("message", JStr "Cache cleared successfully");
                 ("clearedEntries", JNum (Z.of_nat (size (imageCache s))));
                 ("timestamp", JStr (DateFmt.toISOString now)) ])
         fresh_res) ],
     Finished tt).
Proof.
  unfold run, app, routes, post_cache_clear. simpl. rewrite andb_false_r. reflexivity.
Qed.

(** X4: [GET /] is read-only and is never throttled: at any value of the
    counter it is answered 200 with the current [activeRequests], the ceiling
    and the number of cached images, and the state is unchanged. *)
Theorem health_is_read_only (h : option string) (o : option object) (s : state) :
  exists j,
    run id now (app env (Request "GET" "/" h o)) s
    = (s, [ESend id (status_json 200 (JObj j) fresh_res)], Finished tt)
    /\ obj_get "status" j
       = Some (JObj [ ("activeRequests", JNum (activeRequests s));
                      ("maxConcurrent", JNum (MAX_CONCURRENT env));
                      ("cacheSize", JNum (Z.of_nat (size (imageCache s)))) ]).
Proof.
  unfold run, app, routes, get_root. simpl. rewrite andb_false_r. simpl.
  eexists. split; reflexivity.
Qed.

(** X5: below the ceiling, a [POST /html-to-image] without [html], or with
    an empty one, is answered 400 in the turn of its arrival: the counter is
    incremented and decremented in that turn, and neither the cache nor
    Puppeteer is touched. *)
Theorem missing_html_rejected (h : option string) (o : option object) (s : state) :
  activeRequests s < MAX_CONCURRENT env ->
  h = None \/ h = Some EmptyString ->
  run id now (app env (Request "POST" "/html-to-image" h o)) s
  = (with_activeRequests (Z.max 0 (activeRequests s + 1 - 1)) s,
     [ EActiveRequests (activeRequests s + 1);
       ESend id (html_required fresh_res);
       EActiveRequests (Z.max 0 (activeRequests s + 1 - 1)) ],
     Finished tt).
Proof.
  intros Hn [->| ->]; unfold run, app, routes, post_html_to_image; segment; reflexivity.
Qed.

(** X6: a request whose path matches none of the four routes, as Express
    matches them (without regard to case, with an optional trailing slash),
    falls through every route: whatever its method and at any value of the
    counter it is answered 404 in the turn of its arrival, with the security
    headers, and the state is unchanged. *)
Theorem unknown_path_is_404 (req : request) (s : state) :
  allowed_methods (path req) = None ->
  exists body,
    run id now (app env req) s
    = (s, [ESend id (Response 404 security_headers body)], Finished tt).
Proof.
  intros Hnone. pose proof Hnone as Hroutes. unfold allowed_methods in Hroutes.
  destruct (route_matches "/" (path req)) eqn:H1; [discriminate|].
  destruct (route_matches "/test-image" (path req)) eqn:H4; [discriminate|].
  destruct (route_matches "/cache-clear" (path req)) eqn:H2; [discriminate|].
  destruct (route_matches "/html-to-image" (path req)) eqn:H3; [discriminate|].
  assert (String.eqb (path req) "/html-to-image" = false) as Hpath.
  { apply String.eqb_neq. intros Heq. rewrite Heq in H3. vm_compute in H3. discriminate. }
  unfold run, app, routes, unrouted. simpl.
  rewrite Hpath, H1, H2, H3, H4, Hnone, !andb_false_r.
  destruct (String.eqb (method req) "OPTIONS"); eexists; reflexivity.
Qed.

(** X7: the image is cached before the page is closed.  A POST to
    [/html-to-image] arrives below the ceiling, with html within the limit,
    while a browser is stored and the cache has nothing under its key; its
    screenshot succeeds and [page.close()] then rejects.  Whatever the other
    tasks make of the globals while the request is suspended ([s1] to [s5]
    are the states it finds when it resumes): the handler stores the image
    under the key of the request, stamped with the time of the screenshot,
    in the turn of the screenshot and before it calls [page.close()]; after
    the rejection it answers 500 with the message of the rejection, which is
    its only response, decrements the counter as it finds it, and changes
    nothing else of the globals: it does not take the entry back. *)
Theorem failed_close_leaves_image_cached (h : string) (o : option object)
    (s s1 s2 s3 s4 s5 : state) (b : Browser) (p : Page) (img : Buffer) (e : Error)
    (t1 t2 t3 t4 t5 : Z) :
  activeRequests s < MAX_CONCURRENT env ->
  h <> EmptyString ->
  Str.length h <= MAX_HTML_LENGTH ->
  browser s = Some b ->
  imageCache s !! generateCacheKey h (JObj (default [] o)) = None ->
  exists pre,
    drive_among id
      [ (t1, SPage p, s1); (t2, SUnit, s2); (t3, SUnit, s3); (t4, SBuffer img, s4);
        (t5, SReject e, s5) ]
      (run id now (app env (Request "POST" "/html-to-image" (Some h) o)) s)
    = Some (with_activeRequests (Z.max 0 (activeRequests s5 - 1)) s5,
            (pre ++ [ ECacheSet (generateCacheKey h (JObj (default [] o))) (Entry img t4);
                      ECall id (PageClose p);
                      ESend id (generation_failed e (t5 - now) t5 fresh_res);
                      EActiveRequests (Z.max 0 (activeRequests s5 - 1)) ])%list,
            Finished tt)
    /\ responses pre = [].
Proof.
  intros Hn Hne Hlen Hb Hmiss. unfold MAX_HTML_LENGTH in Hlen.
  destruct h as [|c h]; [congruence|].
  unfold run, app, routes, post_html_to_image, generateImageOptimized, render, initBrowser,
    MAX_HTML_LENGTH.
  repeat (progress (simpl; rewrite ?Hmiss, ?Hb; decide_tests)).
  eexists [_; _; _; _; _]. split; reflexivity.
Qed.

End PlainRoutes.

Lemma missing_html_rejected_witness :
  run 1 20 (app default_env (Request "POST" "/html-to-image" None None)) idle
  = (with_activeRequests (Z.max 0 (activeRequests idle + 1 - 1)) idle,
     [ EActiveRequests (activeRequests idle + 1);
       ESend 1 (html_required fresh_res);
       EActiveRequests (Z.max 0 (activeRequests idle + 1 - 1)) ],
     Finished tt).
Proof.
  apply (missing_html_rejected default_env 1 20 None None idle).
  - vm_compute. reflexivity.
  - left. reflexivity.
Defined.

Lemma unknown_path_is_404_witness :
  exists body,
    run 1 20 (app default_env (Request "GET" "/favicon.ico" None None)) idle
    = (idle, [ESend 1 (Response 404 security_headers body)], Finished tt).
Proof.
  apply (unknown_path_is_404 default_env 1 20 (Request "GET" "/favicon.ico" None None) idle).
  vm_compute. reflexivity.
Defined.

Lemma failed_close_leaves_image_cached_witness :
  exists pre,
    drive_among 1
      [ (30, SPage 7, with_activeRequests 2 idle); (40, SUnit, idle); (50, SUnit, idle);
        (60, SBuffer [Byte.x89; Byte.x50], idle);
        (70, SReject "Target closed", with_activeRequests 3 one_image) ]
      (run 1 20 (app default_env request_x) idle)
    = Some (with_activeRequests (Z.max 0 (activeRequests (with_activeRequests 3 one_image) - 1))
              (with_activeRequests 3 one_image),
            (pre ++ [ ECacheSet (generateCacheKey "<h1>x</h1>" (JObj (default [] None)))
                        (Entry [Byte.x89; Byte.x50] 60);
                      ECall 1 (PageClose 7);
                      ESend 1 (generation_failed "Target closed" (70 - 20) 70 fresh_res);
                      EActiveRequests
                        (Z.max 0 (activeRequests (with_activeRequests 3 one_image) - 1)) ])%list,
            Finished tt)
    /\ responses pre = [].
Proof.
  apply (failed_close_leaves_image_cached default_env 1 20 "<h1>x</h1>" None idle
           (with_activeRequests 2 idle) idle idle idle (with_activeRequests 3 one_image)
           1%nat 7%nat [Byte.x89; Byte.x50] "Target closed" 30 40 50 60 70).
  - vm_compute. reflexivity.
  - discriminate.
  - vm_compute. discriminate.
  - reflexivity.
  - vm_compute. reflexivity.
Defined.

(** ** What the tasks of a run can emit *)

(** [emits_only P id t]: every event task [t] can emit as task [id]
    satisfies [P], whatever the state and however its promises settle.  An
    exception that reaches the top of the task ends the process with code
    1. *)
Fixpoint emits_only {R} (P : event -> Prop) (id : nat) (t : Task R) : Prop :=
  match t with
  | Ret _ => True
  | Throw _ => P (EExit 1)
  | Exit code => P (EExit code)
  | Do o k => Forall P (emit id o) /\ forall x, emits_only P id (k x)
  | Await c k => P (ECall id c) /\ forall v, emits_only P id (k v)
  end.

Lemma exec_emits_only {R} (P : event -> Prop) (id : nat) (t : Task R) :
  forall now s evs,
    emits_only P id t ->
    exists evs',
      snd (fst (exec id now t s evs)) = (evs ++ evs')%list
      /\ Forall P evs'
      /\ match snd (exec id now t s evs) with
         | Blocked _ k => forall v, emits_only P id (k v)
         | Failed _ => P (EExit 1)
         | _ => True
         end.
Proof.
  induction t as [r|e|code|X o k IH|X c k IH]; intros now s evs Hp; simpl.
  - exists []. rewrite app_nil_r. repeat split; constructor.
  - exists []. rewrite app_nil_r. repeat split; [constructor|exact Hp].
  - exists [EExit code]. repeat split. repeat constructor. exact Hp.
  - destruct Hp as [Hemit Hk].
    destruct (IH _ now (fst (exec_op now o s)) (evs ++ emit id o)%list
                (Hk (snd (exec_op now o s))))
      as (evs' & Hevs & Hall & Hblocked).
    exists (emit id o ++ evs')%list. split; [rewrite Hevs, app_assoc; reflexivity|].
    split; [apply Forall_app; split; assumption|exact Hblocked].
  - destruct Hp as [Hc Hk]. exists [ECall id c].
    repeat split; [repeat constructor; exact Hc|exact Hk].
Qed.

Section Emission.

Context (env : environment) (P : event -> Prop) (allowed : input -> bool).

(** An input of the run is allowed; the settlement of a promise always is. *)
Definition permitted (i : input) : Prop :=
  match i with
  | Settle _ _ => True
  | _ => allowed i = true
  end.

Hypothesis started_emit :
  forall i id, allowed i = true -> emits_only P id (task_of env i).

Definition emitting_task (t : nat * suspended) : Prop :=
  match t with
  | (id, Suspended _ _ k) => forall v, emits_only P id (k v)
  end.

Definition emitting (m : machine) : Prop :=
  Forall emitting_task (tasks m) /\ Forall P (history m).

Lemma settle_segment_emitting id src ts next h now (t : Task unit) s :
  Forall emitting_task ts -> Forall P h ->
  emits_only P id t ->
  emitting (settle_segment id src ts next h (exec id now t s [])).
Proof.
  intros Hall Hh Ht.
  destruct (exec_emits_only P id t now s [] Ht) as (evs & Hevs & Hp & Hk).
  unfold emitting, settle_segment.
  destruct (exec id now t s []) as [[s' evs'] [r|e| |X c k]]; simpl in *; subst evs'.
  - split; [exact Hall|apply Forall_app; split; assumption].
  - split; [exact Hall|]. apply Forall_app. split; [exact Hh|].
    apply Forall_app. split; [exact Hp|repeat constructor; exact Hk].
  - split; [exact Hall|apply Forall_app; split; assumption].
  - split; [|apply Forall_app; split; assumption].
    apply Forall_app. split; [exact Hall|]. apply Forall_cons. split; [exact Hk|constructor].
Qed.

Lemma take_task_emitting id ts src X (c : call X) k rest :
  take_task id ts = Some (Suspended src c k, rest) ->
  Forall emitting_task ts ->
  (forall v, emits_only P id (k v)) /\ Forall emitting_task rest.
Proof.
  revert rest. induction ts as [|[id' t'] ts IH]; intros rest Htake Hall;
    simpl in Htake; [discriminate|].
  apply Forall_cons in Hall as [Ht Hall].
  destruct (Nat.eqb_spec id id') as [->|Hne].
  - injection Htake as -> <-. split; assumption.
  - destruct (take_task id ts) as [[t'' rest'']|]; [|discriminate].
    injection Htake as -> <-. destruct (IH rest'' eq_refl Hall) as [Hk Hrest].
    split; [exact Hk|]. apply Forall_cons. split; assumption.
Qed.

Lemma step_emitting now i (m m' : machine) :
  permitted i -> emitting m -> step env now i m = Some m' -> emitting m'.
Proof.
  intros Hi [Hall Hh] Hstep. unfold step in Hstep.
  destruct (exit_code (st m)); [discriminate|].
  destruct i as [|req|id o| |sig| |e]; simpl in Hi.
  - destruct (lifecycle (st m)); try discriminate. injection Hstep as <-.
    apply settle_segment_emitting; [assumption..|]. apply (started_emit Listening _ Hi).
  - destruct (accepting (lifecycle (st m))); [|discriminate]. injection Hstep as <-.
    apply settle_segment_emitting; [assumption..|]. apply (started_emit (Incoming req) _ Hi).
  - destruct (take_task id (tasks m)) as [[[src X c k] rest]|] eqn:Htake; [|discriminate].
    destruct (coerce c o) as [v|]; [|discriminate]. injection Hstep as <-.
    destruct (take_task_emitting _ _ _ _ _ _ _ Htake Hall) as [Hk Hrest].
    apply settle_segment_emitting; [assumption..|]. apply Hk.
  - injection Hstep as <-.
    apply settle_segment_emitting; [assumption..|]. apply (started_emit CleanupTimer _ Hi).
  - injection Hstep as <-.
    apply settle_segment_emitting; [assumption..|]. apply (started_emit (Signal sig) _ Hi).
  - destruct (close_callbacks (st m)); [discriminate|]. injection Hstep as <-.
    apply settle_segment_emitting; [assumption..|]. apply (started_emit ServerClosed _ Hi).
  - destruct (accepting (lifecycle (st m))); [|discriminate]. injection Hstep as <-.
    apply settle_segment_emitting; [assumption..|]. apply (started_emit (BadBody e) _ Hi).
Qed.

(** In a run of allowed inputs every event satisfies [P]. *)
Lemma steps_emitting (l : list (Z * input)) :
  forall m m',
    Forall (fun x => permitted (snd x)) l -> emitting m ->
    steps env l m = Some m' -> emitting m'.
Proof.
  induction l as [|[now i] l IH]; intros m m' Hl Hinv Hsteps; simpl in Hsteps.
  - injection Hsteps as <-. exact Hinv.
  - apply Forall_cons in Hl as [Hi Hl].
    destruct (step env now i m) as [m1|] eqn:Hstep; [|discriminate].
    apply (IH m1 m' Hl); [|exact Hsteps]. apply (step_emitting now i m m1 Hi Hinv Hstep).
Qed.

Lemma boot_emitting : emitting boot.
Proof. split; constructor. Qed.

End Emission.

Ltac emits_step :=
  match goal with
  | |- forall _, _ => intro
  | |- _ /\ _ => split
  | |- True => exact I
  | |- Forall _ [] => constructor
  | |- Forall _ (_ :: _) => apply Forall_cons
  | |- emits_only _ _ ?t =>
      match t with
      | context [match ?x with _ => _ end] => destruct x
      | context [if ?x then _ else _] => destruct x
      end
  | |- emits_only _ _ _ => progress simpl
  end.

Ltac emits_tac := repeat emits_step.

Lemma sweep_emits P id (env : environment) (now : Z) (l : list (string * CacheEntry)) :
  (forall k, P (ECacheDelete k)) ->
  emits_only P id
    (for_each l (fun kd =>
       if Z.gtb (now - timestamp (snd kd)) (CACHE_TTL env)
       then perform (ImageCacheDelete (fst kd))
       else Ret tt)).
Proof.
  intros Hp. induction l as [|kd l IH]; simpl; [exact I|].
  destruct (Z.gtb (now - timestamp (snd kd)) (CACHE_TTL env)); simpl.
  - split; [repeat constructor; apply Hp|]. intros _. exact IH.
  - exact IH.
Qed.

Lemma cleanupCache_emits P id (env : environment) :
  (forall k, P (ECacheDelete k)) -> emits_only P id (cleanupCache env).
Proof.
  intros Hp. unfold cleanupCache. simpl. split; [constructor|]. intros now.
  split; [constructor|]. intros l. apply sweep_emits, Hp.
Qed.

(** ** The shape of the responses *)

(** A property of every response among some events. *)
Definition on_send (Q : response -> Prop) (e : event) : Prop :=
  match e with
  | ESend _ r => Q r
  | _ => True
  end.

Lemma all_responses_on_send Q evs : Forall (on_send Q) evs -> all_responses Q evs.
Proof.
  unfold all_responses, responses. induction evs as [|e evs IH]; intros Hall; simpl.
  - constructor.
  - apply Forall_cons in Hall as [He Hall].
    destruct e; simpl; try (apply IH; exact Hall).
    apply Forall_cons. split; [exact He|apply IH; exact Hall].
Qed.

(** The response still carries the four headers of the first middleware. *)
Definition secured (r : response) : Prop :=
  Forall (fun nv => getHeader (fst nv) r = Some (snd nv)) security_headers.

(** An image is sent with status 200, the length of its bytes and an image
    type. *)
Definition well_framed (r : response) : Prop :=
  match body r with
  | Image b =>
      statusCode r = 200
      /\ getHeader "Content-Length" r = Some (pretty (Z.of_nat (List.length b)))
      /\ getHeader "Content-Type" r ∈ [Some "image/png"; Some "image/jpeg"; Some "image/webp"]
  | _ => True
  end.

(** What holds of every response: it carries the security headers, unless
    it is the answer of the error handler of Express to a body the parsers
    rejected, and it is well framed. *)
Definition sound_response (r : response) : Prop :=
  ((exists e, r = bad_body_response e) \/ secured r) /\ well_framed r.

Lemma image_response_sound o b t has : sound_response (image_response o b t has fresh_res).
Proof.
  split.
  - right. unfold secured. repeat constructor.
  - unfold well_framed. simpl. split; [reflexivity|]. split; [reflexivity|].
    unfold getHeader. simpl.
    destruct (is_string _ "jpeg"); [|destruct (is_string _ "webp")]; simpl;
      set_solver.
Qed.

Lemma status_json_sound code j : sound_response (status_json code j fresh_res).
Proof. split; [right; unfold secured; repeat constructor|exact I]. Qed.

Lemma test_image_sound (b : Buffer) (name time : string) :
  sound_response
    (send_buffer b
       (setHeader "X-Processing-Time" time
          (setHeader "Content-Length" (pretty (Z.of_nat (List.length b)))
             (setHeader "Content-Disposition" name
                (setHeader "Content-Type" "image/png" fresh_res))))).
Proof.
  split.
  - right. unfold secured. repeat constructor.
  - unfold well_framed. simpl. split; [reflexivity|]. split; [reflexivity|].
    unfold getHeader. simpl. set_solver.
Qed.

Arguments unrouted : simpl never.

Lemma unrouted_sound (req : request) : sound_response (unrouted req fresh_res).
Proof.
  unfold unrouted.
  destruct (if String.eqb (method req) "OPTIONS" then allowed_methods (path req) else None);
    (split; [right; unfold secured; repeat constructor|exact I]).
Qed.

Lemma bad_body_response_sound e : sound_response (bad_body_response e).
Proof. split; [left; exists e; reflexivity|exact I]. Qed.

Ltac sound_leaf :=
  cbv beta iota delta [on_send];
  lazymatch goal with
  | |- True => exact I
  | |- sound_response (image_response _ _ _ _ _) => apply image_response_sound
  | |- sound_response (send_buffer _ _) => apply test_image_sound
  | |- sound_response (unrouted _ _) => apply unrouted_sound
  | |- sound_response (bad_body_response _) => apply bad_body_response_sound
  | |- sound_response (status_json _ _ _) => apply status_json_sound
  | |- sound_response (server_busy _) => unfold server_busy; apply status_json_sound
  | |- sound_response (html_required _) => unfold html_required; apply status_json_sound
  | |- sound_response (html_too_large _ _) => unfold html_too_large; apply status_json_sound
  | |- sound_response (generation_failed _ _ _ _) =>
      unfold generation_failed; apply status_json_sound
  end.

Section Shape.

Context (env : environment).

Lemma app_emits_sound id (req : request) :
  emits_only (on_send sound_response) id (app env req).
Proof.
  unfold app, routes, get_root, post_cache_clear, post_html_to_image, get_test_image,
    generateImageOptimized, render, initBrowser, enter, leave.
  emits_tac; sound_leaf.
Qed.

Lemma on_listening_emits_sound id : emits_only (on_send sound_response) id (on_listening env).
Proof. unfold on_listening, initBrowser. emits_tac; exact I. Qed.

Lemma on_server_closed_emits_sound id :
  emits_only (on_send sound_response) id on_server_closed.
Proof. unfold on_server_closed. emits_tac; exact I. Qed.

Lemma started_emits_sound i id :
  emits_only (on_send sound_response) id (task_of env i).
Proof.
  destruct i as [|req|id' o| |sig| |e]; simpl task_of.
  - apply on_listening_emits_sound.
  - apply app_emits_sound.
  - exact I.
  - apply cleanupCache_emits. intros k. exact I.
  - unfold on_signal. emits_tac; exact I.
  - apply on_server_closed_emits_sound.
  - unfold on_bad_body. emits_tac; sound_leaf.
Qed.

Lemma steps_sound (l : list (Z * input)) (m : machine) :
  steps env l boot = Some m -> all_responses sound_response (history m).
Proof.
  intros Hsteps. apply all_responses_on_send.
  refine (proj2 (steps_emitting env (on_send sound_response) (fun _ => true) _ l boot m
                   _ (boot_emitting _) Hsteps)).
  - intros i id _. apply started_emits_sound.
  - apply Forall_forall. intros [now i] _. destruct i; reflexivity.
Qed.

End Shape.

(** X8: in every run of the server from its start, whatever the requests,
    the settlements of the promises, the timers and the signals, each
    response that was sent carries the four headers the first middleware
    sets, with its values, unless it is the answer of the error handler of
    Express to a request whose body the parsers of lines 25-26 rejected: the
    parsers are registered before the middleware of the headers, and past
    that middleware no route removes or overrides one of the four. *)
Theorem every_response_keeps_security_headers env (l : list (Z * input)) (m : machine)
    (id : nat) (r : response) :
  steps env l boot = Some m ->
  (id, r) ∈ responses (history m) ->
  (exists e, r = bad_body_response e)
  \/ (forall name value,
        (name, value) ∈ security_headers -> getHeader name r = Some value).
Proof.
  intros Hsteps Hin.
  pose proof (steps_sound env l m Hsteps) as Hall.
  unfold all_responses in Hall. rewrite Forall_forall in Hall.
  destruct (Hall (id, r) Hin) as [[Hbad|Hsecured] _]; [left; exact Hbad|right].
  intros name value Hheader.
  unfold secured in Hsecured. rewrite Forall_forall in Hsecured.
  apply (Hsecured (name, value) Hheader).
Qed.

(** A run with a request whose body is not JSON, a rendered request, a
    request without html, and a request whose page cannot be opened. *)
Definition mixed_run_with_bad_body : list (Z * input) :=
  [ (0, Listening); (10, Settle 0 (SBrowser 1)); (15, BadBody BadRequest);
    (20, Incoming request_x); (30, Settle 2 (SPage 7)); (40, Settle 2 SUnit);
    (50, Settle 2 SUnit); (60, Settle 2 (SBuffer [Byte.x89; Byte.x50]));
    (70, Settle 2 SUnit);
    (80, Incoming (Request "POST" "/html-to-image" None None));
    (90, Incoming (Request "POST" "/html-to-image" (Some "<p>a</p>") None));
    (100, Settle 4 (SReject "Protocol error")) ].

Lemma every_response_keeps_security_headers_witness :
  exists m r,
    steps default_env mixed_run_with_bad_body boot = Some m
    /\ map (fun x => (statusCode (snd x), getHeader "X-Frame-Options" (snd x)))
           (responses (history m))
       = [ (400, None); (200, Some "DENY"); (400, Some "DENY"); (500, Some "DENY") ]
    /\ responses (history m) !! 3%nat = Some (4%nat, r)
    /\ ((exists e, r = bad_body_response e)
        \/ (forall name value,
              (name, value) ∈ security_headers -> getHeader name r = Some value)).
Proof.
  destruct (some_of_evaluation (steps default_env mixed_run_with_bad_body boot)) as [m Hm];
    [vm_compute; reflexivity|].
  destruct (responses (history m) !! 3%nat) as [[id r]|] eqn:Hr;
    [|exfalso; revert Hr; by_evaluation Hm; discriminate].
  assert (id = 4%nat) as ->.
  { change id with (fst (id, r)).
    apply (holds_of_some (fun x => fst x = 4%nat) _ _ Hr).
    by_evaluation Hm. reflexivity. }
  exists m, r. split; [exact Hm|]. split; [by_evaluation Hm; reflexivity|].
  split; [exact Hr|].
  apply (every_response_keeps_security_headers default_env mixed_run_with_bad_body m 4 r).
  - exact Hm.
  - apply (list_elem_of_lookup_2 _ 3%nat). exact Hr.
Defined.

(** X9: in every run of the server from its start, a response whose body is
    an image has status 200, a [Content-Length] that is the number of bytes
    of the image and a [Content-Type] among [image/png], [image/jpeg] and
    [image/webp]: no error status is sent with an image, on either route
    that renders. *)
Theorem images_are_well_framed env (l : list (Z * input)) (m : machine)
    (id : nat) (r : response) (b : Buffer) :
  steps env l boot = Some m ->
  (id, r) ∈ responses (history m) ->
  body r = Image b ->
  statusCode r = 200
  /\ getHeader "Content-Length" r = Some (pretty (Z.of_nat (List.length b)))
  /\ getHeader "Content-Type" r ∈ [Some "image/png"; Some "image/jpeg"; Some "image/webp"].
Proof.
  intros Hsteps Hin Hbody.
  pose proof (steps_sound env l m Hsteps) as Hall.
  unfold all_responses in Hall. rewrite Forall_forall in Hall.
  destruct (Hall (id, r) Hin) as [_ Hframed].
  unfold well_framed in Hframed. simpl in Hframed. rewrite Hbody in Hframed.
  exact Hframed.
Qed.

Lemma images_are_well_framed_witness :
  exists m r,
    steps default_env warm_up boot = Some m
    /\ responses (history m) !! 0%nat = Some (1%nat, r)
    /\ body r = Image [Byte.x89; Byte.x50]
    /\ statusCode r = 200
    /\ getHeader "Content-Length" r
       = Some (pretty (Z.of_nat (List.length [Byte.x89; Byte.x50])))
    /\ getHeader "Content-Type" r ∈ [Some "image/png"; Some "image/jpeg"; Some "image/webp"].
Proof.
  destruct (some_of_evaluation (steps default_env warm_up boot)) as [m Hm];
    [vm_compute; reflexivity|].
  destruct (responses (history m) !! 0%nat) as [[id r]|] eqn:Hr;
    [|exfalso; revert Hr; by_evaluation Hm; discriminate].
  assert (id = 1%nat /\ body r = Image [Byte.x89; Byte.x50]) as [-> Hbody].
  { change id with (fst (id, r)). change r with (snd (id, r)) at 2.
    apply (holds_of_some
             (fun x => fst x = 1%nat /\ body (snd x) = Image [Byte.x89; Byte.x50]) _ _ Hr).
    by_evaluation Hm. split; reflexivity. }
  exists m, r. split; [exact Hm|]. split; [exact Hr|]. split; [exact Hbody|].
  apply (images_are_well_framed default_env warm_up m 1 r [Byte.x89; Byte.x50]).
  - exact Hm.
  - apply (list_elem_of_lookup_2 _ 0%nat). exact Hr.
  - exact Hbody.
Defined.

(** ** What ends the process *)

(** Neither an end of the process nor a call of [browser.close()]. *)
Definition stays_up (e : event) : Prop :=
  match e with
  | EExit _ => False
  | ECall _ c => match c with BrowserClose _ => False | _ => True end
  | _ => True
  end.

Definition before_close (i : input) : bool :=
  match i with
  | ServerClosed => false
  | _ => true
  end.

Lemma exec_op_exit_code now {X} (o : op X) (s : state) :
  exit_code (fst (exec_op now o s)) = exit_code s.
Proof. destruct o; reflexivity. Qed.

Lemma exec_stays_up {R} id (t : Task R) :
  forall now s evs,
    exit_code s = None ->
    Forall stays_up (snd (fst (exec id now t s evs))) ->
    exit_code (fst (fst (exec id now t s evs))) = None.
Proof.
  induction t as [r|e|code|X o k IH|X c k IH]; intros now s evs Hs Hall; simpl in *.
  - exact Hs.
  - exact Hs.
  - apply Forall_app in Hall as [_ Hall]. apply Forall_cons in Hall as [[] _].
  - apply IH; [rewrite exec_op_exit_code; exact Hs|exact Hall].
  - exact Hs.
Qed.

Lemma settle_segment_stays_up id src ts next h now (t : Task unit) s :
  exit_code s = None ->
  Forall stays_up (history (settle_segment id src ts next h (exec id now t s []))) ->
  exit_code (st (settle_segment id src ts next h (exec id now t s []))) = None.
Proof.
  intros Hs Hall.
  pose proof (exec_stays_up id t now s [] Hs) as Hexec.
  unfold settle_segment in *.
  destruct (exec id now t s []) as [[s' evs] [r|e| |X c k]]; simpl in *;
    apply Forall_app in Hall as [_ Hall].
  - apply Hexec, Hall.
  - apply Forall_app in Hall as [_ Hall]. apply Forall_cons in Hall as [[] _].
  - apply Hexec, Hall.
  - apply Hexec, Hall.
Qed.

Lemma step_stays_up env now i (m m' : machine) :
  step env now i m = Some m' ->
  Forall stays_up (history m') ->
  exit_code (st m') = None.
Proof.
  intros Hstep Hall. unfold step in Hstep.
  destruct (exit_code (st m)) eqn:Hexit; [discriminate|].
  destruct i as [|req|id o| |sig| |e].
  - destruct (lifecycle (st m)); try discriminate. injection Hstep as <-.
    apply settle_segment_stays_up; [exact Hexit|exact Hall].
  - destruct (accepting (lifecycle (st m))); [|discriminate]. injection Hstep as <-.
    apply settle_segment_stays_up; [exact Hexit|exact Hall].
  - destruct (take_task id (tasks m)) as [[[src X c k] rest]|]; [|discriminate].
    destruct (coerce c o) as [v|]; [|discriminate]. injection Hstep as <-.
    apply settle_segment_stays_up; [exact Hexit|exact Hall].
  - injection Hstep as <-. apply settle_segment_stays_up; [exact Hexit|exact Hall].
  - injection Hstep as <-. apply settle_segment_stays_up; [exact Hexit|exact Hall].
  - destruct (close_callbacks (st m)); [discriminate|]. injection Hstep as <-.
    apply settle_segment_stays_up; [exact Hexit|exact Hall].
  - destruct (accepting (lifecycle (st m))); [|discriminate]. injection Hstep as <-.
    apply settle_segment_stays_up; [exact Hexit|exact Hall].
Qed.

Section StayingUp.

Context (env : environment).

Lemma started_stays_up i id :
  before_close i = true -> emits_only stays_up id (task_of env i).
Proof.
  destruct i as [|req|id' o| |sig| |e]; simpl task_of; intros Hi.
  - unfold on_listening, initBrowser. emits_tac; exact I.
  - unfold app, routes, get_root, post_cache_clear, post_html_to_image, get_test_image,
      generateImageOptimized, render, initBrowser, enter, leave.
    emits_tac; exact I.
  - exact I.
  - apply cleanupCache_emits. intros k. exact I.
  - unfold on_signal. emits_tac; exact I.
  - discriminate.
  - unfold on_bad_body. emits_tac; exact I.
Qed.

Lemma steps_stay_up (l : list (Z * input)) :
  forall m m',
    Forall (fun x => snd x <> ServerClosed) l ->
    emitting stays_up m -> exit_code (st m) = None ->
    steps env l m = Some m' ->
    emitting stays_up m' /\ exit_code (st m') = None.
Proof.
  induction l as [|[now i] l IH]; intros m m' Hl Hinv Hexit Hsteps; simpl in Hsteps.
  - injection Hsteps as <-. split; assumption.
  - apply Forall_cons in Hl as [Hi Hl]. simpl in Hi.
    destruct (step env now i m) as [m1|] eqn:Hstep; [|discriminate].
    assert (emitting stays_up m1) as Hinv1.
    { apply (step_emitting env stays_up before_close started_stays_up now i m m1);
        [|exact Hinv|exact Hstep].
      destruct i; simpl; try reflexivity; try exact I; congruence. }
    apply (IH m1 m' Hl Hinv1); [|exact Hsteps].
    apply (step_stays_up env now i m m1 Hstep). apply Hinv1.
Qed.

End StayingUp.

(** X10: as long as the callback given to [server.close] has not run, the
    process has not ended and [browser.close()] has not been called: no
    request, warm-up, sweep or signal handler calls [process.exit] or closes
    the shared browser, and none lets a rejection escape, however the
    promises of Puppeteer settle. *)
Theorem only_the_close_callback_ends_the_process env (l : list (Z * input)) (m : machine) :
  steps env l boot = Some m ->
  Forall (fun x => snd x <> ServerClosed) l ->
  exit_code (st m) = None /\ Forall stays_up (history m).
Proof.
  intros Hsteps Hl.
  destruct (steps_stay_up env l boot m Hl (boot_emitting _) eq_refl Hsteps)
    as [[_ Hall] Hexit].
  split; assumption.
Qed.

Lemma only_the_close_callback_ends_the_process_witness :
  exists m,
    steps default_env (mixed_run ++ [(110, Signal SIGTERM)]) boot = Some m
    /\ map (fun r => statusCode (snd r)) (responses (history m)) = [200; 400; 500]
    /\ exit_code (st m) = None /\ Forall stays_up (history m).
Proof.
  destruct (some_of_evaluation
              (steps default_env (mixed_run ++ [(110, Signal SIGTERM)]) boot)) as [m Hm];
    [vm_compute; reflexivity|].
  exists m. split; [exact Hm|]. split; [by_evaluation Hm; reflexivity|].
  apply (only_the_close_callback_ends_the_process default_env
           (mixed_run ++ [(110, Signal SIGTERM)]) m).
  - exact Hm.
  - unfold mixed_run, warm_up. simpl. repeat constructor; discriminate.
Defined.

(** X11: when [browser.close()] rejects during the shutdown, nothing catches
    the rejection: from any state the server can reach with a browser
    stored and the callback of [server.close] pending, the callback clears
    the cache and calls [browser.close()], and the rejection ends the
    process with code 1; [process.exit(0)] is not reached. *)
Theorem failed_browser_close_exits_with_1 env (l : list (Z * input)) (m : machine)
    (b : Browser) (e : Error) (t1 t2 : Z) :
  steps env l boot = Some m ->
  exit_code (st m) = None ->
  close_callbacks (st m) <> O ->
  browser (st m) = Some b ->
  exists m',
    steps env [(t1, ServerClosed); (t2, Settle (next_id m) (SReject e))] m = Some m'
    /\ history m'
       = (history m ++ [ECacheClear; ECall (next_id m) (BrowserClose b); EExit 1])%list
    /\ imageCache (st m') = ∅
    /\ exit_code (st m') = Some 1.
Proof.
  intros Hsteps Hexit Hcb Hb.
  pose proof (steps_fresh env l boot m boot_fresh Hsteps) as Hfresh.
  unfold fresh_ids in Hfresh.
  destruct (close_callbacks (st m)) as [|n] eqn:Hn; [congruence|].
  cbn [steps].
  replace (step env t1 ServerClosed m)
    with (Some (spawn t1 ServerClosed on_server_closed
                  (with_close_callbacks n (with_lifecycle Closed (st m))) m))
    by (unfold step; rewrite Hexit, Hn; reflexivity).
  unfold spawn, run, on_server_closed. simpl. rewrite Hb. simpl.
  unfold step. simpl. rewrite Hexit.
  rewrite take_task_last; [|exact Hfresh].
  simpl. eexists. split; [reflexivity|]. simpl.
  split; [rewrite <- app_assoc; reflexivity|]. split; reflexivity.
Qed.

Lemma failed_browser_close_exits_with_1_witness :
  exists m,
    steps default_env (warm_up ++ [(100, Signal SIGINT)]) boot = Some m
    /\ exists m',
    steps default_env [(110, ServerClosed); (120, Settle (next_id m) (SReject "Target closed"))] m
       = Some m'
    /\ history m'
       = (history m ++ [ECacheClear; ECall (next_id m) (BrowserClose 1%nat); EExit 1])%list
    /\ imageCache (st m') = ∅
    /\ exit_code (st m') = Some 1.
Proof.
  destruct (some_of_evaluation (steps default_env (warm_up ++ [(100, Signal SIGINT)]) boot))
    as [m Hm]; [vm_compute; reflexivity|].
  exists m. split; [exact Hm|].
  apply (failed_browser_close_exits_with_1 default_env (warm_up ++ [(100, Signal SIGINT)])
           m 1%nat "Target closed" 110 120).
  - exact Hm.
  - by_evaluation Hm. reflexivity.
  - by_evaluation Hm. discriminate.
  - by_evaluation Hm. reflexivity.
Defined.

(** ** One answer for each request *)

(** [finishes t]: task [t] ends in this segment and sends nothing more. *)
Fixpoint finishes {R} (t : Task R) : Prop :=
  match t with
  | Ret _ | Throw _ | Exit _ => True
  | Do o k =>
      match o in op X return (X -> Task R) -> Prop with
      | Send _ => fun _ => False
      | _ => fun k => forall x, finishes (k x)
      end k
  | Await _ _ => False
  end.

(** [answers_once t]: however its promises settle, task [t] sends one
    response, after its last [await], and then ends. *)
Fixpoint answers_once {R} (t : Task R) : Prop :=
  match t with
  | Ret _ | Throw _ | Exit _ => False
  | Do o k =>
      match o in op X return (X -> Task R) -> Prop with
      | Send _ => fun k => finishes (k tt)
      | _ => fun k => forall x, answers_once (k x)
      end k
  | Await _ k => forall v, answers_once (k v)
  end.

Definition silent {R} (t : Task R) : Prop := sends_only (fun _ => False) t.

Lemma exec_finishes {R} (t : Task R) :
  forall id now s evs,
    finishes t ->
    exists evs',
      snd (fst (exec id now t s evs)) = (evs ++ evs')%list
      /\ responses evs' = []
      /\ match snd (exec id now t s evs) with
         | Blocked _ _ => False
         | _ => True
         end.
Proof.
  induction t as [r|e|code|X o k IH|X c k IH]; intros id now s evs Hp; simpl.
  - exists []. rewrite app_nil_r. repeat split.
  - exists []. rewrite app_nil_r. repeat split.
  - exists [EExit code]. repeat split.
  - assert (finishes (k (snd (exec_op now o s))) /\ responses (emit id o) = [])
      as [Hk Hemit] by (destruct o; simpl in *; first [contradiction|split; [apply Hp|reflexivity]]).
    destruct (IH _ id now (fst (exec_op now o s)) (evs ++ emit id o)%list Hk)
      as (evs' & Hevs & Hresp & Hblocked).
    exists (emit id o ++ evs')%list. split; [rewrite Hevs, app_assoc; reflexivity|].
    split; [rewrite responses_app, Hemit, Hresp; reflexivity|exact Hblocked].
  - contradiction.
Qed.

Lemma exec_answers_once {R} (t : Task R) :
  forall id now s evs,
    answers_once t ->
    exists evs',
      snd (fst (exec id now t s evs)) = (evs ++ evs')%list
      /\ match snd (exec id now t s evs) with
         | Blocked _ k => responses evs' = [] /\ forall v, answers_once (k v)
         | _ => exists r, responses evs' = [(id, r)]
         end.
Proof.
  induction t as [r|e|code|X o k IH|X c k IH]; intros id now s evs Hp; simpl;
    try contradiction.
  - assert ((answers_once (k (snd (exec_op now o s))) /\ responses (emit id o) = [])
            \/ (finishes (k (snd (exec_op now o s)))
                /\ exists r, responses (emit id o) = [(id, r)])) as [[Hk Hemit]|[Hk [r Hemit]]]
      by (destruct o; simpl in *;
          first [ left; split; [apply Hp|reflexivity]
                | right; split; [exact Hp|eexists; reflexivity] ]).
    + destruct (IH _ id now (fst (exec_op now o s)) (evs ++ emit id o)%list Hk)
        as (evs' & Hevs & Hres).
      exists (emit id o ++ evs')%list. split; [rewrite Hevs, app_assoc; reflexivity|].
      rewrite responses_app, Hemit. exact Hres.
    + destruct (exec_finishes _ id now (fst (exec_op now o s)) (evs ++ emit id o)%list Hk)
        as (evs' & Hevs & Hresp & Hblocked).
      exists (emit id o ++ evs')%list. split; [rewrite Hevs, app_assoc; reflexivity|].
      rewrite responses_app, Hemit, Hresp.
      destruct (snd (exec id now (k (snd (exec_op now o s))) (fst (exec_op now o s))
                       (evs ++ emit id o)%list)); try contradiction; exists r; reflexivity.
  - exists [ECall id c]. split; [reflexivity|]. split; [reflexivity|exact Hp].
Qed.

Lemma exec_silent {R} (t : Task R) :
  forall id now s,
    silent t ->
    exists evs',
      snd (fst (exec id now t s [])) = evs'
      /\ responses evs' = []
      /\ match snd (exec id now t s []) with
         | Blocked _ k => forall v, silent (k v)
         | _ => True
         end.
Proof.
  intros id now s Hp.
  destruct (exec_sends_only _ t id now s [] Hp) as (evs' & Hevs & Hresp & Hblocked).
  exists evs'. split; [exact Hevs|]. split; [|exact Hblocked].
  unfold all_responses in Hresp. destruct (responses evs') as [|x l]; [reflexivity|].
  apply Forall_cons in Hresp as [[] _].
Qed.

(** The arrival of a request, whether or not the body parsers accept it. *)
Definition is_incoming (i : input) : bool :=
  match i with
  | Incoming _ | BadBody _ => true
  | _ => false
  end.

(** What a task still has to do, by the input that started it. *)
Definition answering (src : input) (t : Task unit) : Prop :=
  if is_incoming src then answers_once t else silent t.

Definition answering_task (t : nat * suspended) : Prop :=
  match t with
  | (_, Suspended src _ k) => forall v, answering src (k v)
  end.

(** The invariant of the event loop: the suspended tasks have distinct
    identities and have not answered, each response comes from a task that
    ended, no two from the same task, and the responses and the requests
    being rendered are [n] together. *)
Record answered (n : Z) (m : machine) : Prop := Answered {
  answered_tasks : Forall answering_task (tasks m);
  answered_distinct : NoDup (map fst (tasks m));
  answered_fresh : Forall (fun t => (fst t < next_id m)%nat) (tasks m);
  answered_ended :
    Forall (fun x => (fst x < next_id m)%nat /\ (fst x ∉ map fst (tasks m)))
           (responses (history m));
  answered_once : NoDup (map fst (responses (history m)));
  answered_count : Z.of_nat (List.length (responses (history m))) + in_flight m = n
}.

Lemma take_task_Permutation id ts t rest :
  take_task id ts = Some (t, rest) -> ts ≡ₚ (id, t) :: rest.
Proof.
  revert rest. induction ts as [|[id' t'] ts IH]; intros rest Htake; simpl in Htake;
    [discriminate|].
  destruct (Nat.eqb_spec id id') as [Heq|Hne].
  - injection Htake as -> <-. rewrite Heq. reflexivity.
  - destruct (take_task id ts) as [[t'' rest'']|]; [|discriminate].
    injection Htake as -> <-. rewrite (IH rest'' eq_refl). apply Permutation_swap.
Qed.

Lemma settle_segment_answered id src ts next h now (t : Task unit) s :
  Forall answering_task ts ->
  NoDup (map fst ts) ->
  Forall (fun t => (fst t < next)%nat) ts ->
  (id < next)%nat ->
  id ∉ map fst ts ->
  Forall (fun x => (fst x < next)%nat /\ (fst x ∉ map fst ts) /\ fst x <> id) (responses h) ->
  NoDup (map fst (responses h)) ->
  answering src t ->
  answered (Z.of_nat (List.length (responses h)) + flying ts + holds src)
           (settle_segment id src ts next h (exec id now t s [])).
Proof.
  intros Hall Hdistinct Hfresh Hid Hnotin Hended Honce Ht.
  assert (Forall (fun x => (fst x < next)%nat /\ (fst x ∉ map fst ts)) (responses h)) as Hended'
    by (eapply Forall_impl; [exact Hended|]; simpl; tauto).
  assert (exists evs,
            snd (fst (exec id now t s [])) = evs
            /\ match snd (exec id now t s []) with
               | Blocked _ k => responses evs = [] /\ forall v, answering src (k v)
               | _ => if is_incoming src then exists r, responses evs = [(id, r)]
                      else responses evs = []
               end) as (evs & Hevs & Hres).
  { unfold answering in *. destruct (is_incoming src).
    - destruct (exec_answers_once t id now s [] Ht) as (evs & Hevs & Hres).
      exists evs. split; [exact Hevs|exact Hres].
    - destruct (exec_silent t id now s Ht) as (evs & Hevs & Hresp & Hres).
      exists evs. split; [exact Hevs|].
      destruct (snd (exec id now t s [])); try exact Hresp. split; assumption. }
  assert (forall r, responses evs = [(id, r)] ->
            Forall (fun x => (fst x < next)%nat /\ (fst x ∉ map fst ts))
                   (responses (h ++ evs))
            /\ NoDup (map fst (responses (h ++ evs)))) as Hsent.
  { intros r Hr. rewrite responses_app, Hr. split.
    - apply Forall_app. split; [exact Hended'|]. repeat constructor; assumption.
    - rewrite map_app. apply NoDup_app. split; [exact Honce|]. split.
      + intros x Hx Hx'. simpl in Hx'. apply list_elem_of_singleton in Hx'. subst x.
        apply list_elem_of_fmap in Hx as ([id' r'] & Hid' & Hin). simpl in Hid'. subst id'.
        rewrite Forall_forall in Hended. destruct (Hended _ Hin) as (_ & _ & Hne).
        apply Hne. reflexivity.
      + simpl. apply NoDup_singleton. }
  assert (responses evs = [] ->
            Forall (fun x => (fst x < next)%nat /\ (fst x ∉ map fst ts))
                   (responses (h ++ evs))
            /\ NoDup (map fst (responses (h ++ evs)))
            /\ List.length (responses (h ++ evs)) = List.length (responses h)) as Hquiet.
  { intros Hr. rewrite responses_app, Hr, app_nil_r. repeat split; assumption. }
  assert (forall r, responses evs = [(id, r)] ->
            Z.of_nat (List.length (responses (h ++ evs)))
            = Z.of_nat (List.length (responses h)) + 1) as Hone.
  { intros r Hr. rewrite responses_app, Hr, length_app. simpl. lia. }
  unfold settle_segment.
  destruct (exec id now t s []) as [[s' evs'] res]; simpl in Hevs, Hres; subst evs'.
  assert (forall s1 evs1,
            responses evs1 = responses (h ++ evs) ->
            (if is_incoming src then exists r, responses evs = [(id, r)]
             else responses evs = []) ->
            answered (Z.of_nat (List.length (responses h)) + flying ts + holds src)
                     (Machine s1 ts next evs1)) as Hdone.
  { intros s1 evs1 Heq Hr. destruct src; simpl in Hr |- *;
      try (destruct (Hquiet Hr) as (H1 & H2 & H3);
           constructor; simpl; rewrite ?Heq, ?in_flight_flying; simpl;
           try assumption; lia).
    all: destruct Hr as [r Hr]; destruct (Hsent r Hr) as [H1 H2];
      constructor; simpl; rewrite ?Heq, ?in_flight_flying; simpl; try assumption;
      rewrite (Hone r Hr); lia. }
  destruct res as [r|e| |X c k].
  - apply Hdone; [reflexivity|exact Hres].
  - apply Hdone; [|exact Hres].
    rewrite app_assoc, responses_app. simpl. apply app_nil_r.
  - apply Hdone; [reflexivity|exact Hres].
  - destruct Hres as [Hr Hk]. destruct (Hquiet Hr) as (H1 & H2 & H3).
    constructor; simpl.
    + apply Forall_app. split; [exact Hall|]. apply Forall_cons. split; [exact Hk|constructor].
    + rewrite map_app. apply NoDup_app. split; [exact Hdistinct|]. split.
      * intros x Hx Hx'. simpl in Hx'. apply list_elem_of_singleton in Hx'. subst x.
        contradiction.
      * simpl. apply NoDup_singleton.
    + apply Forall_app. split; [exact Hfresh|]. repeat constructor. exact Hid.
    + rewrite responses_app, Hr, app_nil_r.
      rewrite Forall_forall in Hended |- *. intros x Hx.
      destruct (Hended x Hx) as (Hlt & Hnot & Hne). split; [exact Hlt|].
      rewrite map_app. simpl. intros Hin. apply elem_of_app in Hin as [Hin|Hin];
        [contradiction|]. apply list_elem_of_singleton in Hin. contradiction.
    + exact H2.
    + rewrite in_flight_flying. simpl. rewrite flying_snoc, H3. lia.
Qed.

Ltac answers_step :=
  match goal with
  | |- forall _, _ => intro
  | |- True => exact I
  | |- answers_once ?t =>
      match t with
      | context [match ?x with _ => _ end] => destruct x
      | context [if ?x then _ else _] => destruct x
      end
  | |- finishes ?t =>
      match t with
      | context [match ?x with _ => _ end] => destruct x
      | context [if ?x then _ else _] => destruct x
      end
  | |- answers_once _ => progress simpl
  | |- finishes _ => progress simpl
  end.

Ltac answers_tac := repeat answers_step.

Section Answers.

Context (env : environment).

Lemma app_answers_once (req : request) : answers_once (app env req).
Proof.
  unfold app, routes, get_root, post_cache_clear, post_html_to_image, get_test_image,
    generateImageOptimized, render, initBrowser, enter, leave.
  answers_tac.
Qed.

Lemma started_answering (i : input) : answering i (task_of env i).
Proof.
  destruct i as [|req|id o| |sig| |e]; unfold answering, silent, is_incoming, task_of.
  - apply on_listening_sends_nothing.
  - apply app_answers_once.
  - exact I.
  - apply cleanupCache_sends_nothing.
  - apply on_signal_sends_nothing.
  - apply on_server_closed_sends_nothing.
  - unfold on_bad_body. answers_tac.
Qed.

Lemma spawn_answered n now src s (m : machine) :
  answered n m ->
  answered (n + holds src) (spawn now src (task_of env src) s m).
Proof.
  intros [Hall Hdistinct Hfresh Hended Honce Hcount]. unfold spawn, run.
  replace n with (Z.of_nat (List.length (responses (history m))) + flying (tasks m))
    by (rewrite <- in_flight_flying; exact Hcount).
  assert (next_id m ∉ map fst (tasks m)) as Hnotin.
  { intros Hin. apply list_elem_of_fmap in Hin as (t & Hid & Hin).
    rewrite Forall_forall in Hfresh. specialize (Hfresh t Hin). lia. }
  apply settle_segment_answered; try assumption.
  - eapply Forall_impl; [exact Hfresh|]. simpl. intros; lia.
  - lia.
  - eapply Forall_impl; [exact Hended|]. simpl. intros x [Hlt Hnot].
    split; [lia|]. split; [exact Hnot|lia].
  - apply started_answering.
Qed.

Lemma step_answered n now i (m m' : machine) :
  answered n m -> step env now i m = Some m' -> answered (n + holds i) m'.
Proof.
  intros Hinv Hstep. unfold step in Hstep.
  destruct (exit_code (st m)); [discriminate|].
  destruct i as [|req|id o| |sig| |e].
  - destruct (lifecycle (st m)); try discriminate. injection Hstep as <-.
    apply (spawn_answered n now Listening _ m Hinv).
  - destruct (accepting (lifecycle (st m))); [|discriminate]. injection Hstep as <-.
    apply (spawn_answered n now (Incoming req) _ m Hinv).
  - destruct (take_task id (tasks m)) as [[[src X c k] rest]|] eqn:Htake; [|discriminate].
    destruct (coerce c o) as [v|]; [|discriminate]. injection Hstep as <-.
    destruct Hinv as [Hall Hdistinct Hfresh Hended Honce Hcount].
    pose proof (take_task_Permutation _ _ _ _ Htake) as Hperm.
    destruct (take_task_flying _ _ _ _ _ _ _ Htake) as [Hfly _].
    rewrite Hperm in Hall, Hfresh. rewrite Hperm in Hdistinct.
    apply Forall_cons in Hall as [Hk Hall]. apply Forall_cons in Hfresh as [Hid Hfresh].
    simpl in Hdistinct. apply NoDup_cons in Hdistinct as [Hnotin Hdistinct].
    simpl holds. rewrite Z.add_0_r.
    replace n with (Z.of_nat (List.length (responses (history m))) + flying rest + holds src)
      by (rewrite <- Hcount, in_flight_flying, Hfly; lia).
    unfold run. apply settle_segment_answered; try assumption.
    + eapply Forall_impl; [exact Hended|]. simpl. intros x [Hlt Hnot].
      split; [exact Hlt|]. rewrite Hperm in Hnot. simpl in Hnot.
      rewrite not_elem_of_cons in Hnot. tauto.
    + apply Hk.
  - injection Hstep as <-. apply (spawn_answered n now CleanupTimer _ m Hinv).
  - injection Hstep as <-. apply (spawn_answered n now (Signal sig) _ m Hinv).
  - destruct (close_callbacks (st m)); [discriminate|]. injection Hstep as <-.
    apply (spawn_answered n now ServerClosed _ m Hinv).
  - destruct (accepting (lifecycle (st m))); [|discriminate]. injection Hstep as <-.
    apply (spawn_answered n now (BadBody e) _ m Hinv).
Qed.

Lemma steps_answered (l : list (Z * input)) :
  forall n m m',
    answered n m -> steps env l m = Some m' ->
    answered (n + Z.of_nat (List.length (List.filter (fun x => is_incoming (snd x)) l))) m'.
Proof.
  induction l as [|[now i] l IH]; intros n m m' Hinv Hsteps; simpl in Hsteps.
  - injection Hsteps as <-. simpl. rewrite Z.add_0_r. exact Hinv.
  - destruct (step env now i m) as [m1|] eqn:Hstep; [|discriminate].
    pose proof (IH _ m1 m' (step_answered n now i m m1 Hinv Hstep) Hsteps) as Hinv'.
    replace (n + Z.of_nat (List.length (List.filter (fun x => is_incoming (snd x))
                                          ((now, i) :: l))))
      with (n + holds i
            + Z.of_nat (List.length (List.filter (fun x => is_incoming (snd x)) l)));
      [exact Hinv'|].
    simpl. destruct i; simpl; lia.
Qed.

Lemma boot_answered : answered 0 boot.
Proof. constructor; simpl; try constructor. Qed.

End Answers.

(** X12: in every run of the server from its start, each request that
    arrived has been answered once or is still being rendered: no task has
    sent two responses, and the responses sent and the requests in flight
    are together as many as the requests that arrived.  This holds on every
    path through the routes, the 429 and 404 included, and however the
    promises of Puppeteer settle. *)
Theorem every_request_answered_once env (l : list (Z * input)) (m : machine) :
  steps env l boot = Some m ->
  NoDup (map fst (responses (history m)))
  /\ Z.of_nat (List.length (responses (history m))) + in_flight m
     = Z.of_nat (List.length (List.filter (fun x => is_incoming (snd x)) l)).
Proof.
  intros Hsteps.
  destruct (steps_answered env l 0 boot m (boot_answered) Hsteps)
    as [_ _ _ _ Honce Hcount].
  split; [exact Honce|exact Hcount].
Qed.

Lemma every_request_answered_once_witness :
  exists m,
    steps default_env (mixed_run ++ six_test_images) boot = Some m
    /\ map fst (responses (history m)) = [1; 2; 3]%nat
    /\ in_flight m = 6
    /\ NoDup (map fst (responses (history m)))
    /\ Z.of_nat (List.length (responses (history m))) + in_flight m
       = Z.of_nat (List.length
                     (List.filter (fun x => is_incoming (snd x))
                                  (mixed_run ++ six_test_images))).
Proof.
  destruct (some_of_evaluation (steps default_env (mixed_run ++ six_test_images) boot))
    as [m Hm]; [vm_compute; reflexivity|].
  exists m. split; [exact Hm|]. split; [by_evaluation Hm; reflexivity|].
  split; [by_evaluation Hm; reflexivity|].
  apply (every_request_answered_once default_env (mixed_run ++ six_test_images) m Hm).
Defined.

(** ** The ceiling on concurrent renders *)

(** [never_waits t]: task [t] ends in the segment it starts in. *)
Fixpoint never_waits {R} (t : Task R) : Prop :=
  match t with
  | Ret _ | Throw _ | Exit _ => True
  | Do _ k => forall x, never_waits (k x)
  | Await _ _ => False
  end.

Lemma exec_never_waits {R} (P : Prop) (t : Task R) :
  forall id now s evs,
    never_waits t ->
    match snd (exec id now t s evs) with
    | Blocked _ _ => P
    | _ => True
    end.
Proof.
  induction t as [r|e|code|X o k IH|X c k IH]; intros id now s evs Hp; simpl;
    try exact I.
  - apply IH, Hp.
  - contradiction.
Qed.

(** A request that reaches a route that renders without having been put to
    the test of the throttling middleware: a [GET] or [HEAD] of the test
    image, or a [POST] that Express routes to [/html-to-image] although its
    [req.path] is not that very string (another case, a trailing slash). *)
Definition unthrottled (i : input) : bool :=
  match i with
  | Incoming req =>
      is_get (method req) && route_matches "/test-image" (path req)
      || String.eqb (method req) "POST" && route_matches "/html-to-image" (path req)
         && negb (String.eqb (path req) "/html-to-image")
  | _ => false
  end.

Lemma settle_segment_tasks id src ts next h (r : state * list event * result unit) :
  tasks (settle_segment id src ts next h r)
  = match snd r with
    | Blocked c k => (ts ++ [(id, Suspended src c k)])%list
    | _ => ts
    end.
Proof. destruct r as [[s evs] [r|e| |X c k]]; reflexivity. Qed.

Section Ceiling.

Context (env : environment).

(** A request that is put to the test of the throttling middleware is
    suspended only if it arrived with the counter below the ceiling. *)
Lemma app_admits id now (req : request) (s : state) :
  unthrottled (Incoming req) = false ->
  match snd (run id now (app env req) s) with
  | Blocked _ _ => activeRequests s < MAX_CONCURRENT env
  | _ => True
  end.
Proof.
  intros Hreq. simpl in Hreq. apply orb_false_iff in Hreq as [Htest Hpost].
  unfold run, app, perform.
  cbn [exec bind exec_op emit fst snd app].
  assert (forall r, never_waits (Do (Send r) (@Ret unit))) as Hsend
    by (intros r x; exact I).
  assert (never_waits (get_root env fresh_res)) as Hroot
    by (unfold get_root; simpl; intros; exact I).
  assert (never_waits (post_cache_clear fresh_res)) as Hclear
    by (unfold post_cache_clear; simpl; intros; exact I).
  destruct (Z.geb (activeRequests s) (MAX_CONCURRENT env)
            && String.eqb (path req) "/html-to-image") eqn:Hbusy;
    [apply exec_never_waits, Hsend|].
  unfold routes.
  destruct (is_get (method req) && route_matches "/" (path req));
    [apply exec_never_waits, Hroot|].
  destruct (String.eqb (method req) "POST" && route_matches "/cache-clear" (path req));
    [apply exec_never_waits, Hclear|].
  destruct (String.eqb (method req) "POST" && route_matches "/html-to-image" (path req))
    eqn:Hroute.
  - simpl in Hpost. apply negb_false_iff in Hpost.
    rewrite Hpost, andb_true_r, Z.geb_leb in Hbusy. apply Z.leb_gt in Hbusy.
    destruct (snd _); try exact I. lia.
  - rewrite Htest. apply exec_never_waits, Hsend.
Qed.

(** The counter is the number of requests being rendered and is within the
    ceiling. *)
Definition within_ceiling (m : machine) : Prop :=
  counted 0 m /\ activeRequests (st m) <= Z.max 0 (MAX_CONCURRENT env).

Lemma flying_settle_segment id src ts next h (r : state * list event * result unit) :
  flying (tasks (settle_segment id src ts next h r))
  = flying ts + match snd r with Blocked _ _ => holds src | _ => 0 end.
Proof.
  rewrite settle_segment_tasks. destruct (snd r); rewrite ?flying_snoc; lia.
Qed.

Lemma step_within_ceiling now i (m m' : machine) :
  unthrottled i = false ->
  within_ceiling m -> step env now i m = Some m' -> within_ceiling m'.
Proof.
  intros Hi [Hinv Hle] Hstep.
  pose proof (step_counted env 0 now i m m' (Z.le_refl 0) Hinv Hstep) as Hinv'.
  split; [exact Hinv'|].
  destruct Hinv as [_ Hc]. destruct Hinv' as [_ Hc'].
  rewrite Hc'. rewrite in_flight_flying in Hc, Hc' |- *.
  assert (forall src t s,
            holds src = 0 -> 0 + flying (tasks (spawn now src t s m))
                             <= Z.max 0 (MAX_CONCURRENT env)) as Hspawn.
  { intros src t s Hsrc. unfold spawn. rewrite flying_settle_segment, Hsrc.
    destruct (snd _); lia. }
  unfold step in Hstep.
  destruct (exit_code (st m)); [discriminate|].
  destruct i as [|req|id o| |sig| |e].
  - destruct (lifecycle (st m)); try discriminate. injection Hstep as <-.
    apply Hspawn. reflexivity.
  - destruct (accepting (lifecycle (st m))); [|discriminate]. injection Hstep as <-.
    unfold spawn. rewrite flying_settle_segment.
    pose proof (app_admits (next_id m) now req (st m) Hi) as Hadmit.
    destruct (snd (run (next_id m) now (app env req) (st m))); simpl holds; lia.
  - destruct (take_task id (tasks m)) as [[[src X c k] rest]|] eqn:Htake; [|discriminate].
    destruct (coerce c o) as [v|]; [|discriminate]. injection Hstep as <-.
    destruct (take_task_flying _ _ _ _ _ _ _ Htake) as [Hfly _].
    rewrite flying_settle_segment. pose proof (holds_range src).
    destruct (snd _); lia.
  - injection Hstep as <-. apply Hspawn. reflexivity.
  - injection Hstep as <-. apply Hspawn. reflexivity.
  - destruct (close_callbacks (st m)); [discriminate|]. injection Hstep as <-.
    apply Hspawn. reflexivity.
  - destruct (accepting (lifecycle (st m))); [|discriminate]. injection Hstep as <-.
    unfold spawn. rewrite flying_settle_segment.
    pose proof (exec_never_waits False (on_bad_body e) (next_id m) now (st m) []) as Hquick.
    unfold run. destruct (snd _); try lia. exfalso. apply Hquick. intros x. exact I.
Qed.

Lemma steps_within_ceiling (l : list (Z * input)) :
  forall m m',
    forallb (fun x => negb (unthrottled (snd x))) l = true ->
    within_ceiling m -> steps env l m = Some m' -> within_ceiling m'.
Proof.
  induction l as [|[now i] l IH]; intros m m' Hl Hinv Hsteps; simpl in Hsteps.
  - injection Hsteps as <-. exact Hinv.
  - simpl in Hl. apply andb_prop in Hl as [Hi Hl]. apply negb_true_iff in Hi.
    destruct (step env now i m) as [m1|] eqn:Hstep; [|discriminate].
    apply (IH m1 m' Hl); [|exact Hsteps].
    apply (step_within_ceiling now i m m1 Hi Hinv Hstep).
Qed.

Lemma boot_within_ceiling : within_ceiling boot.
Proof.
  split; [split; [constructor|reflexivity]|]. simpl. lia.
Qed.

End Ceiling.

(** X13: in every run of the server from its start in which every request
    that reaches a route that renders was put to the test of the throttling
    middleware (no [GET] or [HEAD] of the test image, and no [POST] routed
    to [/html-to-image] whose [req.path] is spelt otherwise), the counter of
    active requests is the number of requests being rendered and never
    exceeds the ceiling [MAX_CONCURRENT] (never exceeds 0 if the ceiling is
    negative), however the renders overlap, succeed or fail. *)
Theorem ceiling_holds_for_throttled_requests env (l : list (Z * input)) (m : machine) :
  steps env l boot = Some m ->
  forallb (fun x => negb (unthrottled (snd x))) l = true ->
  activeRequests (st m) = in_flight m
  /\ in_flight m <= Z.max 0 (MAX_CONCURRENT env).
Proof.
  intros Hsteps Hl.
  destruct (steps_within_ceiling env l boot m Hl (boot_within_ceiling env) Hsteps)
    as [[_ Hc] Hle].
  split; lia.
Qed.

Lemma ceiling_holds_for_throttled_requests_witness :
  exists m,
    steps default_env (warm_up ++ five_in_flight ++ [(90, Incoming request_x)]) boot
    = Some m
    /\ map (fun r => statusCode (snd r)) (responses (history m)) = [200; 429]
    /\ in_flight m = 5
    /\ activeRequests (st m) = in_flight m
    /\ in_flight m <= Z.max 0 (MAX_CONCURRENT default_env).
Proof.
  destruct (some_of_evaluation
              (steps default_env (warm_up ++ five_in_flight ++ [(90, Incoming request_x)])
                     boot)) as [m Hm]; [vm_compute; reflexivity|].
  exists m. split; [exact Hm|]. split; [by_evaluation Hm; reflexivity|].
  split; [by_evaluation Hm; reflexivity|].
  apply (ceiling_holds_for_throttled_requests default_env
           (warm_up ++ five_in_flight ++ [(90, Incoming request_x)]) m Hm).
  vm_compute. reflexivity.
Defined.

(** The requests the hypothesis leaves out do pass the ceiling: six requests
    to [/html-to-image/], which Express routes to the handler and the
    throttling middleware does not recognise, are all being rendered with
    the ceiling at 5. *)
Example trailing_slash_passes_the_ceiling :
  (fun m => (in_flight m, activeRequests (st m),
             List.length (responses (history m))))
    <$> steps default_env
          (warm_up ++
           map (fun h => (80, Incoming (Request "POST" "/html-to-image/" (Some h) None)))
               ["<p>a</p>"; "<p>b</p>"; "<p>c</p>"; "<p>d</p>"; "<p>e</p>"; "<p>f</p>"])
          boot
  = Some (6, 6, 1%nat).
Proof. vm_compute. reflexivity. Qed.

(** ** The form of the cache key *)

Definition is_hex_digit (c : ascii) : bool :=
  existsb (Ascii.eqb c) (list_ascii_of_string "0123456789abcdef").

Lemma length_append (s1 s2 : string) :
  Str.length (s1 ++ s2) = Str.length s1 + Str.length s2.
Proof.
  induction s1 as [|c s1 IH];
    [change (Str.length EmptyString) with 0; change (EmptyString ++ s2) with s2; lia|].
  change (String c s1 ++ s2) with (String c (s1 ++ s2)).
  rewrite !length_String, IH. lia.
Qed.

Lemma hex_digit_is_hex (n : Z) : is_hex_digit (Str.hex_digit n) = true.
Proof.
  unfold Str.hex_digit.
  destruct n as [|p|p]; try reflexivity.
  do 4 (destruct p as [p|p|]; try reflexivity).
Qed.

Lemma units_hex_digit (n : Z) : Str.units (Str.hex_digit n) = 1.
Proof.
  unfold Str.hex_digit.
  destruct n as [|p|p]; try reflexivity.
  do 4 (destruct p as [p|p|]; try reflexivity).
Qed.

Lemma length_le_bytes (n : nat) (x : Z) : List.length (MD5.le_bytes n x) = n.
Proof.
  revert x. induction n as [|n IH]; intros x; simpl; [reflexivity|]. rewrite IH. reflexivity.
Qed.

Lemma length_digest (msg : list Z) : List.length (MD5.digest msg) = 16%nat.
Proof.
  unfold MD5.digest. cbv zeta. rewrite !length_app, !length_le_bytes. reflexivity.
Qed.

Lemma hex_bytes_form (l : list Z) :
  Str.length (fold_right (fun b acc => Str.hex_byte b ++ acc) EmptyString l)
  = 2 * Z.of_nat (List.length l)
  /\ forallb is_hex_digit
       (list_ascii_of_string
          (fold_right (fun b acc => Str.hex_byte b ++ acc) EmptyString l)) = true.
Proof.
  induction l as [|b l [IHlen IHhex]]; [split; reflexivity|].
  cbn [fold_right]. unfold Str.hex_byte at 1 3.
  change (String ?a (String ?b EmptyString) ++ ?s) with (String a (String b s)).
  split.
  - rewrite !length_String, !units_hex_digit, IHlen. cbn [List.length]. lia.
  - cbn [list_ascii_of_string forallb]. rewrite !hex_digit_is_hex, IHhex. reflexivity.
Qed.

(** X14: whatever the html and the options, the cache key is 32 characters
    long and each of them is a lower-case hexadecimal digit. *)
Theorem generateCacheKey_is_32_hex_digits (html : string) (options : json) :
  Str.length (generateCacheKey html options) = 32
  /\ forallb is_hex_digit (list_ascii_of_string (generateCacheKey html options)) = true.
Proof.
  unfold generateCacheKey, MD5.hex. cbv zeta.
  destruct (hex_bytes_form (MD5.digest (Str.bytes (html ++ JSON.stringify options))))
    as [Hlen Hhex].
  rewrite length_digest in Hlen. split; [exact Hlen|exact Hhex].
Qed.

(** ** The options of a render *)

Lemma obj_get_obj_set (k k' : string) (v : json) (o : object) :
  obj_get k (obj_set k' v o) = if String.eqb k k' then Some v else obj_get k o.
Proof.
  induction o as [|[k1 v1] o IH]; simpl.
  - reflexivity.
  - destruct (String.eqb_spec k' k1) as [Heq|Hne]; simpl.
    + rewrite <- Heq. destruct (String.eqb k k'); reflexivity.
    + rewrite IH. destruct (String.eqb_spec k k1) as [Heq'|Hne'].
      * rewrite Heq'. destruct (String.eqb_spec k1 k'); [congruence|reflexivity].
      * reflexivity.
Qed.

(** X15: in the object spread [{ ...a, ...b }] a property of [b] overrides
    the property of [a] with the same name, and every other property of [a]
    is kept: the options of a request replace the defaults field by field,
    and the defaults fill what the request leaves out. *)
Theorem spread_overrides_field_by_field (a b : object) (k : string) :
  well_formed b ->
  obj_get k (obj_spread a b)
  = match obj_get k b with
    | Some v => Some v
    | None => obj_get k a
    end.
Proof.
  unfold well_formed, obj_spread. revert a.
  induction b as [|[k1 v1] b IH]; intros a Hnd; simpl; [reflexivity|].
  apply NoDup_cons in Hnd as [Hk1 Hnd].
  rewrite (IH _ Hnd), obj_get_obj_set.
  destruct (String.eqb_spec k k1) as [Heq|Hne]; [|reflexivity].
  rewrite Heq, (obj_get_absent k1 b Hk1). reflexivity.
Qed.

Lemma spread_overrides_field_by_field_witness :
  well_formed size_800x600
  /\ obj_get "width" (obj_spread imageOptions size_800x600) = Some (JNum 800)
  /\ obj_get "timeout" (obj_spread imageOptions size_800x600) = Some (JNum 25000).
Proof.
  split; [exact well_formed_800x600|].
  split.
  - rewrite (spread_overrides_field_by_field imageOptions size_800x600 "width"
               well_formed_800x600).
    reflexivity.
  - reflexivity.
Defined.

(** ** A ceiling that is not positive *)



(** ** Pages are closed *)

(** The pages a task has worked on and not passed to [page.close()], after
    it awaits [c]. *)
Definition after_call {X} (c : call X) (pending : list Page) : list Page :=
  match c with
  | SetViewport p _ | SetContent p _ _ _ | Screenshot p _ =>
      p :: List.filter (fun q => negb (Nat.eqb q p)) pending
  | PageClose p => List.filter (fun q => negb (Nat.eqb q p)) pending
  | _ => pending
  end.

Definition track (id : nat) (pending : list Page) (e : event) : list Page :=
  match e with
  | ECall id' c => if Nat.eqb id' id then after_call c pending else pending
  | _ => pending
  end.

(** The pages task [id] has left open, by the events of a run. *)
Definition unreleased (id : nat) (evs : list event) : list Page :=
  fold_left (track id) evs [].

(** The page and the task of a call that works on a page. *)
Definition used_page (e : event) : option (nat * Page) :=
  match e with
  | ECall id c =>
      match c with
      | SetViewport p _ | SetContent p _ _ _ | Screenshot p _ => Some (id, p)
      | _ => None
      end
  | _ => None
  end.

(** [releases pending t]: however its promises settle, task [t], with the
    pages [pending] open, ends with no page open. *)
Fixpoint releases {R} (pending : list Page) (t : Task R) : Prop :=
  match t with
  | Ret _ | Throw _ | Exit _ => pending = []
  | Do _ k => forall x, releases pending (k x)
  | Await c k => forall v, releases (after_call c pending) (k v)
  end.

Lemma track_emit id id' {X} (o : op X) (pending : list Page) :
  fold_left (track id') (emit id o) pending = pending.
Proof. destruct o; reflexivity. Qed.

Lemma exec_releases {R} (t : Task R) :
  forall id now s evs pending,
    releases pending t ->
    exists evs',
      snd (fst (exec id now t s evs)) = (evs ++ evs')%list
      /\ (forall id' q, id' <> id -> fold_left (track id') evs' q = q)
      /\ match snd (exec id now t s evs) with
         | Blocked _ k => forall v, releases (fold_left (track id) evs' pending) (k v)
         | _ => fold_left (track id) evs' pending = []
         end.
Proof.
  induction t as [r|e|code|X o k IH|X c k IH]; intros id now s evs pending Hp; simpl.
  - exists []. rewrite app_nil_r. repeat split. exact Hp.
  - exists []. rewrite app_nil_r. repeat split. exact Hp.
  - exists [EExit code]. repeat split. exact Hp.
  - destruct (IH (snd (exec_op now o s)) id now (fst (exec_op now o s))
                (evs ++ emit id o)%list pending (Hp _))
      as (evs' & Hevs & Hother & Hres).
    exists (emit id o ++ evs')%list. split; [rewrite Hevs, app_assoc; reflexivity|].
    split.
    + intros id' q Hne. rewrite fold_left_app, track_emit. apply Hother, Hne.
    + rewrite fold_left_app, track_emit. exact Hres.
  - exists [ECall id c]. split; [reflexivity|]. split.
    + intros id' q Hne. simpl. destruct (Nat.eqb_spec id id'); [congruence|reflexivity].
    + simpl. rewrite Nat.eqb_refl. exact Hp.
Qed.

Definition released_task (h : list event) (t : nat * suspended) : Prop :=
  match t with
  | (id, Suspended _ _ k) => forall v, releases (unreleased id h) (k v)
  end.

(** The invariant of the event loop: each suspended task will close the
    pages it has open, and the tasks that ended have none open. *)
Definition released (m : machine) : Prop :=
  Forall (released_task (history m)) (tasks m)
  /\ forall id, id ∉ map fst (tasks m) -> unreleased id (history m) = [].

Lemma unreleased_app id h evs :
  unreleased id (h ++ evs) = fold_left (track id) evs (unreleased id h).
Proof. unfold unreleased. apply fold_left_app. Qed.

Lemma settle_segment_released id src ts next h now (t : Task unit) s :
  id ∉ map fst ts ->
  Forall (released_task h) ts ->
  (forall id', id' <> id -> id' ∉ map fst ts -> unreleased id' h = []) ->
  releases (unreleased id h) t ->
  released (settle_segment id src ts next h (exec id now t s [])).
Proof.
  intros Hnotin Hall Hended Ht.
  destruct (exec_releases t id now s [] _ Ht) as (evs & Hevs & Hother & Hres).
  simpl in Hevs.
  assert (forall tail, (forall id' q, fold_left (track id') tail q = q) ->
            Forall (released_task (h ++ evs ++ tail)) ts) as Hrest.
  { intros tail Htail. rewrite Forall_forall in Hall |- *.
    intros [id' [src' X c k]] Hin v. simpl.
    rewrite app_assoc, !unreleased_app, Htail, Hother; [apply (Hall _ Hin)|].
    intros Heq. apply Hnotin. rewrite <- Heq.
    apply list_elem_of_fmap. exists (id', Suspended src' c k). split; [reflexivity|exact Hin]. }
  assert (forall tail, (forall id' q, fold_left (track id') tail q = q) ->
            fold_left (track id) evs (unreleased id h) = [] ->
            forall id', id' ∉ map fst ts -> unreleased id' (h ++ evs ++ tail) = [])
    as Hdone.
  { intros tail Htail Hres' id' Hid'. rewrite app_assoc, !unreleased_app, Htail.
    destruct (Nat.eq_dec id' id) as [->|Hne]; [exact Hres'|].
    rewrite Hother; [apply Hended; assumption|exact Hne]. }
  unfold settle_segment, released.
  destruct (exec id now t s []) as [[s' evs'] [r|e| |X c k]]; simpl in *; subst evs'.
  - specialize (Hrest [] (fun _ _ => eq_refl)). specialize (Hdone [] (fun _ _ => eq_refl) Hres).
    rewrite app_nil_r in Hrest, Hdone. split; assumption.
  - split; [apply (Hrest [EExit 1]); reflexivity|apply (Hdone [EExit 1]); [reflexivity|exact Hres]].
  - specialize (Hrest [] (fun _ _ => eq_refl)). specialize (Hdone [] (fun _ _ => eq_refl) Hres).
    rewrite app_nil_r in Hrest, Hdone. split; assumption.
  - specialize (Hrest [] (fun _ _ => eq_refl)). rewrite app_nil_r in Hrest. split.
    + apply Forall_app. split; [exact Hrest|]. apply Forall_cons. split; [|constructor].
      intros v. simpl. rewrite unreleased_app. apply Hres.
    + intros id' Hid'. rewrite map_app in Hid'. simpl in Hid'.
      rewrite unreleased_app, Hother.
      * apply Hended; [|intros Hin; apply Hid', elem_of_app; left; exact Hin].
        intros Heq. apply Hid', elem_of_app. right. rewrite Heq. left.
      * intros Heq. apply Hid', elem_of_app. right. rewrite Heq. left.
Qed.

Ltac releases_step :=
  match goal with
  | |- forall _, _ => intro
  | |- context [Nat.eqb ?p ?p] => rewrite Nat.eqb_refl
  | |- @eq (list _) _ [] => reflexivity
  | |- releases _ ?t =>
      match t with
      | context [match ?x with _ => _ end] => destruct x
      | context [if ?x then _ else _] => destruct x
      end
  | |- releases _ _ => progress simpl
  end.

Ltac releases_tac := repeat releases_step.

Section Pages.

Context (env : environment).

Lemma sweep_releases (now : Z) (l : list (string * CacheEntry)) :
  releases []
    (for_each l (fun kd =>
       if Z.gtb (now - timestamp (snd kd)) (CACHE_TTL env)
       then perform (ImageCacheDelete (fst kd))
       else Ret tt)).
Proof.
  induction l as [|kd l IH]; simpl; [reflexivity|].
  destruct (Z.gtb (now - timestamp (snd kd)) (CACHE_TTL env)); simpl.
  - intros _. exact IH.
  - exact IH.
Qed.

Lemma started_releases (i : input) : releases [] (task_of env i).
Proof.
  destruct i as [|req|id o| |sig| |e]; simpl task_of.
  - unfold on_listening, initBrowser. releases_tac.
  - unfold app, routes, get_root, post_cache_clear, post_html_to_image, get_test_image,
      generateImageOptimized, render, initBrowser, enter, leave.
    releases_tac.
  - reflexivity.
  - unfold cleanupCache. simpl. intros now l. apply sweep_releases.
  - unfold on_signal. releases_tac.
  - unfold on_server_closed. releases_tac.
  - unfold on_bad_body. releases_tac.
Qed.

Lemma step_released n now i (m m' : machine) :
  answered n m -> released m -> step env now i m = Some m' -> released m'.
Proof.
  intros [_ Hdistinct Hfresh _ _ _] [Hall Hended] Hstep.
  assert (forall src s,
            released (spawn now src (task_of env src) s m)) as Hspawn.
  { intros src s. unfold spawn, run.
    assert (next_id m ∉ map fst (tasks m)) as Hnotin.
    { intros Hin. apply list_elem_of_fmap in Hin as (t & Hid & Hin).
      rewrite Forall_forall in Hfresh. specialize (Hfresh t Hin). lia. }
    apply settle_segment_released; try assumption.
    - intros id' _ Hid'. apply Hended, Hid'.
    - rewrite (Hended _ Hnotin). apply started_releases. }
  unfold step in Hstep.
  destruct (exit_code (st m)); [discriminate|].
  destruct i as [|req|id o| |sig| |e].
  - destruct (lifecycle (st m)); try discriminate. injection Hstep as <-.
    apply (Hspawn Listening).
  - destruct (accepting (lifecycle (st m))); [|discriminate]. injection Hstep as <-.
    apply (Hspawn (Incoming req)).
  - destruct (take_task id (tasks m)) as [[[src X c k] rest]|] eqn:Htake; [|discriminate].
    destruct (coerce c o) as [v|]; [|discriminate]. injection Hstep as <-.
    pose proof (take_task_Permutation _ _ _ _ Htake) as Hperm.
    assert (forall id', id' ∈ map fst (tasks m) <-> id' = id \/ id' ∈ map fst rest) as Hids.
    { intros id'. rewrite Hperm. simpl. apply elem_of_cons. }
    rewrite Hperm in Hall, Hdistinct.
    apply Forall_cons in Hall as [Hk Hall].
    simpl in Hdistinct. apply NoDup_cons in Hdistinct as [Hnotin Hdistinct].
    unfold run. apply settle_segment_released; try assumption.
    + intros id' Hne Hid'. apply Hended. rewrite Hids. tauto.
    + apply Hk.
  - injection Hstep as <-. apply (Hspawn CleanupTimer).
  - injection Hstep as <-. apply (Hspawn (Signal sig)).
  - destruct (close_callbacks (st m)); [discriminate|]. injection Hstep as <-.
    apply (Hspawn ServerClosed).
  - destruct (accepting (lifecycle (st m))); [|discriminate]. injection Hstep as <-.
    apply (Hspawn (BadBody e)).
Qed.

Lemma steps_released (l : list (Z * input)) :
  forall n m m',
    answered n m -> released m -> steps env l m = Some m' -> released m'.
Proof.
  induction l as [|[now i] l IH]; intros n m m' Hans Hinv Hsteps; simpl in Hsteps.
  - injection Hsteps as <-. exact Hinv.
  - destruct (step env now i m) as [m1|] eqn:Hstep; [|discriminate].
    apply (IH _ m1 m' (step_answered env n now i m m1 Hans Hstep)); [|exact Hsteps].
    apply (step_released n now i m m1 Hans Hinv Hstep).
Qed.

Lemma boot_released : released boot.
Proof. split; [constructor|reflexivity]. Qed.

End Pages.

(** X17: in every run of the server from its start, a task that has ended
    has passed to [page.close()] every page it called [setViewport],
    [setContent] or [screenshot] on, after its last call on that page:
    whether the render succeeds or a step of it rejects, and however the
    renders of other requests are interleaved with it, no request leaves a
    page open behind it. *)
Theorem ended_tasks_closed_their_pages env (l : list (Z * input)) (m : machine) (id : nat) :
  steps env l boot = Some m ->
  id ∉ map fst (tasks m) ->
  unreleased id (history m) = [].
Proof.
  intros Hsteps Hid.
  destruct (steps_released env l 0 boot m boot_answered boot_released Hsteps)
    as [_ Hended].
  apply Hended, Hid.
Qed.

Lemma ended_tasks_closed_their_pages_witness :
  exists m,
    steps default_env mixed_run boot = Some m
    /\ omap used_page (history m) = [(1, 7); (1, 7); (1, 7)]%nat
    /\ unreleased 1 (firstn 6 (history m)) = [7%nat]
    /\ unreleased 1 (history m) = [].
Proof.
  destruct (some_of_evaluation (steps default_env mixed_run boot)) as [m Hm];
    [vm_compute; reflexivity|].
  exists m. split; [exact Hm|]. split; [by_evaluation Hm; reflexivity|].
  split; [by_evaluation Hm; reflexivity|].
  apply (ended_tasks_closed_their_pages default_env mixed_run m 1 Hm).
  by_evaluation Hm. apply not_elem_of_nil.
Defined.

(** ** A browser that cannot be launched *)

(** X18: a POST to [/html-to-image] arrives below the ceiling, with html
    within the limit, while no browser is stored and the cache has nothing
    under its key, and both launches it asks for reject.  Whatever the other
    tasks make of the globals in between ([s1] and [s2] are the states the
    request finds when it resumes): the launches were asked with the full
    and then with the reduced options, the request is answered 500 with the
    message of the second rejection, the counter is decremented as the
    request finds it, and the handler itself stores no browser: the other
    globals are as the request found them at the second rejection. *)
Theorem failed_launch_is_reported env id now (h : string) (o : option object)
    (s s1 s2 : state) (e1 e2 : Error) (t1 t2 : Z) :
  activeRequests s < MAX_CONCURRENT env ->
  h <> EmptyString ->
  Str.length h <= MAX_HTML_LENGTH ->
  browser s = None ->
  imageCache s !! generateCacheKey h (JObj (default [] o)) = None ->
  drive_among id [ (t1, SReject e1, s1); (t2, SReject e2, s2) ]
    (run id now (app env (Request "POST" "/html-to-image" (Some h) o)) s)
  = Some (with_activeRequests (Z.max 0 (activeRequests s2 - 1)) s2,
          [ EActiveRequests (activeRequests s + 1);
            ECall id (Launch (first_launchOptions env));
            ECall id (Launch (retry_launchOptions env));
            ESend id (generation_failed e2 (t2 - now) t2 fresh_res);
            EActiveRequests (Z.max 0 (activeRequests s2 - 1)) ],
          Finished tt).
Proof.
  intros Hn Hne Hlen Hb Hmiss. unfold MAX_HTML_LENGTH in Hlen.
  destruct h as [|c h]; [congruence|].
  unfold run, app, routes, post_html_to_image, generateImageOptimized, render, initBrowser,
    MAX_HTML_LENGTH.
  repeat (progress (simpl; rewrite ?Hmiss, ?Hb; decide_tests)).
  reflexivity.
Qed.

Lemma failed_launch_is_reported_witness :
  drive_among 1
    [ (30, SReject "no chrome", with_activeRequests 4 initial);
      (40, SReject "no chrome at all", with_activeRequests 2 idle) ]
    (run 1 20 (app default_env request_x) initial)
  = Some (with_activeRequests (Z.max 0 (activeRequests (with_activeRequests 2 idle) - 1))
            (with_activeRequests 2 idle),
          [ EActiveRequests (activeRequests initial + 1);
            ECall 1 (Launch (first_launchOptions default_env));
            ECall 1 (Launch (retry_launchOptions default_env));
            ESend 1 (generation_failed "no chrome at all" (40 - 20) 40 fresh_res);
            EActiveRequests (Z.max 0 (activeRequests (with_activeRequests 2 idle) - 1)) ],
          Finished tt).
Proof.
  apply (failed_launch_is_reported default_env 1 20 "<h1>x</h1>" None initial
           (with_activeRequests 4 initial) (with_activeRequests 2 idle)
           "no chrome" "no chrome at all" 30 40).
  - vm_compute. reflexivity.
  - discriminate.
  - vm_compute. discriminate.
  - reflexivity.
  - vm_compute. reflexivity.
Defined.
